(** * Verification of the react-native-maker project scaffolder

    The development embeds [scaffolder-script.js] (class
    [ReactNativeProjectScaffolder]) and the TypeScript modules it generates,
    and proves the properties claimed about them.

    Layout: Part I holds the model (JavaScript values, paths, the file
    system, the effect monad, the scaffolder's methods, the generated
    modules); Part II holds the theorems. *)

From Stdlib Require Import ZArith Lia Ascii.
From stdpp Require Import gmap strings list fin_maps.


(* ===================================================================== *)
(** * Part I. The model                                                    *)
(* ===================================================================== *)

(** ** JavaScript values held by [this.config] *)

(** The configuration fields hold [false]/[true], [null], or a string
    returned by a prompt. *)
Inductive value :=
| VNull
| VBool (b : bool)
| VString (s : string).

(** [if (v)]: ToBoolean. [null], [false] and the empty string are falsy;
    every other string, ['None'] included, is truthy. *)
Definition truthy (v : value) : bool :=
  match v with
  | VNull => false
  | VBool b => b
  | VString s => negb (String.eqb s "")
  end.

(** [obj[v]]: ToPropertyKey. *)
Definition to_property_key (v : value) : string :=
  match v with
  | VNull => "null"
  | VBool true => "true"
  | VBool false => "false"
  | VString s => s
  end.

(** The result of reading [obj[key]] on an object literal: an own property,
    a property found on [Object.prototype] (a function, or the prototype
    object itself for [__proto__]; all of them truthy and none of them an
    array), or [undefined]. *)
Inductive property (A : Type) :=
| Own (a : A)
| Inherited (name : string)
| Undefined.
Arguments Own {A} a.
Arguments Inherited {A} name.
Arguments Undefined {A}.

(** Property names every object literal inherits from [Object.prototype]. *)
Definition Object_prototype_keys : list string :=
  [ "constructor"; "__defineGetter__"; "__defineSetter__"; "hasOwnProperty";
    "__lookupGetter__"; "__lookupSetter__"; "isPrototypeOf";
    "propertyIsEnumerable"; "toString"; "valueOf"; "__proto__";
    "toLocaleString" ].

Fixpoint own_property {A} (obj : list (string * A)) (key : string) : option A :=
  match obj with
  | [] => None
  | (k, a) :: rest => if String.eqb k key then Some a else own_property rest key
  end.

Definition is_inherited (key : string) : bool :=
  existsb (String.eqb key) Object_prototype_keys.

Definition get_property {A} (obj : list (string * A)) (key : string) : property A :=
  match own_property obj key with
  | Some a => Own a
  | None => if is_inherited key then Inherited key else Undefined
  end.

(** [x || []]: the right operand is taken only when [x] is [undefined]
    (arrays, functions and objects are truthy). *)
Definition or_empty {A} (x : property (list A)) : property (list A) :=
  match x with
  | Undefined => Own []
  | _ => x
  end.

(** ** Paths *)

(** A path is its list of segments; [rootPath] is kept in this form.  The
    relative paths of the source are string literals and are split on
    ['/'] by [segments], so [path.join(root, 'src/utils')] is
    [root ++ ["src"; "utils"]].  No literal of the source has a ['.'] or
    ['..'] segment, so [path.join] has nothing else to normalise. *)
Abbreviation path := (list string).

Definition push_segment (seg : string) (rest : path) : path :=
  match seg with
  | EmptyString => rest
  | _ => seg :: rest
  end.

Fixpoint split_slash (s cur : string) : path :=
  match s with
  | EmptyString => push_segment cur []
  | String c s' =>
      if Ascii.eqb c "/"%char then push_segment cur (split_slash s' EmptyString)
      else split_slash s' (cur +:+ String c EmptyString)
  end.

(** The segments of a relative path; empty segments are dropped. *)
Definition segments (s : string) : path := split_slash s EmptyString.

Definition path_join (root : path) (rel : string) : path := root ++ segments rel.

(** [path.dirname]: the path without its last segment. *)
Fixpoint dirname (p : path) : path :=
  match p with
  | [] => []
  | [_] => []
  | x :: q => x :: dirname q
  end.

(** The non-empty prefixes of a path, shortest first: the directories
    [mkdirp] has to provide. *)
Fixpoint prefixes (p : path) : list path :=
  match p with
  | [] => []
  | x :: q => [x] :: map (cons x) (prefixes q)
  end.

(** ** The file system *)

Inductive node :=
| Dir
| File (content : string).

#[global] Instance node_eq_dec : EqDecision node.
Proof. solve_decision. Defined.

Definition is_file (o : option node) : bool :=
  match o with
  | Some (File _) => true
  | _ => false
  end.

(** The file system maps the paths that exist to what is there.  The empty
    path is the file-system root, which always is a directory and has no
    entry. *)
Abbreviation FS := (gmap (list string) node).

Inductive error :=
| EEXIST (p : path)        (* mkdir: the path exists and is a file *)
| ENOTDIR (p : path)       (* a component of the path is a file *)
| ENOENT (p : path)        (* open: the parent directory is missing *)
| EISDIR (p : path)        (* open: the path is a directory *)
| TypeError (msg : string)
| PromptError (msg : string).

#[global] Instance error_eq_dec : EqDecision error.
Proof. solve_decision. Defined.

(** The operations fail on what is on the disk: a file where a directory
    is needed, a directory where a file is written, a missing parent.
    Failures of the environment (permissions, a full disk) are not part
    of the model.

    [fs.mkdirpSync(p)]: looks for the deepest existing ancestor first and
    creates nothing when a component is a file; otherwise every missing
    prefix becomes a directory.  A path that is a directory already is
    left as it is. *)
Definition mkdirp_error (fs : FS) (p : path) : option error :=
  match filter (fun q => is_file (fs !! q) = true) (prefixes p) with
  | [] => None
  | q :: _ => Some (if bool_decide (q = p) then EEXIST p else ENOTDIR p)
  end.

Definition mkdirp_fs (fs : FS) (p : path) : FS :=
  foldr (fun q m => <[q := Dir]> m) fs (prefixes p).

(** [fs.writeFileSync(p, content)]: create or overwrite; the parent has to
    be a directory and [p] must not be one. *)
Definition write_error (fs : FS) (p : path) : option error :=
  match fs !! p with
  | Some Dir => Some (EISDIR p)
  | _ =>
      match dirname p with
      | [] => None
      | d =>
          match fs !! d with
          | Some Dir => None
          | Some (File _) => Some (ENOTDIR p)
          | None => Some (ENOENT p)
          end
      end
  end.

Definition write_fs (fs : FS) (p : path) (content : string) : FS :=
  <[p := File content]> fs.

(** ** JSON documents and [fs.writeJsonSync] *)

#[warnings="-register-all"]
Inductive json :=
| JString (s : string)
| JArray (items : list json)
| JObject (members : list (string * json)).

Definition dquote : string := String "034"%char EmptyString.
Definition newline : string := String "010"%char EmptyString.

(** [JSON.stringify]'s string quoting; of the characters it escapes only
    the double quote and the backslash are handled, the documents written
    here contain no control character. *)
Fixpoint escape (s : string) : string :=
  match s with
  | EmptyString => EmptyString
  | String c s' =>
      if Ascii.eqb c "034"%char || Ascii.eqb c "092"%char
      then String "092"%char (String c (escape s'))
      else String c (escape s')
  end.

Definition quote (s : string) : string := dquote +:+ escape s +:+ dquote.

Fixpoint pad (n : nat) : string :=
  match n with
  | O => EmptyString
  | S n' => String " "%char (pad n')
  end.

Fixpoint join (sep : string) (l : list string) : string :=
  match l with
  | [] => EmptyString
  | [x] => x
  | x :: l' => x +:+ sep +:+ join sep l'
  end.

(** [JSON.stringify(doc, null, gap)] for a positive [gap]. *)
Fixpoint stringify_at (gap indent : nat) (doc : json) : string :=
  match doc with
  | JString s => quote s
  | JArray [] => "[]"
  | JArray items =>
      "[" +:+ newline +:+
      join ("," +:+ newline)
        (map (fun x => pad (indent + gap) +:+ stringify_at gap (indent + gap) x) items)
      +:+ newline +:+ pad indent +:+ "]"
  | JObject [] => "{}"
  | JObject members =>
      "{" +:+ newline +:+
      join ("," +:+ newline)
        (map (fun m => match m with
                       | (k, v) => pad (indent + gap) +:+ quote k +:+ ": "
                                     +:+ stringify_at gap (indent + gap) v
                       end) members)
      +:+ newline +:+ pad indent +:+ "}"
  end.

(** [jsonfile]'s serialisation: the document, then a final end of line. *)
Definition stringify (doc : json) (spaces : nat) : string :=
  stringify_at spaces 0 doc +:+ newline.

(** Member access on a document: [doc.key]. *)
Definition member (key : string) (doc : json) : option json :=
  match doc with
  | JObject members => own_property members key
  | _ => None
  end.

(** ** The scaffolder object, the world around it, and the effect monad *)

(** [this.config]. *)
Record Config := mkConfig {
  bottomNavigation : value;
  storageType : value;
  navigationSetup : value;
  stateManagement : value }.

(** What the interactive surface does with one [inquirer.prompt] call:
    it resolves with the operator's answer or rejects. *)
Inductive response :=
| Answer (v : value)
| Rejects (e : error).

(** What a run does, in the order it does it. *)
Inductive event :=
| Prompted (name : string) (answer : value)
| MadeDir (p : path)
| WroteFile (p : path) (content : string)
| ConsoleLog (msg : string)
| ConsoleError (msg : string) (detail : error).

(** The scaffolder's fields ([rootPath], [config]), the file system, the
    responses the surface still holds, and the events so far. *)
Record state := mkState {
  rootPath : path;
  config : Config;
  fs : FS;
  surface : list response;
  trace : list event }.

Definition set_config (f : Config -> Config) (s : state) : state :=
  {| rootPath := rootPath s; config := f (config s); fs := fs s;
     surface := surface s; trace := trace s |}.

Definition set_fs (f : FS) (s : state) : state :=
  {| rootPath := rootPath s; config := config s; fs := f;
     surface := surface s; trace := trace s |}.

Definition set_surface (r : list response) (s : state) : state :=
  {| rootPath := rootPath s; config := config s; fs := fs s;
     surface := r; trace := trace s |}.

Definition emit (ev : event) (s : state) : state :=
  {| rootPath := rootPath s; config := config s; fs := fs s;
     surface := surface s; trace := trace s ++ [ev] |}.

(** A statement either completes with a value or throws. *)
Inductive outcome (A : Type) :=
| Ok (a : A)
| Throw (e : error).
Arguments Ok {A} a.
Arguments Throw {A} e.

Definition M (A : Type) : Type := state -> outcome A * state.

#[global] Instance M_ret : MRet M := fun A a s => (Ok a, s).

#[global] Instance M_bind : MBind M := fun A B k m s =>
  match m s with
  | (Ok a, s') => k a s'
  | (Throw e, s') => (Throw e, s')
  end.

#[global] Instance M_throw : MThrow error M := fun A e s => (Throw e, s).

Definition gets {A} (f : state -> A) : M A := fun s => (Ok (f s), s).

Definition modify (f : state -> state) : M unit := fun s => (Ok tt, f s).

(** [try { body } catch (error) { handler }]. *)
Definition try_catch {A} (body : M A) (handler : error -> M A) : M A :=
  fun s =>
    match body s with
    | (Ok a, s') => (Ok a, s')
    | (Throw e, s') => handler e s'
    end.

(** [if (c) { body }]. *)
Definition when (c : bool) (body : M unit) : M unit :=
  if c then body else mret tt.

(** [list.forEach(f)]. *)
Fixpoint forEach {A} (l : list A) (f : A -> M unit) : M unit :=
  match l with
  | [] => mret tt
  | x :: l' => f x ;; forEach l' f
  end.

(** [files.forEach(f)] where [files] came out of a property lookup: a
    value that is not an array has no [forEach]. *)
Definition forEach_property {A} (files : property (list A)) (f : A -> M unit) : M unit :=
  match files with
  | Own l => forEach l f
  | Inherited _ => mthrow (TypeError "files.forEach is not a function")
  | Undefined => mthrow (TypeError "Cannot read properties of undefined (reading 'forEach')")
  end.

(** *** Primitive effects *)

Definition console_log (msg : string) : M unit := modify (emit (ConsoleLog msg)).

Definition console_error (msg : string) (detail : error) : M unit :=
  modify (emit (ConsoleError msg detail)).

Definition mkdirpSync (p : path) : M unit :=
  fun s =>
    match mkdirp_error (fs s) p with
    | Some e => (Throw e, s)
    | None => (Ok tt, emit (MadeDir p) (set_fs (mkdirp_fs (fs s) p) s))
    end.

Definition writeFileSync (p : path) (content : string) : M unit :=
  fun s =>
    match write_error (fs s) p with
    | Some e => (Throw e, s)
    | None => (Ok tt, emit (WroteFile p content) (set_fs (write_fs (fs s) p content) s))
    end.

Definition writeJsonSync (p : path) (doc : json) (spaces : nat) : M unit :=
  writeFileSync p (stringify doc spaces).

(** *** The interactive surface *)

Inductive question_type := confirm | list_choice.

Record question := mkQuestion {
  qtype : question_type;
  qname : string;
  qmessage : string;
  qdefault : option bool;
  qchoices : list string }.

(** [await inquirer.prompt([q])], destructured at [q]'s name.  The surface
    is the list of how it settles the prompts, one after the other: with
    an answer or with a rejection.  A list that ends before the prompts
    do stands for a surface that rejects from then on.  A process whose
    standard input is closed is no such surface: there a prompt does not
    settle and the process is ended by a signal at the first question;
    no list describes that, and what is stated of how a run or the
    command ends is stated for a [responsive] surface. *)
Definition inquirer_prompt (q : question) : M value :=
  fun s =>
    match surface s with
    | [] => (Throw (PromptError "Prompt couldn't be rendered in the current environment"), s)
    | Rejects e :: rest => (Throw e, set_surface rest s)
    | Answer v :: rest => (Ok v, emit (Prompted (qname q) v) (set_surface rest s))
    end.

(** An answer the surface can give to a question: a boolean to a
    confirmation, one of the choices to a list. *)
Definition answers (q : question) (v : value) : Prop :=
  match qtype q with
  | confirm => ∃ b, v = VBool b
  | list_choice => ∃ c, c ∈ qchoices q ∧ v = VString c
  end.

(** ** Generated file contents *)

(** The template literals of the source, escapes resolved. *)

Definition reduxStoreIndexContent : string :=
"
                            import { configureStore } from '@reduxjs/toolkit';
                            export const store = configureStore({
                                reducer: {
                                    // Add your reducers here
                                },
                            });
                            export type RootState = ReturnType<typeof store.getState>;
                            export type AppDispatch = typeof store.dispatch;
                            ".

Definition reduxExampleSliceContent : string :=
"
                            import { createSlice } from '@reduxjs/toolkit';
                            
                            const initialState = {
                                value: 0,
                            };
                            
                            const exampleSlice = createSlice({
                                name: 'example',
                                initialState,
                                reducers: {
                                    increment: (state) => { state.value += 1; },
                                    decrement: (state) => { state.value -= 1; }
                                },
                            });
                            
                            export const { increment, decrement } = exampleSlice.actions;
                            export default exampleSlice.reducer;
                                            ".

Definition zustandExampleStoreContent : string :=
"
                                import create from 'zustand';
                                
                                type ExampleState = {
                                    value: number;
                                    increment: () => void;
                                    decrement: () => void;
                                };
                                
                                const useExampleStore = create<ExampleState>((set: any) => ({
                                    value: 0,
                                    increment: () => set((state: any) => ({ value: state.value + 1 })),
                                    decrement: () => set((state: any) => ({ value: state.value - 1 })),
                                }));
                                
                                export default useExampleStore;
                                                ".

Definition contextExampleProviderContent : string :=
"
                            import React, { createContext, useContext, useState, ReactNode } from 'react';
                            
                            type ExampleContextType = {
                                value: number;
                                increment: () => void;
                                decrement: () => void;
                            };
                            
                            const ExampleContext = createContext<ExampleContextType | undefined>(undefined);
                            
                            const ExampleProvider = ({ children }: { children: ReactNode }) => {
                                const [value, setValue] = useState(0);
                            
                                const increment = () => setValue((prev) => prev + 1);
                                const decrement = () => setValue((prev) => prev - 1);
                            
                                return (
                                    <ExampleContext.Provider value={{ value, increment, decrement }}>
                                        {children}
                                    </ExampleContext.Provider>
                                );
                            };
                            
                            const useExampleContext = () => {
                                const context = useContext(ExampleContext);
                                if (!context) throw new Error('useExampleContext must be used within an ExampleProvider');
                                return context;
                            };
                            
                            export { ExampleProvider, useExampleContext };
                                            ".

Definition asyncStorageContent : string :=
"import AsyncStorage from '@react-native-async-storage/async-storage';
      
    /**
     * A utility class for managing AsyncStorage.
     */
    class StorageUtil {
    /**
     * Set a value in AsyncStorage
     * @param key - The key to store the value under
     * @param value - The value to store
     */
    static async setItem(key: string, value: string): Promise<void> {
        try {
        await AsyncStorage.setItem(key, value);
        console.log(`✅ Successfully saved item with key: ${key}`);
        } catch (error) {
        console.error(`❌ Error saving item to AsyncStorage with key ${key}:`, error);
        }
    }
    
    /**
     * Get a value from AsyncStorage
     * @param key - The key to fetch value from
     * @returns The value or null if not found
     */
    static async getItem(key: string): Promise<string | null> {
        try {
        const value = await AsyncStorage.getItem(key);
        console.log(`✅ Successfully fetched item with key: ${key}`);
        return value;
        } catch (error) {
        console.error(`❌ Error fetching item from AsyncStorage with key ${key}:`, error);
        return null;
        }
    }
    
    /**
     * Delete an item from AsyncStorage
     * @param key - The key to delete
     */
    static async deleteItem(key: string): Promise<void> {
        try {
        await AsyncStorage.removeItem(key);
        console.log(`✅ Successfully deleted item with key: ${key}`);
        } catch (error) {
        console.error(`❌ Error deleting item from AsyncStorage with key ${key}:`, error);
        }
    }
    
    /**
     * Clear all items in AsyncStorage
     */
    static async clearAll(): Promise<void> {
        try {
        await AsyncStorage.clear();
        console.log('✅ Successfully cleared all AsyncStorage items');
        } catch (error) {
        console.error('❌ Error clearing AsyncStorage:', error);
        }
    }
    }
    
    export default StorageUtil;
      ".

Definition mmkvStorageContent : string :=
"import { MMKV } from 'react-native-mmkv';
        
        /**
         * A utility class for managing MMKV storage.
         */
        const storage = new MMKV();
        
        class MMKVStorageUtil {
            /**
             * Set a value in MMKV storage.
             * @param key - The key to store the value under.
             * @param value - The value to store.
             */
            static setItem(key: string, value: string): void {
            try {
                storage.set(key, value);
                console.log(`✅ Successfully saved item with key: ${key}`);
            } catch (error) {
                console.error(`❌ Error saving item to MMKV with key ${key}:`, error);
            }
            }
        
            /**
             * Get a value from MMKV storage.
             * @param key - The key to fetch value from.
             * @returns The value or null if not found.
             */
            static getItem(key: string): string | null {
            try {
                const value = storage.getString(key);
                console.log(`✅ Successfully fetched item with key: ${key}`);
                return value;
            } catch (error) {
                console.error(`❌ Error fetching item from MMKV with key ${key}:`, error);
                return null;
            }
            }
        
            /**
             * Delete an item from MMKV storage.
             * @param key - The key to delete.
             */
            static deleteItem(key: string): void {
            try {
                storage.delete(key);
                console.log(`✅ Successfully deleted item with key: ${key}`);
            } catch (error) {
                console.error(`❌ Error deleting item from MMKV with key ${key}:`, error);
            }
            }
        
            /**
             * Clear all data in MMKV storage.
             */
            static clearAll(): void {
            try {
                storage.clearAll();
                console.log('✅ Successfully cleared all MMKV storage items');
            } catch (error) {
                console.error('❌ Error clearing MMKV storage:', error);
            }
            }
        }
        
        export default MMKVStorageUtil;
      ".

Definition navigationRefContent : string :=
"import { NavigationContainerRef, createNavigationContainerRef } from '@react-navigation/native';
      
      /**
       * Create a navigation reference to use outside of React components.
       */
      export const navigationRef: NavigationContainerRef = createNavigationContainerRef();
      
      /**
       * Navigate to a specific route.
       * @param routeName - The name of the route to navigate to.
       * @param params - The params to pass to the route.
       */
      export function navigate(routeName: string, params?: Record<string, any>): void {
        if (navigationRef.isReady()) {
          navigationRef.navigate(routeName, params);
        } else {
          console.error('Navigation is not ready');
        }
      }
      
      /**
       * Go back to the previous route.
       */
      export function goBack(): void {
        if (navigationRef.canGoBack()) {
          navigationRef.goBack();
        } else {
          console.error('No routes to go back to');
        }
      }
      
      /**
       * Reset the navigation stack to a new route.
       * @param routes - The list of routes to reset to.
       */
      export function resetNavigationStack(routes: Array<{ name: string; params?: Record<string, any> }>): void {
        if (navigationRef.isReady()) {
          navigationRef.reset({
            index: routes.length - 1,
            routes,
          });
        } else {
          console.error('Navigation is not ready');
        }
      }
      ".

Definition generateBottomTabContent : string := "// Bottom Tab Navigation Placeholder".
Definition generateAsyncStorageContent : string := asyncStorageContent.
Definition generateMMKVStorageContent : string := mmkvStorageContent.
Definition generateRootNavigatorContent : string := "// Root Navigator Placeholder".
Definition generateNavigationRefContent : string := navigationRefContent.
Definition generateMediaHandlerContent : string := "// Media Handler Utility Placeholder".
Definition generateResponsiveScreenContent : string := "// Responsive Screen Utility Placeholder".

(** [haystack.includes(needle)]. *)
Fixpoint includes (haystack needle : string) : bool :=
  String.prefix needle haystack ||
  match haystack with
  | EmptyString => false
  | String _ rest => includes rest needle
  end.

(** A class body exposes a static operation [name] when it declares
    [static name(] or [static async name(]. *)
Definition exposes_static (content name : string) : bool :=
  includes content ("static " +:+ name +:+ "(") ||
  includes content ("static async " +:+ name +:+ "(").

(** ** The scaffolder's methods *)

(** An element of the file tables: [{ path, content }]. *)
Record FileSpec := mkFile {
  file_path : string;
  file_content : string }.

(** The constructor's [this.config]. *)
Definition initial_config : Config :=
  {| bottomNavigation := VBool false; storageType := VNull;
     navigationSetup := VBool false; stateManagement := VNull |}.

Definition bottomNav_question : question :=
  {| qtype := confirm; qname := "bottomNav";
     qmessage := "Do you want to set up Bottom Tab Navigation?";
     qdefault := Some false; qchoices := [] |}.

Definition storageType_question : question :=
  {| qtype := list_choice; qname := "storageType";
     qmessage := "Select a storage solution:";
     qdefault := None;
     qchoices := ["Async Storage"; "React Native MMKV"; "None"] |}.

Definition navigationSetup_question : question :=
  {| qtype := confirm; qname := "navigationSetup";
     qmessage := "Do you want to set up a comprehensive navigation structure?";
     qdefault := Some false; qchoices := [] |}.

Definition stateManagement_question : question :=
  {| qtype := list_choice; qname := "stateManagement";
     qmessage := "Select a state management solution:";
     qdefault := None;
     qchoices := ["Redux Toolkit"; "Zustand"; "Context API"; "None"] |}.

Definition promptBottomNavigation : M unit :=
  bottomNav ← inquirer_prompt bottomNav_question;
  modify (set_config (fun c =>
    {| bottomNavigation := bottomNav; storageType := storageType c;
       navigationSetup := navigationSetup c; stateManagement := stateManagement c |})).

Definition promptStorageSetup : M unit :=
  answer ← inquirer_prompt storageType_question;
  modify (set_config (fun c =>
    {| bottomNavigation := bottomNavigation c; storageType := answer;
       navigationSetup := navigationSetup c; stateManagement := stateManagement c |})).

Definition promptNavigationSetup : M unit :=
  answer ← inquirer_prompt navigationSetup_question;
  modify (set_config (fun c =>
    {| bottomNavigation := bottomNavigation c; storageType := storageType c;
       navigationSetup := answer; stateManagement := stateManagement c |})).

Definition promptStateManagement : M unit :=
  answer ← inquirer_prompt stateManagement_question;
  modify (set_config (fun c =>
    {| bottomNavigation := bottomNavigation c; storageType := storageType c;
       navigationSetup := navigationSetup c; stateManagement := answer |})).

Definition ensureNavigationDirectory : M unit :=
  root ← gets rootPath;
  let navigationPath := path_join root "src/navigation" in
  mkdirpSync navigationPath;;
  console_log "Ensured navigation directory exists: src/navigation".

Definition baseDirectories : list string :=
  [ "src/assets/fonts";
    "src/assets/icons/imageIcons";
    "src/assets/icons/svgIcons";
    "src/assets/images/PngAndJpgImages";
    "src/assets/images/SvgImages";
    "src/assets/images/OtherImages";
    "src/components/global";
    "src/components/forms";
    "src/store";
    "src/constants";
    "src/hooks";
    "src/context";
    "src/features/auth";
    "src/features/dashboard";
    "src/features/settings";
    "src/features/chat";
    "src/i18n/locales";
    "src/service";
    "src/styles";
    "src/theme";
    "src/types";
    "src/utils" ].

Definition createBaseDirectories : M unit :=
  forEach baseDirectories (fun dir =>
    root ← gets rootPath;
    let fullPath := path_join root dir in
    mkdirpSync fullPath;;
    console_log ("Created directory: " +:+ dir)).

Definition bottomNavDirectories : list string := [ "src/assets/icons/BottomTabIcons" ].

Definition bottomNavFiles : list string := [ "src/navigation/BottomTabNavigator.tsx" ].

Definition setupBottomNavigation : M unit :=
  forEach bottomNavDirectories (fun dir =>
    root ← gets rootPath;
    let fullPath := path_join root dir in
    mkdirpSync fullPath;;
    console_log ("Created Bottom Nav directory: " +:+ dir));;
  forEach bottomNavFiles (fun file =>
    root ← gets rootPath;
    let fullPath := path_join root file in
    let content := generateBottomTabContent in
    writeFileSync fullPath content;;
    console_log ("Created Bottom Nav file: " +:+ file)).

Definition storageFiles : list (string * list FileSpec) :=
  [ ("Async Storage",
      [ {| file_path := "src/utils/asyncStorage.ts";
           file_content := generateAsyncStorageContent |} ]);
    ("React Native MMKV",
      [ {| file_path := "src/utils/mmkvStorage.ts";
           file_content := generateMMKVStorageContent |} ]) ].

Definition setupStorage : M unit :=
  c ← gets config;
  let files := or_empty (get_property storageFiles (to_property_key (storageType c))) in
  forEach_property files (fun file =>
    root ← gets rootPath;
    let fullPath := path_join root (file_path file) in
    mkdirpSync (dirname fullPath);;
    writeFileSync fullPath (file_content file);;
    console_log ("Created storage file: " +:+ file_path file)).

Definition navigationFiles : list FileSpec :=
  [ {| file_path := "src/navigation/RootNavigator.tsx";
       file_content := generateRootNavigatorContent |};
    {| file_path := "src/navigation/NavigationRef.ts";
       file_content := generateNavigationRefContent |} ].

Definition setupNavigation : M unit :=
  forEach navigationFiles (fun file =>
    root ← gets rootPath;
    let fullPath := path_join root (file_path file) in
    mkdirpSync (dirname fullPath);;
    writeFileSync fullPath (file_content file);;
    console_log ("Created navigation file: " +:+ file_path file)).

Definition stateManagementFiles : list (string * list FileSpec) :=
  [ ("Redux Toolkit",
      [ {| file_path := "src/store/index.ts";
           file_content := reduxStoreIndexContent |};
        {| file_path := "src/store/slices/exampleSlice.ts";
           file_content := reduxExampleSliceContent |} ]);
    ("Zustand",
      [ {| file_path := "src/store/zustand/exampleStore.ts";
           file_content := zustandExampleStoreContent |} ]);
    ("Context API",
      [ {| file_path := "src/context/providers/ExampleProvider.tsx";
           file_content := contextExampleProviderContent |} ]) ].

Definition setupStateManagement : M unit :=
  c ← gets config;
  let files :=
    or_empty (get_property stateManagementFiles (to_property_key (stateManagement c))) in
  forEach_property files (fun file =>
    root ← gets rootPath;
    let fullPath := path_join root (file_path file) in
    mkdirpSync (dirname fullPath);;
    writeFileSync fullPath (file_content file);;
    console_log ("Created state management file: " +:+ file_path file)).

Definition utilFiles : list FileSpec :=
  [ {| file_path := "src/utils/MediaHandler.ts";
       file_content := generateMediaHandlerContent |};
    {| file_path := "src/utils/responsive-screen.ts";
       file_content := generateResponsiveScreenContent |} ].

Definition createUtilityFiles : M unit :=
  forEach utilFiles (fun file =>
    root ← gets rootPath;
    let fullPath := path_join root (file_path file) in
    mkdirpSync (dirname fullPath);;
    writeFileSync fullPath (file_content file);;
    console_log ("Created utility file: " +:+ file_path file)).

Definition paths_aliases : list (string * json) :=
  [ ("@assets/*", JArray [JString "assets/*"]);
    ("@features/*", JArray [JString "features/*"]);
    ("@navigation/*", JArray [JString "navigation/*"]);
    ("@components/*", JArray [JString "components/*"]);
    ("@state/*", JArray [JString "state/*"]);
    ("@store/*", JArray [JString "store/*"]);
    ("@service/*", JArray [JString "service/*"]);
    ("@styles/*", JArray [JString "styles/*"]);
    ("@utils/*", JArray [JString "utils/*"]);
    ("@i18n/*", JArray [JString "i18n/*"]);
    ("@theme/*", JArray [JString "theme/*"]);
    ("@types/*", JArray [JString "types/*"]);
    ("@constants/*", JArray [JString "constants/*"]);
    ("@context/*", JArray [JString "context/*"]);
    ("@hooks/*", JArray [JString "hooks/*"]) ].

Definition defaultConfig : json :=
  JObject
    [ ("extends", JString "@react-native/typescript-config/tsconfig.json");
      ("compilerOptions",
        JObject
          [ ("typeRoots", JArray [JString "node_modules/@types"; JString "src/types"]);
            ("types", JArray [JString "jest"]);
            ("baseUrl", JString "./src");
            ("paths", JObject paths_aliases) ]) ].

Definition createTsConfig : M unit :=
  root ← gets rootPath;
  let tsConfigPath := path_join root "tsconfig.json" in
  writeJsonSync tsConfigPath defaultConfig 2;;
  console_log "Created/Updated tsconfig.json".

(** The four prompts of [scaffold], in order. *)
Definition collect_options : M unit :=
  promptBottomNavigation;;
  promptStorageSetup;;
  promptNavigationSetup;;
  promptStateManagement.

(** What [scaffold] does after the prompts, up to the success banner. *)
Definition generate : M unit :=
  createBaseDirectories;;
  ensureNavigationDirectory;;
  (c ← gets config; when (truthy (bottomNavigation c)) setupBottomNavigation);;
  (c ← gets config; when (truthy (storageType c)) setupStorage);;
  (c ← gets config; when (truthy (navigationSetup c)) setupNavigation);;
  (c ← gets config; when (truthy (stateManagement c)) setupStateManagement);;
  createUtilityFiles;;
  createTsConfig;;
  console_log "✅ Project structure created successfully!".

(** The [try] block of [scaffold]. *)
Definition scaffold_body : M unit :=
  collect_options;;
  generate.

Definition scaffold : M unit :=
  console_log "🚀 React Native Maker (Project Scaffolder)";;
  try_catch scaffold_body
    (fun error => console_error "❌ Scaffolding failed:" error).

(** *** The command-line entry point *)

(** The process a run starts in. *)
Record process := mkProcess {
  cwd : path;
  disk : FS;
  stdin : list response }.

(** [new ReactNativeProjectScaffolder(rootPath = process.cwd())]. *)
Definition constructor (rootPath : option path) (p : process) : state :=
  {| rootPath := default (cwd p) rootPath;
     config := initial_config;
     fs := disk p;
     surface := stdin p;
     trace := [] |}.

(** Node's exit status when the event loop drains: 0, unless a rejection
    was left unhandled.  The script never sets [process.exitCode] and
    never calls [process.exit]. *)
Definition exit_status {A} (settled : outcome A) : Z :=
  match settled with
  | Ok _ => 0
  | Throw _ => 1
  end.

(** [const scaffolder = new ReactNativeProjectScaffolder();
     scaffolder.scaffold().catch(console.error);] *)
Definition main (p : process) : Z * state :=
  let run := try_catch scaffold (fun e => console_error "" e) in
  let (settled, s) := run (constructor None p) in
  (exit_status settled, s).

(** ** The scaffolder's work as a script of file-system actions *)

(** After the prompts the methods only create directories, write files and
    log, or stop on an exception.  [plan] lists, for a root and a
    configuration, the actions [generate] issues; [generate_plan] in
    Part II proves that [generate] performs exactly this script. *)
Inductive action :=
| DoMkdirp (p : path)
| DoWrite (p : path) (content : string)
| DoLog (msg : string)
| DoThrow (e : error).

Definition perform (a : action) : M unit :=
  match a with
  | DoMkdirp p => mkdirpSync p
  | DoWrite p content => writeFileSync p content
  | DoLog msg => console_log msg
  | DoThrow e => mthrow e
  end.

Fixpoint perform_all (script : list action) : M unit :=
  match script with
  | [] => mret tt
  | a :: rest => perform a;; perform_all rest
  end.

(** The same on the file system alone: one action, and a script up to its
    first failure, with the events of the actions that were performed. *)
Definition step (a : action) (f : FS) : error + FS :=
  match a with
  | DoMkdirp p =>
      match mkdirp_error f p with
      | Some e => inl e
      | None => inr (mkdirp_fs f p)
      end
  | DoWrite p content =>
      match write_error f p with
      | Some e => inl e
      | None => inr (write_fs f p content)
      end
  | DoLog _ => inr f
  | DoThrow e => inl e
  end.

Definition event_of (a : action) : list event :=
  match a with
  | DoMkdirp p => [MadeDir p]
  | DoWrite p content => [WroteFile p content]
  | DoLog msg => [ConsoleLog msg]
  | DoThrow _ => []
  end.

Definition events_of (script : list action) : list event := flat_map event_of script.

Record result := mkResult {
  failure : option error;
  final_fs : FS;
  events : list event }.

Fixpoint run (script : list action) (f : FS) : result :=
  match script with
  | [] => {| failure := None; final_fs := f; events := [] |}
  | a :: rest =>
      match step a f with
      | inl e => {| failure := Some e; final_fs := f; events := [] |}
      | inr f' =>
          let r := run rest f' in
          {| failure := failure r; final_fs := final_fs r;
             events := event_of a ++ events r |}
      end
  end.

(** What a successful script leaves behind. *)
Definition effect_of (a : action) (f : FS) : FS :=
  match a with
  | DoMkdirp p => mkdirp_fs f p
  | DoWrite p content => write_fs f p content
  | _ => f
  end.

Definition effect (script : list action) (f : FS) : FS :=
  foldl (fun g a => effect_of a g) f script.

Definition file_script (label : string) (root : path) (file : FileSpec) : list action :=
  let fullPath := path_join root (file_path file) in
  [ DoMkdirp (dirname fullPath);
    DoWrite fullPath (file_content file);
    DoLog (label +:+ file_path file) ].

Definition table_script (label : string) (root : path)
    (files : property (list FileSpec)) : list action :=
  match files with
  | Own l => flat_map (file_script label root) l
  | Inherited _ => [ DoThrow (TypeError "files.forEach is not a function") ]
  | Undefined =>
      [ DoThrow (TypeError "Cannot read properties of undefined (reading 'forEach')") ]
  end.

Definition base_script (root : path) : list action :=
  flat_map (fun dir => [ DoMkdirp (path_join root dir);
                         DoLog ("Created directory: " +:+ dir) ]) baseDirectories.

Definition navigation_dir_script (root : path) : list action :=
  [ DoMkdirp (path_join root "src/navigation");
    DoLog "Ensured navigation directory exists: src/navigation" ].

Definition bottom_script (root : path) : list action :=
  flat_map (fun dir => [ DoMkdirp (path_join root dir);
                         DoLog ("Created Bottom Nav directory: " +:+ dir) ])
    bottomNavDirectories
  ++ flat_map (fun file => [ DoWrite (path_join root file) generateBottomTabContent;
                             DoLog ("Created Bottom Nav file: " +:+ file) ])
       bottomNavFiles.

Definition storage_script (root : path) (c : Config) : list action :=
  table_script "Created storage file: " root
    (or_empty (get_property storageFiles (to_property_key (storageType c)))).

Definition navigation_script (root : path) : list action :=
  flat_map (file_script "Created navigation file: " root) navigationFiles.

Definition state_script (root : path) (c : Config) : list action :=
  table_script "Created state management file: " root
    (or_empty (get_property stateManagementFiles (to_property_key (stateManagement c)))).

Definition utility_script (root : path) : list action :=
  flat_map (file_script "Created utility file: " root) utilFiles.

Definition tsconfig_script (root : path) : list action :=
  [ DoWrite (path_join root "tsconfig.json") (stringify defaultConfig 2);
    DoLog "Created/Updated tsconfig.json" ].

Definition gated (c : bool) (script : list action) : list action :=
  if c then script else [].

Definition plan (root : path) (c : Config) : list action :=
  base_script root
  ++ navigation_dir_script root
  ++ gated (truthy (bottomNavigation c)) (bottom_script root)
  ++ gated (truthy (storageType c)) (storage_script root c)
  ++ gated (truthy (navigationSetup c)) (navigation_script root)
  ++ gated (truthy (stateManagement c)) (state_script root c)
  ++ utility_script root
  ++ tsconfig_script root
  ++ [ DoLog "✅ Project structure created successfully!" ].

(** *** Reading a script and a trace *)

Definition dir_targets (script : list action) : list path :=
  flat_map (fun a => match a with DoMkdirp p => prefixes p | _ => [] end) script.

Definition write_targets (script : list action) : list path :=
  flat_map (fun a => match a with DoWrite p _ => [p] | _ => [] end) script.

Definition throws (script : list action) : bool :=
  existsb (fun a => match a with DoThrow _ => true | _ => false end) script.

(** An action moved under a root. *)
Definition relocate (root : path) (a : action) : action :=
  match a with
  | DoMkdirp p => DoMkdirp (root ++ p)
  | DoWrite p content => DoWrite (root ++ p) content
  | _ => a
  end.

Definition is_mutation (ev : event) : bool :=
  match ev with
  | MadeDir _ | WroteFile _ _ => true
  | _ => false
  end.

Definition prompt_names (tr : list event) : list string :=
  flat_map (fun ev => match ev with Prompted name _ => [name] | _ => [] end) tr.

Definition written (tr : list event) : list (path * string) :=
  flat_map (fun ev => match ev with WroteFile p content => [(p, content)] | _ => [] end) tr.

Definition made (tr : list event) : list path :=
  flat_map (fun ev => match ev with MadeDir p => [p] | _ => [] end) tr.

(** Every write in the script comes after a [mkdirp] that made its parent
    directory (or a descendant of it). *)
Fixpoint parents_made (seen : list path) (script : list action) : bool :=
  match script with
  | [] => true
  | DoMkdirp p :: rest => parents_made (p :: seen) rest
  | DoWrite p _ :: rest =>
      existsb (fun q => bool_decide (dirname p `prefix_of` q)) seen
      && parents_made seen rest
  | _ :: rest => parents_made seen rest
  end.

(** The same on a trace: each file written has its parent made before. *)
Definition parent_made_before (tr : list event) : Prop :=
  ∀ (pre post : list event) p content,
    tr = pre ++ WroteFile p content :: post →
    ∃ q, q ∈ made pre ∧ dirname p `prefix_of` q.

(** The disk after the events of a trace have taken place on [f], in
    their order. *)
Definition disk_after (f : FS) (tr : list event) : FS :=
  foldl (fun g ev =>
           match ev with
           | MadeDir p => mkdirp_fs g p
           | WroteFile p content => write_fs g p content
           | _ => g
           end) f tr.

(** The state a script leaves, and the outcome it hands to its caller. *)
Definition settle (r : result) (s : state) : outcome unit * state :=
  (match failure r with
   | None => Ok tt
   | Some e => Throw e
   end,
   {| rootPath := rootPath s; config := config s; fs := final_fs r;
      surface := surface s; trace := trace s ++ events r |}).

(** A method performs a script that depends on the scaffolder's fields. *)
Definition performs (m : M unit) (script : path -> Config -> list action) : Prop :=
  ∀ s, m s = perform_all (script (rootPath s) (config s)) s.

(** An action whose result is in place already. *)
Definition holds (f : FS) (a : action) : Prop :=
  match a with
  | DoMkdirp p => ∀ q, q ∈ prefixes p → f !! q = Some Dir
  | DoWrite p content =>
      f !! p = Some (File content) ∧ (dirname p = [] ∨ f !! dirname p = Some Dir)
  | DoLog _ => True
  | DoThrow _ => False
  end.

(** Two actions agree unless they write different contents to one path. *)
Definition agree (a b : action) : Prop :=
  match a, b with
  | DoWrite p content, DoWrite q content' => p = q → content = content'
  | _, _ => True
  end.

Definition consistent (script : list action) : Prop :=
  ∀ a b, a ∈ script → b ∈ script → agree a b.

(** A script, with paths relative to the root, is sound when no file is
    written twice, no written path is empty or one of the directories the
    script makes, and every write has its parent made before. *)
Definition sound (script : list action) : bool :=
  bool_decide (NoDup (write_targets script))
  && forallb (fun p => bool_decide (p ≠ []) && bool_decide (p ∉ dir_targets script))
       (write_targets script)
  && parents_made [] script.

(** A disk on which the root can be made and nothing exists below it. *)
Definition fresh (root : path) (f : FS) : Prop :=
  (∀ q, q ∈ prefixes root → is_file (f !! q) = false) ∧
  (∀ r, r ≠ [] → f !! (root ++ r) = None).

(** The scripts a table lookup can select: one per own property, the
    empty one (no such property), and the failing one (an inherited
    property). *)
Definition table_variants (label : string) (table : list (string * list FileSpec))
    : list (list action) :=
  map (fun entry => table_script label [] (Own entry.2)) table
  ++ [ table_script label [] (Own []);
       table_script label [] (Inherited "") ].

(** The scripts [plan] can yield for the root [[]] when the storage part
    and the state-management part are among the given ones. *)
Definition plans_with (storage_parts state_parts : list (list action))
    : list (list action) :=
  bottom ← [bottom_script []; []];
  storage ← storage_parts;
  navigation ← [navigation_script []; []];
  state ← state_parts;
  [ base_script [] ++ navigation_dir_script [] ++ bottom ++ storage ++ navigation
    ++ state ++ utility_script [] ++ tsconfig_script []
    ++ [ DoLog "✅ Project structure created successfully!" ] ].

(** Every script [plan] can yield for the root [[]]. *)
Definition all_plans : list (list action) :=
  plans_with (table_variants "Created storage file: " storageFiles)
             (table_variants "Created state management file: " stateManagementFiles).

(** [parents_made] read on a trace. *)
Fixpoint parents_made_trace (seen : list path) (tr : list event) : bool :=
  match tr with
  | [] => true
  | MadeDir p :: rest => parents_made_trace (p :: seen) rest
  | WroteFile p _ :: rest =>
      existsb (fun q => bool_decide (dirname p `prefix_of` q)) seen
      && parents_made_trace seen rest
  | _ :: rest => parents_made_trace seen rest
  end.

(** The names the four prompts destructure, in the order of [scaffold]. *)
Definition question_names : list string :=
  [ qname bottomNav_question; qname storageType_question;
    qname navigationSetup_question; qname stateManagement_question ].

(** The surface read by successive prompts: the prompts answered, and the
    error that ended the sequence, if one did. *)
Fixpoint ask (names : list string) (srf : list response) : list event * option error :=
  match names with
  | [] => ([], None)
  | name :: names' =>
      match srf with
      | [] => ([], Some (PromptError "Prompt couldn't be rendered in the current environment"))
      | Rejects e :: _ => ([], Some e)
      | Answer v :: rest =>
          (Prompted name v :: (ask names' rest).1, (ask names' rest).2)
      end
  end.

(** A surface that settles every prompt a run reaches: each of the
    prompts is answered until one is rejected or all are answered. *)
Fixpoint responsive (names : list string) (srf : list response) : bool :=
  match names with
  | [] => true
  | _ :: names' =>
      match srf with
      | [] => false
      | Rejects _ :: _ => true
      | Answer _ :: rest => responsive names' rest
      end
  end.

(** The two banners of [scaffold] and the error line of its [catch]. *)
Definition start_banner : event := ConsoleLog "🚀 React Native Maker (Project Scaffolder)".
Definition failure_line (e : error) : event := ConsoleError "❌ Scaffolding failed:" e.

(** The configuration four answers leave in [this.config]. *)
Definition answered_config (srf : list response) : Config :=
  match srf with
  | Answer a :: Answer b :: Answer c :: Answer d :: _ =>
      {| bottomNavigation := a; storageType := b;
         navigationSetup := c; stateManagement := d |}
  | _ => initial_config
  end.

(** What a call of [scaffold] does to the file system and adds to the
    trace, read off the surface and the plan; [scaffold_run] in Part II
    proves that [scaffold] does exactly this. *)
Definition scaffold_result (root : path) (f : FS) (srf : list response)
    : FS * list event :=
  let asked := ask question_names srf in
  match asked.2 with
  | Some e => (f, [start_banner] ++ asked.1 ++ [failure_line e])
  | None =>
      let r := run (plan root (answered_config srf)) f in
      (final_fs r,
       [start_banner] ++ asked.1 ++ events r ++
       match failure r with
       | None => []
       | Some e => [failure_line e]
       end)
  end.

(** ** Runs, and the properties stated of them *)

(** The state a run of [scaffold] ends in, for a scaffolder made for
    [root] in a process with disk [f] and surface [srf]. *)
Definition launch (root : path) (f : FS) (srf : list response) : state :=
  (scaffold (constructor (Some root) {| cwd := root; disk := f; stdin := srf |})).2.

Definition is_error_line (ev : event) : bool :=
  match ev with
  | ConsoleError _ _ => true
  | _ => false
  end.

(** A run completed when its trace has no error line. *)
Definition completed (tr : list event) : Prop :=
  forallb (fun ev => negb (is_error_line ev)) tr = true.

(** The answers of an operator who declines everything. *)
Definition all_off : list response :=
  [ Answer (VBool false); Answer (VString "None");
    Answer (VBool false); Answer (VString "None") ].

(** The fixed base directories, with the directories above them. *)
Definition base_tree : list path :=
  flat_map (fun dir => prefixes (segments dir)) baseDirectories.

Definition navigation_dir : path := segments "src/navigation".

Definition utility_paths : list path :=
  map (fun file => segments (file_path file)) utilFiles.

Definition tsconfig_path : path := segments "tsconfig.json".

(** The paths of a table's files. *)
Definition table_paths (table : list (string * list FileSpec)) : list path :=
  flat_map (fun entry => map (fun file => segments (file_path file)) entry.2) table.

Definition storage_paths : list path := table_paths storageFiles.

Definition state_paths : list path := table_paths stateManagementFiles.

(** What the four conditional generators can produce. *)
Definition conditional_outputs : list path :=
  map segments bottomNavDirectories ++ map segments bottomNavFiles
  ++ storage_paths
  ++ map (fun file => segments (file_path file)) navigationFiles
  ++ state_paths.

(** The files of a trace written at one of the given paths under [root]. *)
Definition written_at (root : path) (paths : list path) (tr : list event)
    : list (path * string) :=
  filter (fun w => w.1 ∈ map (app root) paths) (written tr).

(** The type-checker configuration document has [n] path aliases, each
    mapped to a one-element list, and the base URL ["./src"]. *)
Definition paths_claim (n : nat) (doc : json) : Prop :=
  ∃ options aliases,
    member "compilerOptions" doc = Some options ∧
    member "paths" options = Some (JObject aliases) ∧
    NoDup aliases.*1 ∧
    length aliases = n ∧
    Forall (fun alias => ∃ target, alias.2 = JArray [JString target]) aliases ∧
    member "baseUrl" options = Some (JString "./src").

(** Below [root], only the base tree, the two utility files and the
    configuration document exist. *)
Definition only_fixed_outputs (root : path) (f : FS) : Prop :=
  ∀ r, r ≠ [] → is_Some (f !! (root ++ r)) →
    r ∈ base_tree ∨ r ∈ utility_paths ∨ r = tsconfig_path.

(** A generator that finds no entry for the choice leaves the state as it
    is and raises nothing. *)
Definition falls_back (generator : M unit) (s : state) : Prop :=
  generator s = (Ok tt, s).

(** A choice that is in neither table makes [setupStorage] and
    [setupStateManagement] fall back, as long as it is one of the
    [allowed] strings. *)
Definition unknown_choice_falls_back (allowed : string → bool) : Prop :=
  (∀ key s,
     key ∉ storageFiles.*1 → allowed key = true →
     storageType (config s) = VString key → falls_back setupStorage s) ∧
  (∀ key s,
     key ∉ stateManagementFiles.*1 → allowed key = true →
     stateManagement (config s) = VString key → falls_back setupStateManagement s).

(** A surface that answers the four prompts with [a], [b], [c], [d]. *)
Definition answers_with (a b c d : value) (rest : list response) : list response :=
  Answer a :: Answer b :: Answer c :: Answer d :: rest.

(** A written file moved under a root. *)
Definition under (root : path) (w : path * string) : path * string := (root ++ w.1, w.2).

(** ** The generated modules *)

(** The scaffolder writes TypeScript sources; the operations they define
    are embedded here, one module per generated file.  The numbers they
    compute with are whole numbers held in JavaScript's doubles: an index
    [length - 1] is exact, an array being shorter than 2^32; the
    counters' [+ 1] and [- 1] are rounded as doubles are, see
    [round_to_double]. *)

(** *** [src/navigation/NavigationRef.ts] *)

Module NavigationRef.
Local Open Scope Z_scope.

(** [{ name: string; params?: Record<string, any> }]. *)
Record route := mkRoute {
  name : string;
  params : option (list (string * string)) }.

(** The argument of [reset]: [{ index, routes }]. *)
Record NavigationState := mkNavigationState {
  index : Z;
  routes : list route }.

(** React Navigation's rule for a [RESET] action: the navigator refuses
    it when it carries no routes or names a route the navigator does not
    have, and accepts it otherwise. *)
Definition accepted (routeNames : list string) (st : NavigationState) : bool :=
  match routes st with
  | [] => false
  | _ => forallb (fun r => bool_decide (name r ∈ routeNames)) (routes st)
  end.

(** The part of React Navigation's [NavigationContainerRef] that
    [resetNavigationStack] uses, for a container whose root navigator is
    a stack.  [reset] hands the state to the navigator and yields the
    container afterwards with what the library logs meanwhile.  A state
    the navigator accepts, with the index at its last route (where a
    stack keeps it), becomes the navigation state and nothing is logged;
    a state it refuses leaves the navigation state as it was. *)
Class NavigationContainerRef (C : Type) := {
  isReady : C -> bool;
  routeNames : C -> list string;
  getRootState : C -> NavigationState;
  reset : NavigationState -> C -> C * list string;
  reset_accepted : ∀ st c,
    isReady c = true → accepted (routeNames c) st = true →
    index st = Z.of_nat (length (routes st)) - 1 →
    getRootState (reset st c).1 = st ∧ (reset st c).2 = [];
  reset_refused : ∀ st c,
    accepted (routeNames c) st = false →
    getRootState (reset st c).1 = getRootState c;
  reset_keeps_ready : ∀ st c, isReady (reset st c).1 = isReady c;
  reset_keeps_names : ∀ st c, routeNames (reset st c).1 = routeNames c }.

(** The module's runtime: [navigationRef] and the console. *)
Record runtime (C : Type) := mkRuntime {
  navigationRef : C;
  console : list string }.
Arguments mkRuntime {C} navigationRef console.
Arguments navigationRef {C} r.
Arguments console {C} r.

(** What [resetNavigationStack] hands to [reset]:
    [{ index: routes.length - 1, routes }]. *)
Definition reset_argument (routes : list route) : NavigationState :=
  {| index := Z.of_nat (length routes) - 1; routes := routes |}.

Definition resetNavigationStack {C} `{NavigationContainerRef C}
    (routes : list route) (r : runtime C) : runtime C :=
  if isReady (navigationRef r) then
    let after := reset (reset_argument routes) (navigationRef r) in
    {| navigationRef := after.1; console := console r ++ after.2 |}
  else
    {| navigationRef := navigationRef r;
       console := console r ++ ["Navigation is not ready"] |}.

(** A stack container: a readiness flag, the names of the navigator's
    routes and the current state.  Its [reset] follows the rule above and
    puts the index at the last route, as a stack does; what a development
    build logs on a refusal is left out. *)
Record container := mkContainer {
  ready : bool;
  names : list string;
  current : NavigationState }.

Definition container_reset (st : NavigationState) (c : container)
    : container * list string :=
  if accepted (names c) st then
    ({| ready := ready c; names := names c;
        current := {| index := Z.of_nat (length (routes st)) - 1;
                      routes := routes st |} |}, [])
  else (c, []).

#[global] Instance container_ref : NavigationContainerRef container.
Proof.
  refine {| isReady := ready;
            routeNames := names;
            getRootState := current;
            reset := container_reset |}.
  - intros [i rs] c _ Hacc Hindex. unfold container_reset. rewrite Hacc.
    simpl in *. by subst i.
  - intros st c Hacc. unfold container_reset. by rewrite Hacc.
  - intros st c. unfold container_reset. by destruct (accepted _ _).
  - intros st c. unfold container_reset. by destruct (accepted _ _).
Defined.

(** The claim as the specification words it: on a ready container every
    non-empty list of routes replaces the navigation state, with the
    index at its last route. *)
Definition replaces_every_list (C : Type) `{NavigationContainerRef C} : Prop :=
  ∀ (routes : list route) (r : runtime C),
    routes ≠ [] → isReady (navigationRef r) = true →
    getRootState (navigationRef (resetNavigationStack routes r))
    = {| index := Z.of_nat (length routes) - 1; routes := routes |}.

End NavigationRef.

(** *** Numbers *)

(** JavaScript has one number type, the IEEE 754 doubles.  The counters
    hold whole numbers, each represented here by the integer it is.
    [x + y] and [x - y] yield the exact result rounded to the nearest
    double, ties to the even significand: a whole number of magnitude up
    to 2^53 is a double and is not rounded; beyond, the doubles are the
    multiples of a power of two with a significand of 53 bits.  (No step
    of 1 from a double reaches the overflow threshold.) *)
Definition round_to_double (z : Z) : Z :=
  let a := Z.abs z in
  if (a <=? 2 ^ 53)%Z then z
  else
    let e := (Z.log2 a - 52)%Z in
    let q := (a / 2 ^ e)%Z in
    let r := (a mod 2 ^ e)%Z in
    let half := (2 ^ (e - 1))%Z in
    let q' := if (r <? half)%Z then q
              else if (half <? r)%Z then (q + 1)%Z
              else if Z.even q then q else (q + 1)%Z in
    (Z.sgn z * (q' * 2 ^ e))%Z.

Definition js_add (x y : Z) : Z := round_to_double (x + y).
Definition js_sub (x y : Z) : Z := round_to_double (x - y).

(** [Number.MAX_SAFE_INTEGER] and [Number.isSafeInteger] on whole
    numbers. *)
Definition MAX_SAFE_INTEGER : Z := (2 ^ 53 - 1)%Z.

Definition safe_integer (z : Z) : Prop :=
  (- MAX_SAFE_INTEGER ≤ z ≤ MAX_SAFE_INTEGER)%Z.

(** *** The counter examples *)

(** What the three state-management examples have in common: a state
    holding a whole number [value], and [increment] and [decrement]. *)
Class Counter (S : Type) := {
  initial : S;
  value_of : S -> Z;
  increment : S -> S;
  decrement : S -> S }.

Inductive operation := Increment | Decrement.

Definition apply_operation {S} `{Counter S} (s : S) (op : operation) : S :=
  match op with
  | Increment => increment s
  | Decrement => decrement s
  end.

(** The state after a sequence of operations on [s]. *)
Definition replay {S} `{Counter S} (s : S) (ops : list operation) : S :=
  foldl apply_operation s ops.

Definition delta (op : operation) : Z :=
  match op with
  | Increment => 1
  | Decrement => -1
  end.

(** [src/store/slices/exampleSlice.ts] (Redux Toolkit). *)
Module ExampleSlice.
Local Open Scope Z_scope.

Record State := mkState { value : Z }.

Definition initialState : State := {| value := 0 |}.

(** The case reducers, which update the draft state in place:
    [state.value += 1] and [state.value -= 1]. *)
Definition reducers_increment (state : State) : State :=
  {| value := js_add (value state) 1 |}.
Definition reducers_decrement (state : State) : State :=
  {| value := js_sub (value state) 1 |}.

(** Actions: the two creators of [exampleSlice.actions], or any other
    action type. *)
Inductive Action :=
| increment
| decrement
| other (type : string).

(** [exampleSlice.reducer]: the state defaults to [initialState]; an action
    of another slice leaves it as it is. *)
Definition reducer (state : option State) (a : Action) : State :=
  let state := default initialState state in
  match a with
  | increment => reducers_increment state
  | decrement => reducers_decrement state
  | other _ => state
  end.

End ExampleSlice.

#[global] Instance ExampleSlice_counter : Counter ExampleSlice.State :=
  {| initial := ExampleSlice.reducer None (ExampleSlice.other "@@INIT");
     value_of := ExampleSlice.value;
     increment := fun s => ExampleSlice.reducer (Some s) ExampleSlice.increment;
     decrement := fun s => ExampleSlice.reducer (Some s) ExampleSlice.decrement |}.

(** [src/store/zustand/exampleStore.ts] (Zustand). *)
Module ExampleStore.
Local Open Scope Z_scope.

(** [ExampleState]: the data field; [increment] and [decrement] are the
    store's two fixed function fields. *)
Record ExampleState := mkExampleState { value : Z }.

(** [Partial<ExampleState>]: what an updater hands to [set]. *)
Record Partial := mkPartial { partial_value : option Z }.

(** [set(fn)]: merges [fn(state)] into the state. *)
Definition set (fn : ExampleState -> Partial) (state : ExampleState) : ExampleState :=
  {| value := default (value state) (partial_value (fn state)) |}.

Definition initial : ExampleState := {| value := 0 |}.

Definition increment : ExampleState -> ExampleState :=
  set (fun state => {| partial_value := Some (js_add (value state) 1) |}).

Definition decrement : ExampleState -> ExampleState :=
  set (fun state => {| partial_value := Some (js_sub (value state) 1) |}).

End ExampleStore.

#[global] Instance ExampleStore_counter : Counter ExampleStore.ExampleState :=
  {| initial := ExampleStore.initial;
     value_of := ExampleStore.value;
     increment := ExampleStore.increment;
     decrement := ExampleStore.decrement |}.

(** [src/context/providers/ExampleProvider.tsx] (Context API). *)
Module ExampleProvider.
Local Open Scope Z_scope.

(** [const [value, setValue] = useState(0)]: the state is the number;
    [setValue(updater)] replaces it by [updater(prev)]. *)
Definition useState_initial : Z := 0.

Definition setValue (updater : Z -> Z) (prev : Z) : Z := updater prev.

Definition increment : Z -> Z := setValue (fun prev => js_add prev 1).

Definition decrement : Z -> Z := setValue (fun prev => js_sub prev 1).

End ExampleProvider.

#[global] Instance ExampleProvider_counter : Counter Z :=
  {| initial := ExampleProvider.useState_initial;
     value_of := fun v => v;
     increment := ExampleProvider.increment;
     decrement := ExampleProvider.decrement |}.

(** The contract of a counter as the specification words it: it starts
    at 0, [increment] adds exactly 1 and [decrement] subtracts exactly 1,
    whatever the value is. *)
Definition counter_contract (S : Type) `{Counter S} : Prop :=
  value_of initial = 0%Z ∧
  (∀ s : S, value_of (increment s) = (value_of s + 1)%Z) ∧
  (∀ s : S, value_of (decrement s) = (value_of s - 1)%Z).

(** The same contract for the values in a range. *)
Definition counter_contract_on (range : Z → Prop) (S : Type) `{Counter S} : Prop :=
  value_of initial = 0%Z ∧
  (∀ s : S, range (value_of s) → value_of (increment s) = (value_of s + 1)%Z) ∧
  (∀ s : S, range (value_of s) → value_of (decrement s) = (value_of s - 1)%Z).

(** ** Further properties of runs *)

Definition success_banner : event :=
  ConsoleLog "✅ Project structure created successfully!".

(** A well-formed disk: whatever exists lies in a directory that exists
    (the file-system root needs no entry). *)
Definition well_formed (f : FS) : Prop :=
  ∀ p, is_Some (f !! p) →
    p ≠ [] ∧ (dirname p = [] ∨ f !! dirname p = Some Dir).

(** The paths a trace reports as made or written: the directories made,
    with those above them, and the files written. *)
Definition touched (tr : list event) : list path :=
  flat_map prefixes (made tr) ++ (written tr).*1.

(** The script a run performs: its plan once the four prompts are
    answered, nothing when the collector fails. *)
Definition performed_script (root : path) (srf : list response) : list action :=
  match (ask question_names srf).2 with
  | None => plan root (answered_config srf)
  | Some _ => []
  end.

(** The configurations the four prompts can produce. *)
Definition selectable_configs : list Config :=
  a ← [VBool true; VBool false];
  b ← map VString (qchoices storageType_question);
  c ← [VBool true; VBool false];
  d ← map VString (qchoices stateManagement_question);
  [ {| bottomNavigation := a; storageType := b;
       navigationSetup := c; stateManagement := d |} ].

(** The files of a list and the directories above them. *)
Definition files_tree (files : list FileSpec) : list path :=
  flat_map (fun file => prefixes (segments (file_path file))) files.

(** What the conditional generators leave for a configuration: for each
    generator that is chosen, its files and directories and the
    directories above them. *)
Definition chosen_outputs (c : Config) : list path :=
  (if truthy (bottomNavigation c)
   then flat_map (fun p => prefixes (segments p)) (bottomNavDirectories ++ bottomNavFiles)
   else [])
  ++ (if truthy (storageType c)
      then files_tree (default [] (own_property storageFiles
                                     (to_property_key (storageType c))))
      else [])
  ++ (if truthy (navigationSetup c) then files_tree navigationFiles else [])
  ++ (if truthy (stateManagement c)
      then files_tree (default [] (own_property stateManagementFiles
                                     (to_property_key (stateManagement c))))
      else []).

(** Every file any plan can write, with its content. *)
Definition all_writes : list (path * string) :=
  remove_dups (flat_map (fun script => written (events_of script)) all_plans).

(** The number of increments less the number of decrements in a sequence
    of operations. *)
Definition is_increment (op : operation) : bool :=
  match op with
  | Increment => true
  | Decrement => false
  end.

Definition net (ops : list operation) : Z :=
  (Z.of_nat (length (List.filter is_increment ops))
   - Z.of_nat (length (List.filter (fun op => negb (is_increment op)) ops)))%Z.

(** ** Proof automation *)

(** Closes a case of a run of prompts once the surface is known. *)
Ltac finish_collect :=
  eexists; repeat split; simpl; rewrite ?app_nil_r, <- ?app_assoc; done.

(* ===================================================================== *)
(** * Part II. Theorems                                                    *)
(* ===================================================================== *)

(** ** Paths *)

Lemma elem_of_prefixes (p q : path) :
  q ∈ prefixes p ↔ q ≠ [] ∧ q `prefix_of` p.
Proof.
  revert q. induction p as [|x p IH]; intros q; simpl.
  - split.
    + intros H. inversion H.
    + intros [Hne [k Hk]]. destruct q; [done | discriminate].
  - rewrite elem_of_cons, list_elem_of_fmap. split.
    + intros [-> | (r & -> & Hr)].
      * split; [done | by exists p].
      * apply IH in Hr as [_ [k ->]]. split; [done | by exists k].
    + intros [Hne [k Hk]]. destruct q as [|y q]; [done|].
      simplify_eq/=. destruct q as [|z q]; [by left | right].
      exists (z :: q). split; [done|]. apply IH. split; [done | by exists k].
Qed.

Lemma prefixes_self (p : path) : p ≠ [] → p ∈ prefixes p.
Proof. intros. by apply elem_of_prefixes. Qed.

Lemma elem_of_prefixes_app (root r q : path) :
  q ∈ prefixes (root ++ r) ↔
  q ∈ prefixes root ∨ ∃ r', r' ∈ prefixes r ∧ q = root ++ r'.
Proof.
  rewrite elem_of_prefixes. split.
  - intros [Hne [k Hk]]. symmetry in Hk.
    apply app_eq_inv in Hk as [(k' & -> & ->) | (k' & -> & ->)].
    + destruct k' as [|x k'].
      * left. rewrite app_nil_r in *. by apply prefixes_self.
      * right. exists (x :: k'). split; [|done].
        apply elem_of_prefixes. split; [done | by exists k].
    + left. apply elem_of_prefixes. split; [done | by exists k'].
  - intros [Hq | (r' & Hr' & ->)].
    + apply elem_of_prefixes in Hq as [Hne Hpre].
      split; [done | by apply prefix_app_r].
    + apply elem_of_prefixes in Hr' as [Hne Hpre]. split.
      * destruct root, r'; done.
      * by apply prefix_app.
Qed.

Lemma dirname_snoc (p : path) (x : string) : dirname (p ++ [x]) = p.
Proof.
  induction p as [|y p IH]; [done|]. simpl.
  rewrite IH. by destruct p.
Qed.

Lemma dirname_app (root r : path) : r ≠ [] → dirname (root ++ r) = root ++ dirname r.
Proof.
  intros Hr. induction root as [|y root IH]; [done|]. simpl.
  rewrite IH. destruct root, r; done.
Qed.

Lemma dirname_prefix (p : path) : dirname p `prefix_of` p.
Proof.
  induction p as [|x p IH]; [done|]. simpl.
  destruct p as [|y p]; [by exists [x]|]. by apply prefix_cons.
Qed.

Lemma dirname_shorter (p : path) : p ≠ [] → dirname p ≠ p.
Proof.
  intros Hp Heq. apply (f_equal length) in Heq.
  induction p as [|x p IH]; [done|]. simpl in Heq.
  destruct p as [|y p]; [done|]. simpl in *. apply IH; [done | lia].
Qed.

(** ** The file-system operations *)

Lemma lookup_mkdirp_fs (f : FS) (p q : path) :
  mkdirp_fs f p !! q = if decide (q ∈ prefixes p) then Some Dir else f !! q.
Proof.
  unfold mkdirp_fs. induction (prefixes p) as [|x l IH]; cbn [foldr].
  - rewrite decide_False; [done | apply not_elem_of_nil].
  - rewrite lookup_insert. destruct (decide (x = q)) as [-> | Hx].
    + rewrite decide_True; [done | by left].
    + rewrite IH. destruct (decide (q ∈ l)) as [Hin | Hin].
      * rewrite decide_True; [done | by right].
      * rewrite decide_False; [done|].
        intros [? | ?]%elem_of_cons; congruence.
Qed.

Lemma mkdirp_error_None (f : FS) (p : path) :
  mkdirp_error f p = None ↔ ∀ q, q ∈ prefixes p → is_file (f !! q) = false.
Proof.
  unfold mkdirp_error. split.
  - intros H q Hq. destruct (is_file (f !! q)) eqn:E; [|done].
    assert (q ∈ filter (fun q => is_file (f !! q) = true) (prefixes p)) as Hin.
    { apply list_elem_of_filter. done. }
    destruct (filter _ _); [inversion Hin | discriminate].
  - intros H. destruct (filter _ _) as [|q l] eqn:E; [done|].
    assert (q ∈ filter (fun q => is_file (f !! q) = true) (prefixes p)) as Hin.
    { rewrite E. by left. }
    apply list_elem_of_filter in Hin as [Hq Hin]. rewrite H in Hq; done.
Qed.

Lemma mkdirp_fs_id (f : FS) (p : path) :
  (∀ q, q ∈ prefixes p → f !! q = Some Dir) → mkdirp_fs f p = f.
Proof.
  intros H. apply map_eq. intros q. rewrite lookup_mkdirp_fs.
  case_decide; [by rewrite H | done].
Qed.

Lemma lookup_write_fs (f : FS) (p q : path) (content : string) :
  write_fs f p content !! q = if decide (p = q) then Some (File content) else f !! q.
Proof. unfold write_fs. apply lookup_insert. Qed.

Lemma write_error_None (f : FS) (p : path) :
  write_error f p = None ↔
  f !! p ≠ Some Dir ∧ (dirname p = [] ∨ f !! dirname p = Some Dir).
Proof.
  unfold write_error. split.
  - intros H. destruct (f !! p) as [[|c]|] eqn:Ep; [done| |].
    all: split; [done|].
    all: destruct (dirname p) as [|x d] eqn:Ed; [by left|right].
    all: destruct (f !! (x :: d)) as [[|c']|]; done.
  - intros [Hp [Hd | Hd]].
    + rewrite Hd. destruct (f !! p) as [[|c]|]; done.
    + destruct (f !! p) as [[|c]|]; [done| |].
      all: destruct (dirname p) as [|x d]; [done | by rewrite Hd].
Qed.

(** ** Scripts: the monadic and the pure reading agree *)

Lemma state_eta (s : state) :
  {| rootPath := rootPath s; config := config s; fs := fs s;
     surface := surface s; trace := trace s |} = s.
Proof. by destruct s. Qed.

Lemma perform_step (a : action) (s : state) :
  perform a s =
  match step a (fs s) with
  | inl e => (Throw e, s)
  | inr f' =>
      (Ok tt, {| rootPath := rootPath s; config := config s; fs := f';
                 surface := surface s; trace := trace s ++ event_of a |})
  end.
Proof.
  destruct a as [p | p c | msg | e]; simpl.
  - unfold mkdirpSync. by destruct (mkdirp_error (fs s) p).
  - unfold writeFileSync. by destruct (write_error (fs s) p).
  - by destruct s.
  - done.
Qed.

Lemma perform_all_run (script : list action) (s : state) :
  perform_all script s = settle (run script (fs s)) s.
Proof.
  revert s. induction script as [|a rest IH]; intros s.
  - unfold settle. simpl. rewrite app_nil_r. by rewrite state_eta.
  - cbn [perform_all run]. unfold mbind, M_bind. rewrite perform_step.
    destruct (step a (fs s)) as [e | f'].
    + unfold settle. simpl. rewrite app_nil_r. by rewrite state_eta.
    + rewrite IH. unfold settle. simpl. by rewrite app_assoc.
Qed.

Lemma run_app (a b : list action) (f : FS) :
  run (a ++ b) f =
  match failure (run a f) with
  | Some e => run a f
  | None =>
      {| failure := failure (run b (final_fs (run a f)));
         final_fs := final_fs (run b (final_fs (run a f)));
         events := events (run a f) ++ events (run b (final_fs (run a f))) |}
  end.
Proof.
  revert f. induction a as [|x a IH]; intros f.
  - simpl. by destruct (run b f).
  - cbn [app run]. destruct (step x f) as [e | f']; [done|].
    rewrite IH. destruct (failure (run a f')) eqn:E; simpl.
    + by rewrite E.
    + by rewrite app_assoc.
Qed.

Lemma perform_all_app (a b : list action) (s : state) :
  perform_all (a ++ b) s = (perform_all a;; perform_all b) s.
Proof.
  unfold mbind, M_bind. rewrite !perform_all_run, run_app. unfold settle.
  destruct (failure (run a (fs s))) eqn:E.
  - by rewrite E.
  - rewrite perform_all_run. unfold settle. simpl. by rewrite app_assoc.
Qed.

Lemma performs_seq (m1 m2 : M unit) sc1 sc2 :
  performs m1 sc1 → performs m2 sc2 →
  performs (m1;; m2) (fun root c => sc1 root c ++ sc2 root c).
Proof.
  intros H1 H2 s. rewrite perform_all_app.
  unfold mbind, M_bind. rewrite H1, perform_all_run. unfold settle.
  destruct (failure _); [done|]. by rewrite H2.
Qed.

Lemma performs_forEach {A} (l : list A) (body : A → M unit) sc :
  (∀ x, performs (body x) (fun root _ => sc root x)) →
  performs (forEach l body) (fun root _ => flat_map (sc root) l).
Proof.
  intros Hbody. induction l as [|x l IH].
  - done.
  - cbn [forEach flat_map].
    apply (performs_seq _ _ (fun root _ => sc root x)
             (fun root _ => flat_map (sc root) l)); [apply Hbody | apply IH].
Qed.

Lemma performs_gated (m : M unit) (cond : Config → bool) sc :
  performs m sc →
  performs (c ← gets config; when (cond c) m)
           (fun root c => gated (cond c) (sc root c)).
Proof.
  intros H s. unfold mbind, M_bind, gets, when, gated.
  destruct (cond (config s)); [apply H | done].
Qed.

Lemma performs_file (label : string) (file : FileSpec) :
  performs
    (root ← gets rootPath;
     let fullPath := path_join root (file_path file) in
     mkdirpSync (dirname fullPath);;
     writeFileSync fullPath (file_content file);;
     console_log (label +:+ file_path file))
    (fun root _ => file_script label root file).
Proof.
  intros s. unfold file_script. cbn [perform_all perform].
  unfold mbind, M_bind, gets.
  destruct (mkdirpSync _ s) as [[[]|e] s1]; [|done].
  destruct (writeFileSync _ _ s1) as [[[]|e] s2]; [|done].
  unfold console_log, modify, mret, M_ret. done.
Qed.

Lemma performs_table (label : string) (files : property (list FileSpec)) :
  performs
    (forEach_property files (fun file =>
       root ← gets rootPath;
       let fullPath := path_join root (file_path file) in
       mkdirpSync (dirname fullPath);;
       writeFileSync fullPath (file_content file);;
       console_log (label +:+ file_path file)))
    (fun root _ => table_script label root files).
Proof.
  destruct files as [l | name |]; cbn [forEach_property table_script].
  - apply (performs_forEach l _ (file_script label)). intros x. apply performs_file.
  - done.
  - done.
Qed.

Lemma performs_createBaseDirectories :
  performs createBaseDirectories (fun root _ => base_script root).
Proof.
  unfold createBaseDirectories, base_script.
  apply (performs_forEach baseDirectories _
           (fun root dir => [DoMkdirp (path_join root dir);
                             DoLog ("Created directory: " +:+ dir)])).
  intros dir s. cbn [perform_all perform]. unfold mbind, M_bind, gets.
  destruct (mkdirpSync _ s) as [[[]|e] s1]; [|done].
  unfold console_log, modify, mret, M_ret. done.
Qed.

Lemma performs_ensureNavigationDirectory :
  performs ensureNavigationDirectory (fun root _ => navigation_dir_script root).
Proof.
  intros s. unfold ensureNavigationDirectory, navigation_dir_script.
  cbn [perform_all perform]. unfold mbind, M_bind, gets.
  destruct (mkdirpSync _ s) as [[[]|e] s1]; [|done].
  unfold console_log, modify, mret, M_ret. done.
Qed.

Lemma performs_setupBottomNavigation :
  performs setupBottomNavigation (fun root _ => bottom_script root).
Proof.
  unfold setupBottomNavigation, bottom_script.
  apply (performs_seq _ _
           (fun root _ => flat_map (fun dir => [DoMkdirp (path_join root dir);
                             DoLog ("Created Bottom Nav directory: " +:+ dir)])
                            bottomNavDirectories)
           (fun root _ => flat_map (fun file =>
                            [DoWrite (path_join root file) generateBottomTabContent;
                             DoLog ("Created Bottom Nav file: " +:+ file)])
                            bottomNavFiles)).
  - apply (performs_forEach bottomNavDirectories _
             (fun root dir => [DoMkdirp (path_join root dir);
                               DoLog ("Created Bottom Nav directory: " +:+ dir)])).
    intros dir s. cbn [perform_all perform]. unfold mbind, M_bind, gets.
    destruct (mkdirpSync _ s) as [[[]|e] s1]; [|done].
    unfold console_log, modify, mret, M_ret. done.
  - apply (performs_forEach bottomNavFiles _
             (fun root file => [DoWrite (path_join root file) generateBottomTabContent;
                                DoLog ("Created Bottom Nav file: " +:+ file)])).
    intros file s. cbn [perform_all perform]. unfold mbind, M_bind, gets.
    destruct (writeFileSync _ _ s) as [[[]|e] s1]; [|done].
    unfold console_log, modify, mret, M_ret. done.
Qed.

Lemma performs_setupStorage :
  performs setupStorage storage_script.
Proof.
  intros s. unfold setupStorage, storage_script.
  unfold mbind at 1, M_bind at 1, gets at 1.
  apply (performs_table "Created storage file: ").
Qed.

Lemma performs_setupNavigation :
  performs setupNavigation (fun root _ => navigation_script root).
Proof.
  unfold setupNavigation, navigation_script.
  apply (performs_forEach navigationFiles _ (file_script "Created navigation file: ")).
  intros x. apply performs_file.
Qed.

Lemma performs_setupStateManagement :
  performs setupStateManagement state_script.
Proof.
  intros s. unfold setupStateManagement, state_script.
  unfold mbind at 1, M_bind at 1, gets at 1.
  apply (performs_table "Created state management file: ").
Qed.

Lemma performs_createUtilityFiles :
  performs createUtilityFiles (fun root _ => utility_script root).
Proof.
  unfold createUtilityFiles, utility_script.
  apply (performs_forEach utilFiles _ (file_script "Created utility file: ")).
  intros x. apply performs_file.
Qed.

Lemma performs_createTsConfig :
  performs createTsConfig (fun root _ => tsconfig_script root).
Proof.
  intros s. unfold createTsConfig, tsconfig_script, writeJsonSync.
  cbn [perform_all perform]. unfold mbind, M_bind, gets.
  destruct (writeFileSync _ _ s) as [[[]|e] s1]; [|done].
  unfold console_log, modify, mret, M_ret. done.
Qed.

(** [generate] performs the script [plan] lists. *)
Lemma generate_plan : performs generate plan.
Proof.
  unfold generate, plan.
  apply (performs_seq _ _ (fun root _ => base_script root));
    [apply performs_createBaseDirectories|].
  apply (performs_seq _ _ (fun root _ => navigation_dir_script root));
    [apply performs_ensureNavigationDirectory|].
  apply (performs_seq _ _
           (fun root c => gated (truthy (bottomNavigation c)) (bottom_script root))).
  { apply (performs_gated _ (fun c => truthy (bottomNavigation c))
             (fun root _ => bottom_script root)).
    apply performs_setupBottomNavigation. }
  apply (performs_seq _ _
           (fun root c => gated (truthy (storageType c)) (storage_script root c))).
  { apply (performs_gated _ (fun c => truthy (storageType c)) storage_script).
    apply performs_setupStorage. }
  apply (performs_seq _ _
           (fun root c => gated (truthy (navigationSetup c)) (navigation_script root))).
  { apply (performs_gated _ (fun c => truthy (navigationSetup c))
             (fun root _ => navigation_script root)).
    apply performs_setupNavigation. }
  apply (performs_seq _ _
           (fun root c => gated (truthy (stateManagement c)) (state_script root c))).
  { apply (performs_gated _ (fun c => truthy (stateManagement c)) state_script).
    apply performs_setupStateManagement. }
  apply (performs_seq _ _ (fun root _ => utility_script root));
    [apply performs_createUtilityFiles|].
  apply (performs_seq _ _ (fun root _ => tsconfig_script root)
           (fun _ _ => [DoLog "✅ Project structure created successfully!"]));
    [apply performs_createTsConfig|].
  intros s. cbn [perform_all perform]. unfold mbind, M_bind.
  by destruct (console_log _ s) as [[[]|e] s1].
Qed.

(** ** Running a script *)

Lemma holds_step (f : FS) (a : action) : holds f a → step a f = inr f.
Proof.
  destruct a as [p | p c | msg | e]; simpl; [| |done|done].
  - intros H. assert (mkdirp_error f p = None) as ->.
    { apply mkdirp_error_None. intros q Hq. by rewrite (H q Hq). }
    by rewrite mkdirp_fs_id.
  - intros [Hp Hd]. assert (write_error f p = None) as ->.
    { apply write_error_None. split; [by rewrite Hp | done]. }
    unfold write_fs. by rewrite insert_id.
Qed.

Lemma step_holds (f f' : FS) (a : action) : step a f = inr f' → holds f' a.
Proof.
  destruct a as [p | p c | msg | e]; simpl; [| |done|done].
  - destruct (mkdirp_error f p); [done|]. intros [= <-] q Hq.
    rewrite lookup_mkdirp_fs. by rewrite decide_True.
  - destruct (write_error f p) eqn:E; [done|]. intros [= <-].
    apply write_error_None in E as [Hp Hd].
    rewrite !lookup_write_fs. rewrite decide_True by done. split; [done|].
    destruct Hd as [Hd | Hd]; [by left | right].
    rewrite decide_False; [done|].
    intros Heq. rewrite <- Heq in Hd. congruence.
Qed.

(** A successful step changes no directory, and no file except the one
    it writes. *)
Lemma step_keeps_dir (f f' : FS) (b : action) (q : path) :
  step b f = inr f' → f !! q = Some Dir → f' !! q = Some Dir.
Proof.
  destruct b as [p | p c | msg | e]; simpl; [| | congruence | done].
  - destruct (mkdirp_error f p); [done|]. intros [= <-] Hq.
    rewrite lookup_mkdirp_fs. by case_decide.
  - destruct (write_error f p) eqn:E; [done|]. intros [= <-] Hq.
    apply write_error_None in E as [Hp _].
    rewrite lookup_write_fs. case_decide; [congruence | done].
Qed.

Lemma step_keeps_file (f f' : FS) (b : action) (q : path) (content : string) :
  step b f = inr f' → agree (DoWrite q content) b →
  f !! q = Some (File content) → f' !! q = Some (File content).
Proof.
  destruct b as [p | p c | msg | e]; simpl; [| | congruence | done].
  - destruct (mkdirp_error f p) eqn:E; [done|]. intros [= <-] _ Hq.
    rewrite lookup_mkdirp_fs. case_decide as Hin; [|done].
    exfalso. eapply mkdirp_error_None in E; [|exact Hin].
    by rewrite Hq in E.
  - destruct (write_error f p); [done|]. intros [= <-] Hag Hq.
    rewrite lookup_write_fs. case_decide as Heq; [|done].
    by rewrite (Hag (eq_sym Heq)).
Qed.

Lemma step_keeps (f f' : FS) (a b : action) :
  holds f a → step b f = inr f' → agree a b → holds f' a.
Proof.
  intros Ha Hb Hag. destruct a as [p | p c | msg | e]; simpl in *; [| |done|done].
  - intros q Hq. eapply step_keeps_dir; eauto.
  - destruct Ha as [Hp Hd]. split.
    + eapply step_keeps_file; eauto.
    + destruct Hd as [Hd | Hd]; [by left | right]. eapply step_keeps_dir; eauto.
Qed.

Lemma run_keeps (script : list action) (f : FS) (a : action) :
  holds f a → Forall (agree a) script → holds (final_fs (run script f)) a.
Proof.
  revert f. induction script as [|b rest IH]; intros f Ha Hag; [done|].
  apply Forall_cons in Hag as [Hb Hrest]. cbn [run].
  destruct (step b f) as [e | f'] eqn:E; [done|]. simpl.
  apply IH; [|done]. eapply step_keeps; eauto.
Qed.

(** Where a run stands when it stops: the actions performed are all in
    place, and the action it stopped on, if any, fails there. *)
Lemma run_decompose (script : list action) (f : FS) :
  consistent script →
  ∃ performed rest,
    script = performed ++ rest ∧
    events (run script f) = events_of performed ∧
    Forall (holds (final_fs (run script f))) performed ∧
    match failure (run script f) with
    | None => rest = []
    | Some e => ∃ a rest', rest = a :: rest' ∧ step a (final_fs (run script f)) = inl e
    end.
Proof.
  revert f. induction script as [|a script IH]; intros f Hcons.
  - exists [], []. by repeat split.
  - cbn [run]. destruct (step a f) as [e | f'] eqn:E.
    + exists [], (a :: script). simpl. repeat split; [done|]. by exists a, script.
    + destruct (IH f') as (performed & rest & -> & Hev & Hall & Hfail).
      { intros x y Hx Hy. apply Hcons; by right. }
      exists (a :: performed), rest. simpl. repeat split.
      * by rewrite Hev.
      * apply Forall_cons. split; [|done].
        apply run_keeps; [by eapply step_holds|].
        apply Forall_forall. intros b Hb. apply Hcons; [by left | by right].
      * done.
Qed.

Lemma run_skip (performed rest : list action) (f : FS) :
  Forall (holds f) performed →
  run (performed ++ rest) f =
  {| failure := failure (run rest f); final_fs := final_fs (run rest f);
     events := events_of performed ++ events (run rest f) |}.
Proof.
  induction performed as [|a performed IH]; intros Hall.
  - simpl. by destruct (run rest f).
  - apply Forall_cons in Hall as [Ha Hall]. cbn [app run].
    rewrite (holds_step _ _ Ha), (IH Hall). simpl.
    unfold events_of. simpl. by rewrite app_assoc.
Qed.

(** Running a consistent script again, on what its first run left, does
    the same and changes nothing. *)
Lemma run_idempotent (script : list action) (f : FS) :
  consistent script →
  run script (final_fs (run script f)) = run script f.
Proof.
  intros Hcons.
  destruct (run_decompose script f Hcons) as (performed & rest & Hs & Hev & Hall & Hfail).
  set (r := run script f) in *.
  rewrite Hs at 1. rewrite (run_skip _ _ _ Hall), <- Hev.
  destruct (failure r) as [e|] eqn:Ef.
  - destruct Hfail as (a & rest' & -> & Hstep). cbn [run]. rewrite Hstep. simpl.
    rewrite app_nil_r. destruct r; simpl in *; by subst.
  - subst rest. simpl. rewrite app_nil_r. destruct r; simpl in *; by subst.
Qed.

Lemma run_events_prefix (script : list action) (f : FS) :
  ∃ performed rest, script = performed ++ rest ∧ events (run script f) = events_of performed.
Proof.
  revert f. induction script as [|a script IH]; intros f.
  - by exists [], [].
  - cbn [run]. destruct (step a f) as [e | f'].
    + by exists [], (a :: script).
    + destruct (IH f') as (performed & rest & -> & Hev).
      exists (a :: performed), rest. split; [done|]. simpl. by rewrite Hev.
Qed.

Lemma run_success_events (script : list action) (f : FS) :
  failure (run script f) = None → events (run script f) = events_of script.
Proof.
  revert f. induction script as [|a script IH]; intros f; [done|].
  cbn [run]. destruct (step a f) as [e | f']; [done|]. simpl.
  intros H. by rewrite (IH _ H).
Qed.

Lemma run_success_effect (script : list action) (f : FS) :
  failure (run script f) = None → final_fs (run script f) = effect script f.
Proof.
  revert f. induction script as [|a script IH]; intros f; [done|].
  cbn [run]. destruct (step a f) as [e | f'] eqn:E; [done|]. simpl.
  intros H. rewrite (IH _ H). unfold effect. simpl. f_equal.
  destruct a as [p | p c | msg | e]; simpl in *.
  - destruct (mkdirp_error f p); congruence.
  - destruct (write_error f p); congruence.
  - congruence.
  - done.
Qed.

(** ** Scripts under a root *)

Lemma existsb_elem_of {A} (g : A → bool) (l : list A) :
  existsb g l = true ↔ ∃ x, x ∈ l ∧ g x = true.
Proof.
  rewrite existsb_exists. split; intros (x & Hx & Hg); exists x.
  - by rewrite list_elem_of_In.
  - by rewrite <- list_elem_of_In.
Qed.

Lemma forallb_elem_of {A} (g : A → bool) (l : list A) :
  forallb g l = true ↔ ∀ x, x ∈ l → g x = true.
Proof.
  rewrite forallb_forall. split; intros H x Hx; apply H.
  - by rewrite <- list_elem_of_In.
  - by rewrite list_elem_of_In.
Qed.

Lemma elem_of_flat_map {A B} (g : A → list B) (l : list A) (y : B) :
  y ∈ flat_map g l ↔ ∃ x, x ∈ l ∧ y ∈ g x.
Proof.
  rewrite list_elem_of_In, in_flat_map. split; intros (x & Hx & Hy); exists x.
  - by rewrite !list_elem_of_In.
  - by rewrite <- !list_elem_of_In.
Qed.

Lemma elem_of_write_targets (script : list action) (p : path) :
  p ∈ write_targets script ↔ ∃ content, DoWrite p content ∈ script.
Proof.
  unfold write_targets. rewrite elem_of_flat_map. split.
  - intros (a & Ha & Hp). destruct a; try by inversion Hp.
    apply list_elem_of_singleton in Hp as ->. eauto.
  - intros (c & Hc). exists (DoWrite p c). split; [done | by left].
Qed.

Lemma elem_of_dir_targets (script : list action) (q : path) :
  q ∈ dir_targets script ↔ ∃ p, DoMkdirp p ∈ script ∧ q ∈ prefixes p.
Proof.
  unfold dir_targets. rewrite elem_of_flat_map. split.
  - intros (a & Ha & Hq). destruct a; try by inversion Hq. eauto.
  - intros (p & Hp & Hq). by exists (DoMkdirp p).
Qed.

Lemma write_targets_relocate (root : path) (script : list action) :
  write_targets (map (relocate root) script) = map (app root) (write_targets script).
Proof.
  induction script as [|a script IH]; [done|].
  unfold write_targets in *. cbn [map flat_map]. rewrite IH, map_app.
  by destruct a.
Qed.

Lemma elem_of_dir_targets_relocate (root : path) (script : list action) (q : path) :
  q ∈ dir_targets (map (relocate root) script) →
  q ∈ prefixes root ∨ ∃ r, r ∈ dir_targets script ∧ q = root ++ r.
Proof.
  rewrite elem_of_dir_targets. intros (p & Hp & Hq).
  apply list_elem_of_fmap in Hp as (a & Ha & Hin).
  destruct a as [p' | | |]; simpl in Ha; try discriminate. injection Ha as ->.
  apply elem_of_prefixes_app in Hq as [Hq | (r & Hr & ->)]; [by left | right].
  exists r. split; [|done]. apply elem_of_dir_targets. eauto.
Qed.

Lemma dir_targets_relocate_elem (root : path) (script : list action) (r : path) :
  r ∈ dir_targets script → root ++ r ∈ dir_targets (map (relocate root) script).
Proof.
  rewrite !elem_of_dir_targets. intros (p & Hp & Hr). exists (root ++ p). split.
  - apply list_elem_of_fmap. by exists (DoMkdirp p).
  - apply elem_of_prefixes_app. right. eauto.
Qed.

Lemma root_made_relocate (root : path) (script : list action) (q : path) :
  dir_targets script ≠ [] → q ∈ prefixes root →
  q ∈ dir_targets (map (relocate root) script).
Proof.
  intros Hne Hq. destruct (dir_targets script) as [|r l] eqn:E; [done|].
  assert (r ∈ dir_targets script) as Hr by (rewrite E; by left).
  apply elem_of_dir_targets in Hr as (p & Hp & _).
  apply elem_of_dir_targets. exists (root ++ p). split.
  - apply list_elem_of_fmap. by exists (DoMkdirp p).
  - apply elem_of_prefixes_app. by left.
Qed.

Lemma throws_relocate (root : path) (script : list action) :
  throws (map (relocate root) script) = throws script.
Proof.
  unfold throws. induction script as [|a script IH]; [done|].
  simpl. rewrite IH. by destruct a.
Qed.

Lemma app_not_prefixes (root r : path) : r ≠ [] → root ++ r ∉ prefixes root.
Proof.
  intros Hr [_ Hpre%prefix_length]%elem_of_prefixes.
  rewrite length_app in Hpre. destruct r; [done | simpl in Hpre; lia].
Qed.

Lemma parents_made_relocate (root : path) (seen : list path) (script : list action) :
  (∀ p, p ∈ write_targets script → p ≠ []) →
  parents_made seen script = true →
  parents_made (map (app root) seen) (map (relocate root) script) = true.
Proof.
  revert seen. induction script as [|a script IH]; intros seen Hne H; [done|].
  assert (∀ p, p ∈ write_targets script → p ≠ []) as Hne'.
  { intros p Hp. apply Hne. unfold write_targets in *. simpl.
    apply elem_of_app. by right. }
  destruct a as [d | w c | msg | e]; simpl in *.
  - by apply (IH (d :: seen)).
  - apply andb_true_iff in H as [Hex H]. apply andb_true_iff. split; [|by apply IH].
    apply existsb_elem_of in Hex as (q & Hq & Hpre).
    apply bool_decide_eq_true in Hpre.
    apply existsb_elem_of. exists (root ++ q). split.
    + apply list_elem_of_fmap. by exists q.
    + apply bool_decide_eq_true. rewrite dirname_app.
      * by apply prefix_app.
      * apply Hne. unfold write_targets. simpl. by left.
  - by apply IH.
  - by apply IH.
Qed.

(** What [sound] says, one part at a time. *)
Lemma sound_parts (script : list action) :
  sound script = true →
  NoDup (write_targets script) ∧
  (∀ p, p ∈ write_targets script → p ≠ [] ∧ p ∉ dir_targets script) ∧
  parents_made [] script = true.
Proof.
  unfold sound. intros [[H1 H2]%andb_true_iff H3]%andb_true_iff.
  apply bool_decide_eq_true in H1. split; [done|]. split; [|done].
  intros p Hp. apply (proj1 (forallb_elem_of _ _) H2) in Hp.
  apply andb_true_iff in Hp as [Ha Hb].
  by apply bool_decide_eq_true in Ha, Hb.
Qed.

Lemma NoDup_writes_consistent (script : list action) :
  NoDup (write_targets script) → consistent script.
Proof.
  induction script as [|a script IH]; intros Hnd.
  - intros x y Hx. inversion Hx.
  - assert (NoDup (write_targets script)) as Hnd'.
    { unfold write_targets in *. simpl in Hnd. by apply NoDup_app in Hnd as (_ & _ & ?). }
    assert (∀ p c c', a = DoWrite p c → DoWrite p c' ∈ script → False) as Hfresh.
    { intros p c c' -> Hin. unfold write_targets in Hnd. simpl in Hnd.
      apply NoDup_cons in Hnd as [Hnotin _]. apply Hnotin.
      apply elem_of_write_targets. eauto. }
    intros x y [-> | Hx]%elem_of_cons [-> | Hy]%elem_of_cons.
    + destruct a; simpl; done.
    + destruct a as [d | p c | m | e], y as [d' | q c' | m' | e']; simpl; try done.
      intros ->. exfalso. eauto.
    + destruct x as [d' | q c' | m' | e'], a as [d | p c | m | e]; simpl; try done.
      intros ->. exfalso. eauto.
    + by apply IH.
Qed.

Lemma sound_consistent (root : path) (script : list action) :
  sound script = true → consistent (map (relocate root) script).
Proof.
  intros (Hnd & _ & _)%sound_parts. apply NoDup_writes_consistent.
  rewrite write_targets_relocate. apply NoDup_fmap_2; [|done].
  intros x y. apply app_inv_head.
Qed.

(** ** When a script runs to its end *)

Lemma run_succeeds (seen : list path) (script : list action) (f : FS) :
  throws script = false →
  (∀ q, q ∈ dir_targets script → is_file (f !! q) = false) →
  (∀ p, p ∈ write_targets script → f !! p ≠ Some Dir) →
  (∀ p, p ∈ write_targets script → p ∉ dir_targets script) →
  (∀ q x, q ∈ seen → x ∈ prefixes q → f !! x = Some Dir) →
  parents_made seen script = true →
  failure (run script f) = None.
Proof.
  revert seen f. induction script as [|a script IH]; intros seen f Hth Hd Hw Hdw Hseen Hpm; [done|].
  assert (throws script = false) as Hth'.
  { unfold throws in *. simpl in Hth. by apply orb_false_iff in Hth as [_ ?]. }
  assert (∀ q, q ∈ dir_targets script → q ∈ dir_targets (a :: script)) as Hsubd.
  { intros q Hq. unfold dir_targets in *. simpl. apply elem_of_app. by right. }
  assert (∀ p, p ∈ write_targets script → p ∈ write_targets (a :: script)) as Hsubw.
  { intros p Hp. unfold write_targets in *. simpl. apply elem_of_app. by right. }
  assert (∀ p, p ∈ write_targets script → p ∉ dir_targets script) as Hdw'.
  { intros p Hp Hq. apply (Hdw p); auto. }
  destruct a as [d | w c | msg | e]; cbn [run step].
  - assert (∀ q, q ∈ prefixes d → q ∈ dir_targets (DoMkdirp d :: script)) as Hpd.
    { intros q Hq. unfold dir_targets. simpl. apply elem_of_app. by left. }
    assert (mkdirp_error f d = None) as ->.
    { apply mkdirp_error_None. intros q Hq. apply Hd. by apply Hpd. }
    simpl. apply (IH (d :: seen)); [done | | | done | | done].
    + intros q Hq. rewrite lookup_mkdirp_fs. case_decide; [done | by apply Hd, Hsubd].
    + intros p Hp. rewrite lookup_mkdirp_fs. rewrite decide_False; [by apply Hw, Hsubw|].
      intros Hin. apply (Hdw p); [by apply Hsubw | by apply Hpd].
    + intros q x [-> | Hq]%elem_of_cons Hx; rewrite lookup_mkdirp_fs.
      * by rewrite decide_True.
      * case_decide; [done | by eapply Hseen].
  - simpl in Hpm. apply andb_true_iff in Hpm as [Hex Hpm].
    assert (w ∈ write_targets (DoWrite w c :: script)) as Hwin.
    { unfold write_targets. simpl. by left. }
    assert (write_error f w = None) as ->.
    { apply write_error_None. split; [by apply Hw|].
      apply existsb_elem_of in Hex as (q & Hq & Hpre). apply bool_decide_eq_true in Hpre.
      destruct (dirname w) as [|x dw] eqn:Edw; [by left | right].
      apply (Hseen q); [done|]. by apply elem_of_prefixes. }
    simpl. apply (IH seen); [done | | | done | | done].
    + intros q Hq. rewrite lookup_write_fs. rewrite decide_False; [by apply Hd, Hsubd|].
      intros <-. apply (Hdw w); [done | by apply Hsubd].
    + intros p Hp. rewrite lookup_write_fs. case_decide; [done | by apply Hw, Hsubw].
    + intros q x Hq Hx. rewrite lookup_write_fs. rewrite decide_False; [by eapply Hseen|].
      intros <-. apply (Hw w Hwin). by eapply Hseen.
  - simpl. apply (IH seen); [done | | | done | done | done].
    + intros q Hq. by apply Hd, Hsubd.
    + intros p Hp. by apply Hw, Hsubw.
  - done.
Qed.

(** A sound script that does not throw runs to its end under any root of
    a fresh disk. *)
Lemma sound_run_succeeds (root : path) (script : list action) (f : FS) :
  sound script = true → throws script = false → fresh root f →
  failure (run (map (relocate root) script) f) = None.
Proof.
  intros (Hnd & Hw & Hpm)%sound_parts Hth [Hroot Hbelow].
  apply (run_succeeds (map (app root) [])).
  - by rewrite throws_relocate.
  - intros q [Hq | (r & Hr & ->)]%elem_of_dir_targets_relocate; [by apply Hroot|].
    rewrite Hbelow; [done|].
    apply elem_of_dir_targets in Hr as (p & _ & Hr). by apply elem_of_prefixes in Hr as [? _].
  - intros p. rewrite write_targets_relocate. intros (r & -> & Hr)%list_elem_of_fmap.
    rewrite Hbelow; [done | by apply Hw].
  - intros p. rewrite write_targets_relocate. intros (r & -> & Hr)%list_elem_of_fmap.
    destruct (Hw r Hr) as [Hne Hnotin].
    intros [Hq | (r' & Hr' & Heq)]%elem_of_dir_targets_relocate.
    + by apply (app_not_prefixes root r).
    + apply app_inv_head in Heq. by subst.
  - intros q x Hq. inversion Hq.
  - apply parents_made_relocate; [|done]. intros p Hp. by apply Hw.
Qed.

(** What exists after a script ran to its end. *)
Lemma effect_is_Some (script : list action) (f : FS) (p : path) :
  is_Some (effect script f !! p) ↔
  is_Some (f !! p) ∨ p ∈ dir_targets script ∨ p ∈ write_targets script.
Proof.
  revert f. induction script as [|a script IH]; intros f.
  - simpl. split; [by left|]. intros [? | [H | H]]; [done | inversion H | inversion H].
  - unfold effect in *. cbn [foldl]. rewrite IH.
    unfold dir_targets, write_targets. cbn [flat_map]. rewrite !elem_of_app.
    destruct a as [d | w c | msg | e]; simpl.
    + rewrite lookup_mkdirp_fs. case_decide as Hin.
      * split; [intros _; right; left; by left | intros _; by left].
      * split; [intros [? | [? | ?]] | intros [? | [[? | ?] | [? | ?]]]]; auto; try done.
        all: match goal with H : _ ∈ [] |- _ => inversion H end.
    + rewrite lookup_write_fs. case_decide as Heq.
      * subst. split; [intros _; right; right; left; by left | intros _; by left].
      * split; [intros [? | [? | ?]] | intros [? | [[? | ?] | [Hx | ?]]]]; auto; try done.
        -- match goal with H : _ ∈ [] |- _ => inversion H end.
        -- apply list_elem_of_singleton in Hx. congruence.
    + split; [intros [? | [? | ?]] | intros [? | [[? | ?] | [? | ?]]]]; auto.
      all: match goal with H : _ ∈ [] |- _ => inversion H end.
    + split; [intros [? | [? | ?]] | intros [? | [[? | ?] | [? | ?]]]]; auto.
      all: match goal with H : _ ∈ [] |- _ => inversion H end.
Qed.

(** Under a root, on a fresh disk: what exists below the root afterwards
    is what the script made or wrote. *)
Lemma effect_below_root (root : path) (script : list action) (f : FS) (r : path) :
  fresh root f → r ≠ [] →
  is_Some (effect (map (relocate root) script) f !! (root ++ r)) ↔
  r ∈ dir_targets script ∨ r ∈ write_targets script.
Proof.
  intros [_ Hbelow] Hr. rewrite effect_is_Some, write_targets_relocate.
  rewrite (Hbelow r Hr). split.
  - intros [[x Hx] | [H | H]]; [done | |].
    + apply elem_of_dir_targets_relocate in H as [H | (r' & Hr' & Heq)].
      * by apply app_not_prefixes in H.
      * apply app_inv_head in Heq. subst. by left.
    + apply list_elem_of_fmap in H as (r' & Heq & Hr').
      apply app_inv_head in Heq. subst. by right.
  - intros [H | H]; right.
    + left. by apply dir_targets_relocate_elem.
    + right. apply list_elem_of_fmap. eauto.
Qed.

(** ** The plan under a root *)

Lemma file_script_relocate (label : string) (root : path) (file : FileSpec) :
  segments (file_path file) ≠ [] →
  file_script label root file = map (relocate root) (file_script label [] file).
Proof.
  intros Hne. unfold file_script, path_join. simpl. by rewrite dirname_app.
Qed.

Lemma files_script_relocate (label : string) (root : path) (files : list FileSpec) :
  Forall (fun file => segments (file_path file) ≠ []) files →
  flat_map (file_script label root) files
  = map (relocate root) (flat_map (file_script label []) files).
Proof.
  induction 1 as [|file files Hfile _ IH]; [done|].
  cbn [flat_map]. by rewrite map_app, IH, file_script_relocate.
Qed.

Lemma own_property_elem_of {A} (obj : list (string * A)) (key : string) (a : A) :
  own_property obj key = Some a → (key, a) ∈ obj.
Proof.
  induction obj as [|[k x] obj IH]; [done|]. simpl.
  destruct (String.eqb_spec k key) as [-> | Hne].
  - intros [= ->]. by left.
  - intros H. right. by apply IH.
Qed.

Lemma table_script_relocate (label : string) (root : path)
    (table : list (string * list FileSpec)) (key : string) :
  Forall (fun entry => Forall (fun file => segments (file_path file) ≠ []) entry.2) table →
  table_script label root (or_empty (get_property table key))
  = map (relocate root) (table_script label [] (or_empty (get_property table key))).
Proof.
  intros Htable. unfold get_property.
  destruct (own_property table key) as [files|] eqn:E.
  - apply own_property_elem_of in E.
    apply (proj1 (Forall_forall _ _) Htable) in E. by apply files_script_relocate.
  - by destruct (is_inherited key).
Qed.

Lemma storageFiles_paths :
  Forall (fun entry => Forall (fun file => segments (file_path file) ≠ []) entry.2)
    storageFiles.
Proof. repeat constructor; by vm_compute. Qed.

Lemma stateManagementFiles_paths :
  Forall (fun entry => Forall (fun file => segments (file_path file) ≠ []) entry.2)
    stateManagementFiles.
Proof. repeat constructor; by vm_compute. Qed.

Lemma gated_relocate (root : path) (b : bool) (script : list action) :
  gated b (map (relocate root) script) = map (relocate root) (gated b script).
Proof. by destruct b. Qed.

Lemma flat_map_relocate {A} (g : path → A → list action) (l : list A) (root : path) :
  (∀ x, g root x = map (relocate root) (g [] x)) →
  flat_map (g root) l = map (relocate root) (flat_map (g []) l).
Proof.
  intros Hg. induction l as [|x l IH]; [done|].
  cbn [flat_map]. by rewrite map_app, IH, Hg.
Qed.

Lemma base_script_relocate (root : path) :
  base_script root = map (relocate root) (base_script []).
Proof.
  apply (flat_map_relocate
           (fun root dir => [DoMkdirp (path_join root dir);
                             DoLog ("Created directory: " +:+ dir)])).
  done.
Qed.

Lemma navigation_dir_script_relocate (root : path) :
  navigation_dir_script root = map (relocate root) (navigation_dir_script []).
Proof. done. Qed.

Lemma bottom_script_relocate (root : path) :
  bottom_script root = map (relocate root) (bottom_script []).
Proof.
  unfold bottom_script. rewrite map_app.
  rewrite <- (flat_map_relocate
           (fun root dir => [DoMkdirp (path_join root dir);
                             DoLog ("Created Bottom Nav directory: " +:+ dir)])) by done.
  rewrite <- (flat_map_relocate
           (fun root file => [DoWrite (path_join root file) generateBottomTabContent;
                              DoLog ("Created Bottom Nav file: " +:+ file)])) by done.
  done.
Qed.

Lemma navigation_script_relocate (root : path) :
  navigation_script root = map (relocate root) (navigation_script []).
Proof. apply files_script_relocate. repeat constructor; by vm_compute. Qed.

Lemma utility_script_relocate (root : path) :
  utility_script root = map (relocate root) (utility_script []).
Proof. apply files_script_relocate. repeat constructor; by vm_compute. Qed.

Lemma tsconfig_script_relocate (root : path) :
  tsconfig_script root = map (relocate root) (tsconfig_script []).
Proof. unfold tsconfig_script. by generalize (stringify defaultConfig 2). Qed.

Lemma storage_script_relocate (root : path) (c : Config) :
  storage_script root c = map (relocate root) (storage_script [] c).
Proof. apply table_script_relocate, storageFiles_paths. Qed.

Lemma state_script_relocate (root : path) (c : Config) :
  state_script root c = map (relocate root) (state_script [] c).
Proof. apply table_script_relocate, stateManagementFiles_paths. Qed.

(** [plan root c] is [plan [] c] moved under [root]. *)
Lemma plan_relocate (root : path) (c : Config) :
  plan root c = map (relocate root) (plan [] c).
Proof.
  unfold plan. rewrite !map_app, <- !gated_relocate.
  rewrite <- base_script_relocate, <- navigation_dir_script_relocate,
    <- bottom_script_relocate, <- storage_script_relocate,
    <- navigation_script_relocate, <- state_script_relocate,
    <- utility_script_relocate, <- tsconfig_script_relocate.
  reflexivity.
Qed.

Lemma table_script_variant (label : string) (table : list (string * list FileSpec))
    (key : string) :
  table_script label [] (or_empty (get_property table key)) ∈ table_variants label table.
Proof.
  unfold table_variants, get_property. apply elem_of_app.
  destruct (own_property table key) as [files|] eqn:E.
  - left. apply own_property_elem_of in E. apply list_elem_of_fmap.
    by exists (key, files).
  - right. destruct (is_inherited key); simpl.
    + right. by left.
    + by left.
Qed.

Lemma gated_table_variant (b : bool) (label : string)
    (table : list (string * list FileSpec)) (key : string) :
  gated b (table_script label [] (or_empty (get_property table key)))
  ∈ table_variants label table.
Proof.
  destruct b; [apply table_script_variant|].
  unfold table_variants. apply elem_of_app. right. by left.
Qed.

Lemma plan_in_plans_with (c : Config) (storage_parts state_parts : list (list action)) :
  gated (truthy (storageType c)) (storage_script [] c) ∈ storage_parts →
  gated (truthy (stateManagement c)) (state_script [] c) ∈ state_parts →
  plan [] c ∈ plans_with storage_parts state_parts.
Proof.
  intros Hstorage Hstate. unfold plans_with, plan.
  apply list_elem_of_bind.
  exists (gated (truthy (bottomNavigation c)) (bottom_script [])). split.
  2: { destruct (truthy (bottomNavigation c)); [by left | right; by left]. }
  apply list_elem_of_bind.
  exists (gated (truthy (storageType c)) (storage_script [] c)). split.
  2: { done. }
  apply list_elem_of_bind.
  exists (gated (truthy (navigationSetup c)) (navigation_script [])). split.
  2: { destruct (truthy (navigationSetup c)); [by left | right; by left]. }
  apply list_elem_of_bind.
  exists (gated (truthy (stateManagement c)) (state_script [] c)). split.
  2: { done. }
  by left.
Qed.

Lemma plan_in_all_plans (c : Config) : plan [] c ∈ all_plans.
Proof. apply plan_in_plans_with; apply gated_table_variant. Qed.

Lemma all_plans_sound : Forall (fun script => sound script = true) all_plans.
Proof.
  apply Forall_forall. intros script Hin.
  assert (forallb sound all_plans = true) as H by (by vm_compute).
  by apply (proj1 (forallb_elem_of _ _) H).
Qed.

(** Every plan is sound. *)
Lemma plan_sound (c : Config) : sound (plan [] c) = true.
Proof. exact (proj1 (Forall_forall _ _) all_plans_sound _ (plan_in_all_plans c)). Qed.

Lemma plan_consistent (root : path) (c : Config) : consistent (plan root c).
Proof. rewrite plan_relocate. apply sound_consistent, plan_sound. Qed.

(** ** The whole run *)

Lemma collect_options_run (s : state) :
  ∃ s',
    collect_options s =
      (match (ask question_names (surface s)).2 with
       | None => Ok tt
       | Some e => Throw e
       end, s') ∧
    rootPath s' = rootPath s ∧ fs s' = fs s ∧
    trace s' = trace s ++ (ask question_names (surface s)).1 ∧
    ((ask question_names (surface s)).2 = None →
     config s' = answered_config (surface s)).
Proof.
  destruct s as [root cfg f srf tr].
  unfold collect_options, promptBottomNavigation, promptStorageSetup,
    promptNavigationSetup, promptStateManagement, inquirer_prompt, mbind, M_bind,
    modify, set_config, set_surface, emit. simpl.
  destruct srf as [|[a|e] srf]; simpl; [finish_collect | | finish_collect].
  destruct srf as [|[b|e] srf]; simpl; [finish_collect | | finish_collect].
  destruct srf as [|[c|e] srf]; simpl; [finish_collect | | finish_collect].
  destruct srf as [|[d|e] srf]; simpl; finish_collect.
Qed.

(** [scaffold] always completes, and does what [scaffold_result] says. *)
Lemma scaffold_run (s : state) :
  ∃ s',
    scaffold s = (Ok tt, s') ∧
    rootPath s' = rootPath s ∧
    fs s' = (scaffold_result (rootPath s) (fs s) (surface s)).1 ∧
    trace s' = trace s ++ (scaffold_result (rootPath s) (fs s) (surface s)).2.
Proof.
  unfold scaffold, scaffold_body, scaffold_result, try_catch.
  unfold mbind at 1, M_bind at 1. unfold console_log at 1, modify at 1.
  set (s0 := emit _ s).
  unfold mbind at 1, M_bind at 1.
  destruct (collect_options_run s0) as (s1 & Hrun & Hroot & Hfs & Htr & Hcfg).
  rewrite Hrun. change (surface s0) with (surface s) in *.
  change (fs s0) with (fs s) in *. change (rootPath s0) with (rootPath s) in *.
  change (trace s0) with (trace s ++ [start_banner]) in *.
  destruct (ask question_names (surface s)).2 as [e|] eqn:Eask.
  - eexists. split; [reflexivity|]. simpl. rewrite Htr, Hfs, Hroot.
    repeat split. by rewrite <- !app_assoc.
  - rewrite generate_plan, perform_all_run. unfold settle.
    rewrite Hroot, Hfs, (Hcfg eq_refl).
    generalize (run (plan (rootPath s) (answered_config (surface s))) (fs s)).
    intros r. destruct (failure r) as [e|];
      (eexists; split; [reflexivity|]); simpl; rewrite Htr, ?Hroot;
      repeat split; by rewrite <- ?app_assoc, ?app_nil_r.
Qed.

Lemma launch_result (root : path) (f : FS) (srf : list response) :
  rootPath (launch root f srf) = root ∧
  fs (launch root f srf) = (scaffold_result root f srf).1 ∧
  trace (launch root f srf) = (scaffold_result root f srf).2.
Proof.
  unfold launch.
  destruct (scaffold_run (constructor (Some root) {| cwd := root; disk := f; stdin := srf |}))
    as (s' & -> & Hroot & Hfs & Htr).
  done.
Qed.

(** ** The configuration document (C1) *)

(** C1, as the specification states it, fails: the [paths] mapping of the
    generated configuration document does not have 14 keys. *)
Lemma tsconfig_paths_not_14 : ¬ paths_claim 14 defaultConfig.
Proof.
  intros (options & aliases & Hopt & Hpaths & _ & Hlen & _).
  vm_compute in Hopt. injection Hopt as <-.
  vm_compute in Hpaths. injection Hpaths as <-.
  vm_compute in Hlen. discriminate.
Qed.

(** C1 (amended): the [paths] mapping of the generated type-checker
    configuration document has exactly 15 keys, all different, each mapped
    to a single-element list, and [baseUrl] is ["./src"]. *)
Theorem tsconfig_paths_15 : paths_claim 15 defaultConfig.
Proof.
  eexists _, paths_aliases. split; [reflexivity|]. split; [reflexivity|].
  split; [|split; [reflexivity|split; [|reflexivity]]].
  - apply (bool_decide_eq_true_1 (NoDup (paths_aliases.*1))). by vm_compute.
  - unfold paths_aliases. repeat (constructor; [by eexists|]). constructor.
Qed.

(** The document is what [createTsConfig] writes to [tsconfig.json]. *)
Lemma createTsConfig_writes (s s' : state) :
  createTsConfig s = (Ok tt, s') →
  fs s' !! (rootPath s ++ ["tsconfig.json"]) = Some (File (stringify defaultConfig 2)).
Proof.
  rewrite performs_createTsConfig, perform_all_run. unfold settle.
  unfold tsconfig_script, path_join. cbn [segments].
  generalize (stringify defaultConfig 2). intros doc. cbn [run step].
  change (segments "tsconfig.json") with ["tsconfig.json"].
  destruct (write_error _ _); [done|]. simpl. intros [= <-]. simpl.
  by rewrite lookup_write_fs, decide_True.
Qed.

(** ** [resetNavigationStack] (C5) *)

(** C5, as the specification states it, fails: a list that names a route
    the navigator does not have is refused, and the navigation state
    stays what it was.  Here the navigator has [Home] and [Settings] and
    the list starts with [Nowhere]. *)
Lemma unknown_route_is_refused :
  ¬ NavigationRef.replaces_every_list NavigationRef.container.
Proof.
  intros Hclaim.
  specialize (Hclaim
    [ NavigationRef.mkRoute "Nowhere" None; NavigationRef.mkRoute "Home" None ]
    (NavigationRef.mkRuntime
       (NavigationRef.mkContainer true ["Home"; "Settings"]
          (NavigationRef.mkNavigationState 0 [NavigationRef.mkRoute "Home" None]))
       [])
    ltac:(discriminate) eq_refl).
  vm_compute in Hclaim. discriminate.
Qed.

Lemma reset_argument_accepted_last (routes : list NavigationRef.route) :
  NavigationRef.index (NavigationRef.reset_argument routes)
  = (Z.of_nat (length (NavigationRef.routes (NavigationRef.reset_argument routes))) - 1)%Z.
Proof. done. Qed.

(** C5 (amended): on a ready navigation surface [resetNavigationStack],
    given a non-empty list of routes every one of which the navigator
    has, replaces the whole navigation state by that list with the active
    index [length - 1], a position in the list; for three routes the
    index is 2, and nothing is logged.  A list with a route the navigator
    does not have leaves the navigation state as it was. *)
Theorem resetNavigationStack_replaces_stack
    {C} `{NavigationRef.NavigationContainerRef C}
    (routes : list NavigationRef.route) (r : NavigationRef.runtime C) :
  routes ≠ [] →
  NavigationRef.isReady (NavigationRef.navigationRef r) = true →
  let r' := NavigationRef.resetNavigationStack routes r in
  ((∀ x, x ∈ routes →
      NavigationRef.name x ∈ NavigationRef.routeNames (NavigationRef.navigationRef r)) →
   NavigationRef.getRootState (NavigationRef.navigationRef r')
   = {| NavigationRef.index := (Z.of_nat (length routes) - 1)%Z;
        NavigationRef.routes := routes |} ∧
   (0 ≤ NavigationRef.index (NavigationRef.getRootState (NavigationRef.navigationRef r'))
      < Z.of_nat (length routes))%Z ∧
   (length routes = 3 →
    NavigationRef.index (NavigationRef.getRootState (NavigationRef.navigationRef r')) = 2%Z) ∧
   NavigationRef.console r' = NavigationRef.console r) ∧
  ((∃ x, x ∈ routes ∧
      NavigationRef.name x ∉ NavigationRef.routeNames (NavigationRef.navigationRef r)) →
   NavigationRef.getRootState (NavigationRef.navigationRef r')
   = NavigationRef.getRootState (NavigationRef.navigationRef r)).
Proof.
  intros Hne Hready. unfold NavigationRef.resetNavigationStack. rewrite Hready.
  cbn [NavigationRef.navigationRef NavigationRef.console]. split.
  - intros Hknown.
    assert (NavigationRef.accepted
              (NavigationRef.routeNames (NavigationRef.navigationRef r))
              (NavigationRef.reset_argument routes) = true) as Hacc.
    { unfold NavigationRef.accepted. cbn [NavigationRef.reset_argument NavigationRef.routes].
      destruct routes as [|x routes]; [done|].
      apply forallb_elem_of. intros y Hy. apply bool_decide_eq_true. by apply Hknown. }
    destruct (NavigationRef.reset_accepted _ _ Hready Hacc
                (reset_argument_accepted_last routes)) as [-> ->].
    cbn [NavigationRef.reset_argument NavigationRef.index].
    rewrite app_nil_r. repeat split; try lia.
    destruct routes; [done | simpl; lia].
  - intros (x & Hx & Hunknown). apply NavigationRef.reset_refused.
    unfold NavigationRef.accepted. cbn [NavigationRef.reset_argument NavigationRef.routes].
    destruct routes as [|y routes]; [done|].
    apply not_true_is_false. intros Hall.
    apply (proj1 (forallb_elem_of _ _) Hall) in Hx.
    by apply bool_decide_eq_true in Hx.
Qed.

Lemma resetNavigationStack_replaces_stack_witness :
  let routes := [ NavigationRef.mkRoute "Home" None;
                  NavigationRef.mkRoute "Profile" None;
                  NavigationRef.mkRoute "Settings" (Some [("tab", "general")]) ] in
  let r := NavigationRef.mkRuntime
             (NavigationRef.mkContainer true ["Home"; "Profile"; "Settings"]
                (NavigationRef.mkNavigationState 0 [NavigationRef.mkRoute "Home" None]))
             [] in
  NavigationRef.index
    (NavigationRef.getRootState
       (NavigationRef.navigationRef (NavigationRef.resetNavigationStack routes r))) = 2%Z.
Proof.
  intros routes r.
  refine (proj1 (proj2 (proj2
            (proj1 (resetNavigationStack_replaces_stack routes r _ eq_refl) _))) eq_refl).
  - discriminate.
  - apply (proj1 (Forall_forall _ _)).
    apply (bool_decide_eq_true_1 (Forall _ _)). vm_compute. reflexivity.
Defined.

Lemma resetNavigationStack_not_ready
    {C} `{NavigationRef.NavigationContainerRef C}
    (routes : list NavigationRef.route) (r : NavigationRef.runtime C) :
  NavigationRef.isReady (NavigationRef.navigationRef r) = false →
  NavigationRef.resetNavigationStack routes r
  = {| NavigationRef.navigationRef := NavigationRef.navigationRef r;
       NavigationRef.console := NavigationRef.console r ++ ["Navigation is not ready"] |}.
Proof. intros Hready. unfold NavigationRef.resetNavigationStack. by rewrite Hready. Qed.

(** ** Choices outside the tables (C10) *)

Lemma own_property_None {A} (obj : list (string * A)) (key : string) :
  key ∉ obj.*1 → own_property obj key = None.
Proof.
  induction obj as [|[k a] obj IH]; [done|]. simpl. intros Hnotin.
  destruct (String.eqb_spec k key) as [-> | Hne].
  - exfalso. apply Hnotin. by left.
  - apply IH. intros Hin. apply Hnotin. by right.
Qed.

Lemma table_script_unknown (label : string) (root : path)
    (table : list (string * list FileSpec)) (key : string) :
  key ∉ table.*1 → is_inherited key = false →
  table_script label root (or_empty (get_property table key)) = [].
Proof.
  intros Hkey Hinh. unfold get_property. by rewrite own_property_None, Hinh.
Qed.

Lemma table_script_inherited (label : string) (root : path)
    (table : list (string * list FileSpec)) (key : string) :
  key ∉ table.*1 → is_inherited key = true →
  table_script label root (or_empty (get_property table key))
  = [ DoThrow (TypeError "files.forEach is not a function") ].
Proof.
  intros Hkey Hinh. unfold get_property. by rewrite own_property_None, Hinh.
Qed.

(** C10, as stated for every choice outside the tables, fails: the choice
    ['constructor'] is in neither table, and the lookup finds the function
    every object inherits under that name, which has no [forEach]. *)
Lemma constructor_choice_raises : ¬ unknown_choice_falls_back (fun _ => true).
Proof.
  intros [Hstorage _].
  specialize (Hstorage "constructor"
    {| rootPath := ["proj"];
       config := {| bottomNavigation := VBool false; storageType := VString "constructor";
                    navigationSetup := VBool false; stateManagement := VString "None" |};
       fs := ∅; surface := []; trace := [] |}).
  unfold falls_back in Hstorage.
  assert ("constructor" ∉ storageFiles.*1) as Hkey.
  { apply (bool_decide_eq_true_1 ("constructor" ∉ storageFiles.*1)). by vm_compute. }
  specialize (Hstorage Hkey eq_refl eq_refl).
  vm_compute in Hstorage. discriminate.
Qed.

(** C10 (amended): a storage choice that is not a key of the storage
    table, and a state-management choice that is not a key of the
    state-management table, make the generator fall back to the empty
    file list, so that it writes nothing, logs nothing and raises no
    error, provided the choice is not the name of a property inherited
    from [Object.prototype].  ['None'] is such a choice, and being a
    truthy string it does enter the generator. *)
Theorem unknown_choice_writes_nothing :
  unknown_choice_falls_back (fun key => negb (is_inherited key)) ∧
  truthy (VString "None") = true ∧
  ("None" ∉ storageFiles.*1) ∧ ("None" ∉ stateManagementFiles.*1) ∧
  is_inherited "None" = false ∧
  answers storageType_question (VString "None") ∧
  answers stateManagement_question (VString "None") ∧
  Forall (fun choice => is_inherited choice = false)
    (qchoices storageType_question ++ qchoices stateManagement_question).
Proof.
  split; [split|].
  - intros key s Hkey Hallowed Hcfg. unfold falls_back.
    rewrite performs_setupStorage. unfold storage_script. rewrite Hcfg.
    rewrite table_script_unknown; [done | done | by apply negb_true_iff].
  - intros key s Hkey Hallowed Hcfg. unfold falls_back.
    rewrite performs_setupStateManagement. unfold state_script. rewrite Hcfg.
    rewrite table_script_unknown; [done | done | by apply negb_true_iff].
  - split; [done|]. split; [|split; [|split; [done|split; [|split]]]].
    + apply (bool_decide_eq_true_1 ("None" ∉ storageFiles.*1)). by vm_compute.
    + apply (bool_decide_eq_true_1 ("None" ∉ stateManagementFiles.*1)). by vm_compute.
    + exists "None". split; [|done]. do 2 right. by left.
    + exists "None". split; [|done]. do 3 right. by left.
    + repeat (constructor; [done|]). constructor.
Qed.

Lemma unknown_choice_writes_nothing_witness :
  let s := {| rootPath := ["proj"];
              config := {| bottomNavigation := VBool false; storageType := VString "None";
                           navigationSetup := VBool false;
                           stateManagement := VString "None" |};
              fs := ∅; surface := []; trace := [] |} in
  setupStorage s = (Ok tt, s) ∧ setupStateManagement s = (Ok tt, s).
Proof.
  intros s. split.
  - refine (proj1 (proj1 unknown_choice_writes_nothing) "None" s _ _ _).
    + exact (proj1 (proj2 (proj2 unknown_choice_writes_nothing))).
    + reflexivity.
    + reflexivity.
  - refine (proj2 (proj1 unknown_choice_writes_nothing) "None" s _ _ _).
    + exact (proj1 (proj2 (proj2 (proj2 unknown_choice_writes_nothing)))).
    + reflexivity.
    + reflexivity.
Defined.

(** ** The counter examples (C4, second half) *)

Lemma round_to_double_exact (z : Z) :
  (Z.abs z ≤ 2 ^ 53)%Z → round_to_double z = z.
Proof.
  intros Hz. unfold round_to_double.
  destruct (Z.leb_spec (Z.abs z) (2 ^ 53)) as [_ | Hgt]; [done | lia].
Qed.

Lemma js_add_safe (v : Z) : safe_integer v → js_add v 1 = (v + 1)%Z.
Proof.
  unfold safe_integer, MAX_SAFE_INTEGER, js_add. intros Hv.
  apply round_to_double_exact. lia.
Qed.

Lemma js_sub_safe (v : Z) : safe_integer v → js_sub v 1 = (v - 1)%Z.
Proof.
  unfold safe_integer, MAX_SAFE_INTEGER, js_sub. intros Hv.
  apply round_to_double_exact. lia.
Qed.

Lemma ExampleSlice_contract : counter_contract_on safe_integer ExampleSlice.State.
Proof.
  split; [done|]. split; intros [v] Hv; simpl in *.
  - by apply js_add_safe.
  - by apply js_sub_safe.
Qed.

Lemma ExampleStore_contract : counter_contract_on safe_integer ExampleStore.ExampleState.
Proof.
  split; [done|]. split; intros [v] Hv; simpl in *.
  - by apply js_add_safe.
  - by apply js_sub_safe.
Qed.

Lemma ExampleProvider_contract : counter_contract_on safe_integer Z.
Proof.
  split; [done|]. split; intros v Hv; simpl in *.
  - by apply js_add_safe.
  - by apply js_sub_safe.
Qed.

(** C4, as the specification states it, fails in its second half: the
    counter is a JavaScript number, and at 2^53 [increment] leaves the
    value as it is, because 2^53 + 1 is no double and is rounded back to
    2^53. *)
Lemma increment_is_lost_at_2_53 : ¬ counter_contract ExampleSlice.State.
Proof.
  intros (_ & Hinc & _).
  specialize (Hinc {| ExampleSlice.value := 2 ^ 53 |}).
  vm_compute in Hinc. discriminate.
Qed.

(** Within the safe integers a counter under contract holds, after a
    sequence of operations, the number of increments less the number of
    decrements, as long as the sequence is not long enough to leave the
    range. *)
Lemma replay_value {S} `{Counter S} (ops : list operation) (s : S) :
  counter_contract_on safe_integer S →
  (Z.abs (value_of s) + Z.of_nat (length ops) ≤ MAX_SAFE_INTEGER)%Z →
  value_of (replay s ops) = (value_of s + foldr Z.add 0 (map delta ops))%Z.
Proof.
  intros (_ & Hinc & Hdec). revert s. induction ops as [|op ops IH]; intros s Hs.
  - simpl. lia.
  - unfold replay in *. cbn [foldl map foldr length] in *.
    assert (safe_integer (value_of s)) as Hsafe by (unfold safe_integer; lia).
    destruct op; cbn [apply_operation delta].
    + rewrite IH; rewrite (Hinc s Hsafe); lia.
    + rewrite IH; rewrite (Hdec s Hsafe); lia.
Qed.

(** ** Traces *)

Lemma made_app (t1 t2 : list event) : made (t1 ++ t2) = made t1 ++ made t2.
Proof. unfold made. induction t1 as [|ev t1 IH]; [done|]. simpl. by rewrite IH, app_assoc. Qed.

Lemma written_app (t1 t2 : list event) : written (t1 ++ t2) = written t1 ++ written t2.
Proof. unfold written. induction t1 as [|ev t1 IH]; [done|]. simpl. by rewrite IH, app_assoc. Qed.

Lemma prompt_names_app (t1 t2 : list event) :
  prompt_names (t1 ++ t2) = prompt_names t1 ++ prompt_names t2.
Proof.
  unfold prompt_names. induction t1 as [|ev t1 IH]; [done|]. simpl. by rewrite IH, app_assoc.
Qed.

Lemma events_of_app (a b : list action) : events_of (a ++ b) = events_of a ++ events_of b.
Proof. unfold events_of. induction a as [|x a IH]; [done|]. simpl. by rewrite IH, app_assoc. Qed.

Lemma events_of_no_prompt (script : list action) : prompt_names (events_of script) = [].
Proof.
  induction script as [|a script IH]; [done|].
  unfold events_of in *. simpl. rewrite prompt_names_app, IH. by destruct a.
Qed.

Lemma events_of_no_error (script : list action) (msg : string) (e : error) :
  ConsoleError msg e ∉ events_of script.
Proof.
  induction script as [|a script IH]; [apply not_elem_of_nil|].
  unfold events_of in *. simpl. intros [Hin | Hin]%elem_of_app; [|done].
  destruct a; simpl in Hin.
  all: repeat match goal with
         | H : _ ∈ _ :: _ |- _ => apply elem_of_cons in H as [H | H]; [discriminate|]
         | H : _ ∈ [] |- _ => inversion H
         end.
Qed.

Lemma ask_events (names : list string) (srf : list response) :
  Forall (fun ev => is_mutation ev = false) (ask names srf).1 ∧
  (∀ msg e, ConsoleError msg e ∉ (ask names srf).1) ∧
  made (ask names srf).1 = [] ∧ written (ask names srf).1 = [] ∧
  ((ask names srf).2 = None → prompt_names (ask names srf).1 = names).
Proof.
  revert srf. induction names as [|name names IH]; intros srf.
  - simpl. repeat split; try done. intros msg e Hin. inversion Hin.
  - destruct srf as [|[v|e] srf]; simpl.
    + repeat split; try done. intros msg e Hin. inversion Hin.
    + destruct (IH srf) as (Hmut & Herr & Hmade & Hwr & Hnames).
      repeat split; try done.
      * by constructor.
      * intros msg e [Heq | Hin]%elem_of_cons; [discriminate | by eapply Herr].
      * intros Hnone. by rewrite (Hnames Hnone).
    + repeat split; try done. intros msg e' Hin. inversion Hin.
Qed.

(** An element found in [l1 ++ l2] that cannot be in [l1] splits [l2]. *)
Lemma split_after {A} (P : A → Prop) (l1 l2 pre post : list A) (x : A) :
  Forall (fun y => ¬ P y) l1 → P x →
  l1 ++ l2 = pre ++ x :: post →
  ∃ pre', pre = l1 ++ pre' ∧ l2 = pre' ++ x :: post.
Proof.
  revert pre. induction l1 as [|y l1 IH]; intros pre Hall Hx Heq.
  - by exists pre.
  - apply Forall_cons in Hall as [Hy Hall]. destruct pre as [|z pre].
    + simpl in Heq. injection Heq as -> _. done.
    + simpl in Heq. injection Heq as -> Heq.
      destruct (IH pre Hall Hx Heq) as (pre' & -> & ->). by exists pre'.
Qed.

(** An element found in [l1 ++ l2] that cannot be in [l2] splits [l1]. *)
Lemma split_before {A} (P : A → Prop) (l1 l2 pre post : list A) (x : A) :
  Forall (fun y => ¬ P y) l2 → P x →
  l1 ++ l2 = pre ++ x :: post →
  ∃ post', l1 = pre ++ x :: post' ∧ post = post' ++ l2.
Proof.
  intros Hall Hx Heq.
  apply app_eq_inv in Heq as [(k & -> & Hk) | (k & -> & Hk)].
  - destruct k as [|y k].
    + simpl in Hk. subst l2. by apply Forall_cons in Hall as [Hnot _].
    + simpl in Hk. injection Hk as <- ->. by exists k.
  - exfalso. subst l2. apply Forall_app in Hall as [_ Hall].
    by apply Forall_cons in Hall as [Hnot _].
Qed.

Lemma parents_made_events (seen : list path) (script : list action) :
  parents_made_trace seen (events_of script) = parents_made seen script.
Proof.
  revert seen. induction script as [|a script IH]; intros seen; [done|].
  unfold events_of in *. destruct a; simpl; by rewrite ?IH.
Qed.

Lemma parents_made_trace_app (seen : list path) (t1 t2 : list event) :
  parents_made_trace seen (t1 ++ t2)
  = parents_made_trace seen t1 && parents_made_trace (reverse (made t1) ++ seen) t2.
Proof.
  revert seen. induction t1 as [|ev t1 IH]; intros seen; [done|].
  destruct ev; simpl; rewrite ?IH; try done.
  - unfold made. simpl. by rewrite reverse_cons, <- app_assoc.
  - by rewrite andb_assoc.
Qed.

Lemma parents_made_trace_sound (seen : list path) (tr : list event) :
  parents_made_trace seen tr = true →
  ∀ (pre post : list event) p content,
    tr = pre ++ WroteFile p content :: post →
    ∃ q, (q ∈ seen ∨ q ∈ made pre) ∧ dirname p `prefix_of` q.
Proof.
  intros H pre post p content ->.
  rewrite parents_made_trace_app in H. apply andb_true_iff in H as [_ H].
  simpl in H. apply andb_true_iff in H as [H _].
  apply existsb_elem_of in H as (q & Hq & Hpre). apply bool_decide_eq_true in Hpre.
  exists q. split; [|done].
  apply elem_of_app in Hq as [Hq | Hq]; [right | by left].
  by rewrite elem_of_reverse in Hq.
Qed.

(** ** Prompts come first (C6) *)

Lemma scaffold_result_aborted (root : path) (f : FS) (srf : list response) (e : error) :
  (ask question_names srf).2 = Some e →
  scaffold_result root f srf
  = (f, [start_banner] ++ (ask question_names srf).1 ++ [failure_line e]).
Proof. intros H. unfold scaffold_result. by rewrite H. Qed.

Lemma events_of_mutation_free (tr : list event) :
  made tr = [] → written tr = [] → Forall (fun ev => ¬ is_mutation ev = true) tr.
Proof.
  induction tr as [|ev tr IH]; intros Hm Hw; [done|].
  unfold made, written in *. destruct ev; simpl in *; try done.
  all: constructor; [done | by apply IH].
Qed.

(** C6: in every run, whatever the disk and the surface, each creation of
    a directory and each file write comes after the four prompts have been
    answered, in their order; and when the collector fails (a prompt
    rejects, or the surface has no answer to give) the run ends with the
    file system as it found it, having made no directory and written no
    file, and reports the error. *)
Theorem no_mutation_before_prompts (root : path) (f : FS) (srf : list response) :
  (∀ (pre post : list event) ev,
     trace (launch root f srf) = pre ++ ev :: post →
     is_mutation ev = true →
     prompt_names pre = question_names) ∧
  (∀ e, (ask question_names srf).2 = Some e →
     fs (launch root f srf) = f ∧
     made (trace (launch root f srf)) = [] ∧
     written (trace (launch root f srf)) = [] ∧
     last (trace (launch root f srf)) = Some (failure_line e)).
Proof.
  destruct (launch_result root f srf) as (_ & Hfs & Htr).
  destruct (ask_events question_names srf) as (Hmut & _ & Hmade & Hwr & Hnames).
  destruct (run_events_prefix (plan root (answered_config srf)) f)
    as (performed & rest & _ & Hev').
  rewrite Hfs, Htr. clear Hfs Htr. unfold scaffold_result.
  set (r := run _ f) in *. clearbody r.
  set (a := ask question_names srf) in *. clearbody a.
  destruct a as [asked err]. cbn [fst snd] in *.
  assert (Forall (fun ev => ¬ is_mutation ev = true) (start_banner :: asked)) as Hquiet.
  { constructor; [done|]. eapply Forall_impl; [exact Hmut|]. intros x Hx. by rewrite Hx. }
  split.
  - intros pre post ev Heq Hev. destruct err as [e|]; cbn [fst snd] in Heq.
    + exfalso.
      assert (Forall (fun ev => ¬ is_mutation ev = true)
                ((start_banner :: asked) ++ [failure_line e])) as Hall.
      { apply Forall_app. split; [done | by constructor]. }
      change ([start_banner] ++ asked ++ [failure_line e])
        with ((start_banner :: asked) ++ [failure_line e]) in Heq.
      rewrite Heq in Hall. apply Forall_app in Hall as [_ Hall].
      by apply Forall_cons in Hall as [Hnot _].
    + change ([start_banner] ++ asked ++ ?tl) with ((start_banner :: asked) ++ tl) in Heq.
      apply (split_after (fun ev => is_mutation ev = true)) in Heq
        as (pre' & -> & Heq); [|done|done].
      rewrite prompt_names_app. cbn [prompt_names flat_map app].
      fold (prompt_names asked). rewrite (Hnames eq_refl).
      assert (prompt_names pre' = []) as ->; [|by rewrite app_nil_r].
      apply (split_before (fun ev => is_mutation ev = true)) in Heq
        as (post' & Heq & _); [| |done].
      2: { destruct (failure r); by repeat constructor. }
      rewrite Hev' in Heq.
      pose proof (events_of_no_prompt performed) as Hnone.
      rewrite Heq, prompt_names_app in Hnone. by apply app_eq_nil in Hnone as [? _].
  - intros e ->. cbn [fst snd]. split; [done|].
    rewrite !made_app, !written_app, Hmade, Hwr.
    split; [done|]. split; [done|].
    change ([start_banner] ++ asked ++ [failure_line e])
      with ((start_banner :: asked) ++ [failure_line e]).
    by rewrite last_snoc.
Qed.

Lemma no_mutation_before_prompts_witness :
  fs (launch ["proj"] ∅ [Answer (VBool true); Rejects (PromptError "closed")]) = ∅ ∧
  prompt_names [start_banner; Prompted "bottomNav" (VBool false);
                Prompted "storageType" (VString "None");
                Prompted "navigationSetup" (VBool false);
                Prompted "stateManagement" (VString "None")] = question_names.
Proof.
  split.
  - refine (proj1 (proj2 (no_mutation_before_prompts ["proj"] ∅
              [Answer (VBool true); Rejects (PromptError "closed")])
              (PromptError "closed") _)).
    reflexivity.
  - refine (proj1 (no_mutation_before_prompts ["proj"] ∅ all_off)
              [start_banner; Prompted "bottomNav" (VBool false);
               Prompted "storageType" (VString "None");
               Prompted "navigationSetup" (VBool false);
               Prompted "stateManagement" (VString "None")]
              (tail (drop 5 (trace (launch ["proj"] ∅ all_off))))
              (MadeDir ["proj"; "src"; "assets"; "fonts"]) _ _).
    + by vm_compute.
    + reflexivity.
Defined.

(** ** What was made stays (C7) *)

Lemma elem_of_made_events (script : list action) (q : path) :
  q ∈ made (events_of script) ↔ DoMkdirp q ∈ script.
Proof.
  induction script as [|a script IH].
  - split; intros H; inversion H.
  - unfold events_of in *. cbn [flat_map]. rewrite made_app, elem_of_app, elem_of_cons, IH.
    destruct a as [d | w c | msg | e]; unfold made; simpl.
    + rewrite list_elem_of_singleton. split; [intros [-> | ?]; auto | intros [[= ->] | ?]; auto].
    + split; [intros [H | ?]; [inversion H | auto] | intros [? | ?]; [done | auto]].
    + split; [intros [H | ?]; [inversion H | auto] | intros [? | ?]; [done | auto]].
    + split; [intros [H | ?]; [inversion H | auto] | intros [? | ?]; [done | auto]].
Qed.

Lemma elem_of_written_events (script : list action) (w : path) (content : string) :
  (w, content) ∈ written (events_of script) ↔ DoWrite w content ∈ script.
Proof.
  induction script as [|a script IH].
  - split; intros H; inversion H.
  - unfold events_of in *. cbn [flat_map]. rewrite written_app, elem_of_app, elem_of_cons, IH.
    destruct a as [d | w' c | msg | e]; unfold written; simpl.
    + split; [intros [H | ?]; [inversion H | auto] | intros [? | ?]; [done | auto]].
    + rewrite list_elem_of_singleton.
      split; [intros [[= -> ->] | ?]; auto | intros [[= -> ->] | ?]; auto].
    + split; [intros [H | ?]; [inversion H | auto] | intros [? | ?]; [done | auto]].
    + split; [intros [H | ?]; [inversion H | auto] | intros [? | ?]; [done | auto]].
Qed.

(** Whatever a run made or wrote is there when the run ends, whether it
    ended well or not. *)
Lemma launch_persists (root : path) (f : FS) (srf : list response) :
  (∀ q, q ∈ made (trace (launch root f srf)) →
     ∀ x, x ∈ prefixes q → fs (launch root f srf) !! x = Some Dir) ∧
  (∀ w content, (w, content) ∈ written (trace (launch root f srf)) →
     fs (launch root f srf) !! w = Some (File content)).
Proof.
  destruct (launch_result root f srf) as (_ & Hfs & Htr).
  destruct (ask_events question_names srf) as (_ & _ & Hmade & Hwr & _).
  destruct (run_decompose (plan root (answered_config srf)) f (plan_consistent _ _))
    as (performed & rest & _ & Hev & Hall & _).
  rewrite Hfs, Htr. clear Hfs Htr. unfold scaffold_result.
  set (r := run _ f) in *. clearbody r.
  set (a := ask question_names srf) in *. clearbody a.
  destruct a as [asked err]. cbn [fst snd] in *.
  destruct err as [e|]; cbn [fst snd].
  - rewrite !made_app, !written_app, Hmade, Hwr. split.
    + intros q Hq. inversion Hq.
    + intros w c Hw. inversion Hw.
  - assert (made (match failure r with
                  | Some e => [failure_line e]
                  | None => []
                  end) = []) as Hm by (by destruct (failure r)).
    assert (written (match failure r with
                     | Some e => [failure_line e]
                     | None => []
                     end) = []) as Hw by (by destruct (failure r)).
    rewrite !made_app, !written_app, Hmade, Hwr, Hm, Hw, Hev. simpl.
    rewrite !app_nil_r. split.
    + intros q Hq%elem_of_made_events.
      exact (proj1 (Forall_forall _ _) Hall _ Hq).
    + intros w c Hin%elem_of_written_events.
      exact (proj1 (proj1 (Forall_forall _ _) Hall _ Hin)).
Qed.

Lemma main_launch (p : process) :
  main p = (0%Z, launch (cwd p) (disk p) (stdin p)).
Proof.
  unfold main, launch, try_catch.
  change (constructor (Some (cwd p)) {| cwd := cwd p; disk := disk p; stdin := stdin p |})
    with (constructor None p).
  by destruct (scaffold_run (constructor None p)) as (s' & -> & _).
Qed.

(** C7: whatever happens in a run, [scaffold] itself completes: an error
    raised in its [try] block is caught there, the error line with the
    error is printed last, the file system is left as it was when the
    error was raised, every directory made and every file written before
    is still there, and the process ends with exit status 0. *)
Theorem errors_are_caught_and_reported (p : process) :
  (main p).1 = 0%Z ∧
  (∃ s', scaffold (constructor None p) = (Ok tt, s') ∧ (main p).2 = s') ∧
  (∀ e s1,
     scaffold_body (emit start_banner (constructor None p)) = (Throw e, s1) →
     fs (main p).2 = fs s1 ∧
     trace (main p).2 = trace s1 ++ [failure_line e] ∧
     (∀ q, q ∈ made (trace s1) →
        ∀ x, x ∈ prefixes q → fs (main p).2 !! x = Some Dir) ∧
     (∀ w content, (w, content) ∈ written (trace s1) →
        fs (main p).2 !! w = Some (File content))).
Proof.
  rewrite main_launch. cbn [fst snd]. split; [done|].
  assert (launch (cwd p) (disk p) (stdin p) = (scaffold (constructor None p)).2) as Hlaunch.
  { unfold launch. by destruct p. }
  split.
  - destruct (scaffold_run (constructor None p)) as (s' & Hs' & _).
    exists s'. split; [done|]. by rewrite Hlaunch, Hs'.
  - intros e s1 Hbody.
    assert (scaffold (constructor None p) = (Ok tt, emit (failure_line e) s1)) as Hrun.
    { unfold scaffold, try_catch, mbind, M_bind, console_log, modify.
      fold start_banner. by rewrite Hbody. }
    destruct (launch_persists (cwd p) (disk p) (stdin p)) as [Hdirs Hfiles].
    rewrite Hlaunch, Hrun in *. cbn [snd emit fs trace] in *.
    split; [done|]. split; [done|]. split.
    + intros q Hq. apply Hdirs. rewrite made_app, elem_of_app. by left.
    + intros w c Hw. apply Hfiles. rewrite written_app, elem_of_app. by left.
Qed.

(** ** Running again (C8) *)

(** C8: for every root, every disk and every sequence of answers, a second
    run with the same answers on the file system the first run left ends
    with exactly that file system (and does what the first run did).
    Behind it: making a directory that was made, and writing a file that
    was written with the same content, succeed and change nothing. *)
Theorem rerun_changes_nothing (root : path) (f : FS) (srf : list response) :
  fs (launch root (fs (launch root f srf)) srf) = fs (launch root f srf) ∧
  trace (launch root (fs (launch root f srf)) srf) = trace (launch root f srf) ∧
  (∀ p g g', step (DoMkdirp p) g = inr g' → step (DoMkdirp p) g' = inr g') ∧
  (∀ p content g g',
     step (DoWrite p content) g = inr g' → step (DoWrite p content) g' = inr g').
Proof.
  assert (∀ a g g', step a g = inr g' → step a g' = inr g') as Hagain.
  { intros a g g' H. by apply holds_step, (step_holds g). }
  split; [|split; [|split]].
  3: { intros p g g'. apply Hagain. }
  3: { intros p content g g'. apply Hagain. }
  all: clear Hagain.
  all: destruct (launch_result root f srf) as (_ & Hfs & Htr).
  all: destruct (launch_result root (fs (launch root f srf)) srf) as (_ & Hfs' & Htr').
  all: rewrite ?Hfs', ?Htr', ?Hfs, ?Htr; clear; unfold scaffold_result.
  all: pose proof (run_idempotent (plan root (answered_config srf)) f
                     (plan_consistent _ _)) as Hidem.
  all: set (r := run _ f) in *.
  all: destruct (ask question_names srf).2 as [e|]; cbn [fst snd]; [done|].
  all: by rewrite Hidem.
Qed.

(** ** Parents before files (C9) *)

Lemma parents_made_trace_quiet (seen : list path) (tr : list event) :
  written tr = [] → parents_made_trace seen tr = true.
Proof.
  revert seen. induction tr as [|ev tr IH]; intros seen Hw; [done|].
  unfold written in *. destruct ev; simpl in *; try done; by apply IH.
Qed.

Lemma plan_parents_made (root : path) (c : Config) :
  parents_made [] (plan root c) = true.
Proof.
  rewrite plan_relocate.
  destruct (sound_parts _ (plan_sound c)) as (_ & Hw & Hpm).
  apply (parents_made_relocate root []); [|done]. intros p Hp. by apply Hw.
Qed.

(** The disk a trace leaves, event by event. *)
Lemma disk_after_app (f : FS) (t1 t2 : list event) :
  disk_after f (t1 ++ t2) = disk_after (disk_after f t1) t2.
Proof. apply foldl_app. Qed.

Lemma disk_after_quiet (f : FS) (tr : list event) :
  Forall (fun ev => is_mutation ev = false) tr → disk_after f tr = f.
Proof.
  induction 1 as [|ev tr Hev _ IH]; [done|].
  unfold disk_after in *. cbn [foldl]. destruct ev; try discriminate; exact IH.
Qed.

Lemma step_disk_after (a : action) (f f' : FS) :
  step a f = inr f' → f' = disk_after f (event_of a).
Proof.
  destruct a as [d | w c | msg | e]; simpl.
  - destruct (mkdirp_error f d); congruence.
  - destruct (write_error f w); congruence.
  - congruence.
  - discriminate.
Qed.

Lemma run_disk_after (script : list action) (f : FS) :
  final_fs (run script f) = disk_after f (events (run script f)).
Proof.
  revert f. induction script as [|a script IH]; intros f; [done|].
  cbn [run]. destruct (step a f) as [e | f'] eqn:E; [done|].
  cbn [final_fs events]. rewrite disk_after_app, <- (step_disk_after _ _ _ E). apply IH.
Qed.

(** When a script writes a file, the file's directory is on the disk. *)
Lemma run_parent_on_disk (script : list action) (f : FS) (pre post : list event)
    (w : path) (content : string) :
  events (run script f) = pre ++ WroteFile w content :: post →
  dirname w = [] ∨ disk_after f pre !! dirname w = Some Dir.
Proof.
  revert f pre. induction script as [|a script IH]; intros f pre Heq.
  - destruct pre; discriminate.
  - cbn [run] in Heq. destruct (step a f) as [e | f'] eqn:E; cbn [events] in Heq.
    { destruct pre; discriminate. }
    pose proof (step_disk_after _ _ _ E) as Hf'.
    destruct a as [d | p c | msg | e]; cbn [event_of app] in Heq.
    + destruct pre as [|x pre]; [discriminate|]. injection Heq as <- Heq.
      apply IH in Heq. by rewrite Hf' in Heq.
    + destruct pre as [|x pre].
      * injection Heq as -> -> _. simpl in E.
        destruct (write_error f w) eqn:Ew; [discriminate|].
        by apply write_error_None in Ew as [_ ?].
      * injection Heq as <- Heq. apply IH in Heq. by rewrite Hf' in Heq.
    + destruct pre as [|x pre]; [discriminate|]. injection Heq as <- Heq.
      apply IH in Heq. by rewrite Hf' in Heq.
    + discriminate.
Qed.

Lemma written_split (tr : list event) (w : path) (content : string) :
  (w, content) ∈ written tr → ∃ pre post, tr = pre ++ WroteFile w content :: post.
Proof.
  induction tr as [|ev tr IH]; [intros H; inversion H|].
  change (ev :: tr) with ([ev] ++ tr). rewrite written_app.
  intros [Hin | Hin]%elem_of_app.
  - destruct ev; try by inversion Hin.
    apply list_elem_of_singleton in Hin. injection Hin as -> ->. by exists [], tr.
  - destruct (IH Hin) as (pre & post & ->). by exists (ev :: pre), post.
Qed.

(** The trace of a run accounts for its disk, and each file of the trace
    is written into a directory that is on the disk by then. *)
Lemma launch_disk_after (root : path) (f : FS) (srf : list response) :
  fs (launch root f srf) = disk_after f (trace (launch root f srf)) ∧
  (∀ pre post w content,
     trace (launch root f srf) = pre ++ WroteFile w content :: post →
     dirname w = [] ∨ disk_after f pre !! dirname w = Some Dir).
Proof.
  destruct (launch_result root f srf) as (_ & -> & ->).
  destruct (ask_events question_names srf) as (Hquiet & _).
  unfold scaffold_result.
  pose proof (run_disk_after (plan root (answered_config srf)) f) as Hdisk.
  pose proof (run_parent_on_disk (plan root (answered_config srf)) f) as Hparent.
  set (r := run _ f) in *. clearbody r.
  set (a := ask question_names srf) in *. clearbody a.
  destruct a as [asked err]. cbn [fst snd] in *.
  assert (Forall (fun ev => is_mutation ev = false) ([start_banner] ++ asked)) as Hhead.
  { apply Forall_app. split; [by repeat constructor | done]. }
  assert (∀ l : list event, Forall (fun ev => is_mutation ev = false) l →
            Forall (fun ev => ¬ is_mutation ev = true) l) as Hnot.
  { intros l Hl. eapply Forall_impl; [exact Hl|]. intros ev ->. discriminate. }
  destruct err as [e|]; cbn [fst snd].
  - split.
    + rewrite app_assoc, disk_after_app, (disk_after_quiet _ _ Hhead).
      symmetry. apply disk_after_quiet. by repeat constructor.
    + intros pre post w content Heq. exfalso.
      rewrite app_assoc in Heq.
      destruct (split_after (fun ev => is_mutation ev = true) _ _ pre post
                  (WroteFile w content) (Hnot _ Hhead) eq_refl Heq) as (pre' & _ & Htail).
      destruct pre' as [|x [|y pre']]; discriminate.
  - assert (Forall (fun ev => is_mutation ev = false)
              (match failure r with
               | Some e => [failure_line e]
               | None => []
               end)) as Htail.
    { destruct (failure r); by repeat constructor. }
    split.
    + rewrite app_assoc, disk_after_app, (disk_after_quiet _ _ Hhead), disk_after_app,
        <- Hdisk.
      symmetry. by apply disk_after_quiet.
    + intros pre post w content Heq. rewrite app_assoc in Heq.
      destruct (split_after (fun ev => is_mutation ev = true) _ _ pre post
                  (WroteFile w content) (Hnot _ Hhead) eq_refl Heq) as (pre' & -> & Hrest).
      destruct (split_before (fun ev => is_mutation ev = true) _ _ pre' post
                  (WroteFile w content) (Hnot _ Htail) eq_refl Hrest) as (post' & Hev & _).
      rewrite disk_after_app, (disk_after_quiet _ _ Hhead).
      by apply (Hparent pre' post' w content).
Qed.

(** C9: in every run, under every configuration, each file that is
    written has had its parent directory made before, by an earlier
    [mkdirp] of that directory or of one below it, and at the moment of
    the write that directory is a directory on the disk.  The trace
    accounts for the disk: the disk a run leaves is the one its events
    produce in order, every directory it reports as made is there with
    the directories above it, and every file it reports as written is
    there, in a directory.  This holds for the bottom-tab navigator file
    too: its generator makes no directory that covers [src/navigation],
    which [ensureNavigationDirectory] has made before it. *)
Theorem parent_made_before_each_write (root : path) (f : FS) (srf : list response) :
  parent_made_before (trace (launch root f srf)) ∧
  fs (launch root f srf) = disk_after f (trace (launch root f srf)) ∧
  (∀ pre post w content,
     trace (launch root f srf) = pre ++ WroteFile w content :: post →
     dirname w = [] ∨ disk_after f pre !! dirname w = Some Dir) ∧
  (∀ q, q ∈ made (trace (launch root f srf)) →
     ∀ x, x ∈ prefixes q → fs (launch root f srf) !! x = Some Dir) ∧
  (∀ w content, (w, content) ∈ written (trace (launch root f srf)) →
     fs (launch root f srf) !! w = Some (File content) ∧
     (dirname w = [] ∨ fs (launch root f srf) !! dirname w = Some Dir)) ∧
  (∀ file, file ∈ bottomNavFiles →
     (∀ q, q ∈ made (events_of (bottom_script root)) →
        ¬ dirname (path_join root file) `prefix_of` q) ∧
     dirname (path_join root file) ∈ made (events_of (navigation_dir_script root))).
Proof.
  assert (parent_made_before (trace (launch root f srf))) as Horder.
  { destruct (launch_result root f srf) as (_ & _ & Htr).
    destruct (ask_events question_names srf) as (_ & _ & Hmade & Hwr & _).
    destruct (run_events_prefix (plan root (answered_config srf)) f)
      as (performed & rest & Hplan & Hev).
    pose proof (plan_parents_made root (answered_config srf)) as Hpm.
    rewrite Hplan, <- parents_made_events, events_of_app, parents_made_trace_app in Hpm.
    apply andb_true_iff in Hpm as [Hpm _]. rewrite <- Hev in Hpm.
    rewrite Htr. clear Htr Hev Hplan. unfold scaffold_result.
    set (r := run _ f) in *. clearbody r.
    set (a := ask question_names srf) in *. clearbody a.
    destruct a as [asked err]. cbn [fst snd] in *.
    intros pre post w content Heq.
    assert (parents_made_trace [] (pre ++ WroteFile w content :: post) = true) as Hall.
    { rewrite <- Heq. destruct err as [e|]; cbn [fst snd].
      - apply parents_made_trace_quiet. by rewrite !written_app, Hwr.
      - change ([start_banner] ++ asked ++ ?tl) with ((start_banner :: asked) ++ tl).
        rewrite parents_made_trace_app.
        change (made (start_banner :: asked)) with (made asked). rewrite Hmade.
        apply andb_true_iff. split; [by apply parents_made_trace_quiet|].
        change (reverse [] ++ []) with (@nil path).
        rewrite parents_made_trace_app, Hpm.
        apply parents_made_trace_quiet. by destruct (failure r). }
    destruct (parents_made_trace_sound [] _ Hall pre post w content eq_refl)
      as (q & [Hq | Hq] & Hpre); [inversion Hq | by exists q]. }
  destruct (launch_disk_after root f srf) as [Hdisk Hparent].
  destruct (launch_persists root f srf) as [Hdirs Hfiles].
  split; [exact Horder|]. split; [exact Hdisk|]. split; [exact Hparent|].
  split; [exact Hdirs|]. split.
  - intros w content Hin. split; [by apply Hfiles|].
    destruct (written_split _ _ _ Hin) as (pre & post & Heq).
    destruct (Horder pre post w content Heq) as (q & Hq & Hpre).
    destruct (dirname w) as [|x d] eqn:Ed; [by left|]. right.
    apply (Hdirs q).
    + rewrite Heq, made_app, elem_of_app. by left.
    + apply elem_of_prefixes. by split.
  - intros file ->%list_elem_of_singleton. unfold path_join.
    change (segments "src/navigation/BottomTabNavigator.tsx")
      with ["src"; "navigation"; "BottomTabNavigator.tsx"].
    rewrite dirname_app by done. cbn [dirname]. split.
    + intros q Hq.
      change (made (events_of (bottom_script root)))
        with [root ++ ["src"; "assets"; "icons"; "BottomTabIcons"]] in Hq.
      apply list_elem_of_singleton in Hq as ->. intros Hpre%prefix_app_inv.
      revert Hpre.
      apply (bool_decide_eq_false_1
               (["src"; "navigation"] `prefix_of` ["src"; "assets"; "icons"; "BottomTabIcons"])).
      by vm_compute.
    + change (made (events_of (navigation_dir_script root)))
        with [root ++ ["src"; "navigation"]].
      by left.
Qed.

(** ** Complete runs *)

Lemma made_events_relocate (root : path) (script : list action) :
  made (events_of (map (relocate root) script)) = map (app root) (made (events_of script)).
Proof.
  induction script as [|a script IH]; [done|].
  unfold events_of in *. cbn [map flat_map]. rewrite !made_app, map_app, IH.
  by destruct a.
Qed.

Lemma written_events_relocate (root : path) (script : list action) :
  written (events_of (map (relocate root) script))
  = map (fun w => (root ++ w.1, w.2)) (written (events_of script)).
Proof.
  induction script as [|a script IH]; [done|].
  unfold events_of in *. cbn [map flat_map]. rewrite !written_app, map_app, IH.
  by destruct a.
Qed.

Lemma subset_check {A} `{EqDecision A} (l1 l2 : list A) :
  forallb (fun x => bool_decide (x ∈ l2)) l1 = true → ∀ x, x ∈ l1 → x ∈ l2.
Proof.
  intros H x Hx. apply (proj1 (forallb_elem_of _ _) H) in Hx.
  by apply bool_decide_eq_true in Hx.
Qed.

Lemma disjoint_check {A} `{EqDecision A} (l1 l2 : list A) :
  forallb (fun x => bool_decide (x ∉ l2)) l1 = true → ∀ x, x ∈ l1 → x ∉ l2.
Proof.
  intros H x Hx. apply (proj1 (forallb_elem_of _ _) H) in Hx.
  by apply bool_decide_eq_true in Hx.
Qed.

Lemma completed_no_error (tr : list event) :
  completed tr ↔ ∀ msg e, ConsoleError msg e ∉ tr.
Proof.
  unfold completed. rewrite forallb_elem_of. split.
  - intros H msg e Hin. by apply H in Hin.
  - intros H ev Hin. destruct ev; try done. by apply H in Hin.
Qed.

(** What a run that got four answers and reported no error did: all of
    its plan. *)
Lemma completed_run (root : path) (f : FS) (srf : list response) :
  (ask question_names srf).2 = None →
  completed (trace (launch root f srf)) →
  failure (run (plan root (answered_config srf)) f) = None ∧
  fs (launch root f srf) = effect (plan root (answered_config srf)) f ∧
  trace (launch root f srf)
  = [start_banner] ++ (ask question_names srf).1
    ++ events_of (plan root (answered_config srf)).
Proof.
  intros Hask Hdone'. pose proof (proj1 (completed_no_error _) Hdone') as Hdone.
  clear Hdone'. destruct (launch_result root f srf) as (_ & Hfs & Htr).
  rewrite Htr in Hdone. rewrite Hfs, Htr. clear Hfs Htr.
  unfold scaffold_result in *. rewrite Hask in *. cbn [fst snd] in *.
  pose proof (run_success_events (plan root (answered_config srf)) f) as Hev.
  pose proof (run_success_effect (plan root (answered_config srf)) f) as Heff.
  set (r := run _ f) in *. clearbody r.
  destruct (failure r) as [e|].
  - exfalso. apply (Hdone "❌ Scaffolding failed:" e).
    rewrite !elem_of_app. right. right. right. by left.
  - split; [done|]. split; [by apply Heff|]. by rewrite (Hev eq_refl), app_nil_r.
Qed.

(** A run on a fresh disk whose plan does not throw completes. *)
Lemma fresh_run_completes (root : path) (f : FS) (srf : list response) :
  (ask question_names srf).2 = None →
  throws (plan [] (answered_config srf)) = false →
  fresh root f →
  completed (trace (launch root f srf)).
Proof.
  intros Hask Hth Hfresh. apply completed_no_error.
  destruct (launch_result root f srf) as (_ & _ & Htr).
  destruct (ask_events question_names srf) as (_ & Herr & _).
  rewrite Htr. clear Htr. unfold scaffold_result. rewrite Hask. cbn [fst snd].
  pose proof (sound_run_succeeds root _ f (plan_sound (answered_config srf)) Hth Hfresh)
    as Hok.
  rewrite <- plan_relocate in Hok.
  pose proof (run_success_events _ f Hok) as Hev.
  set (r := run _ f) in *. clearbody r. rewrite Hok, Hev.
  intros msg e. rewrite !elem_of_app.
  intros [Hin | [Hin | [Hin | Hin]]].
  - apply list_elem_of_singleton in Hin. discriminate.
  - by eapply Herr.
  - by eapply events_of_no_error.
  - inversion Hin.
Qed.

(** ** Everything declined (C2) *)

(** C2, as stated, fails: with every option declined the run still leaves
    the directory [src/navigation], which is none of the base directories
    (nor above one), none of the utility files, and not the
    configuration document. *)
Lemma navigation_directory_exists_anyway :
  ¬ only_fixed_outputs ["proj"] (fs (launch ["proj"] ∅ all_off)).
Proof.
  intros H. specialize (H ["src"; "navigation"]).
  assert (["src"; "navigation"] ∈ base_tree ∨ ["src"; "navigation"] ∈ utility_paths
          ∨ ["src"; "navigation"] = tsconfig_path) as Hcases.
  { apply H; [done|]. apply (bool_decide_eq_true_1 (is_Some _)). by vm_compute. }
  revert Hcases.
  apply (bool_decide_eq_false_1
           (["src"; "navigation"] ∈ base_tree ∨ ["src"; "navigation"] ∈ utility_paths
            ∨ ["src"; "navigation"] = tsconfig_path)).
  by vm_compute.
Qed.

Lemma all_off_plan_targets (r : path) :
  r ∈ dir_targets (plan [] (answered_config all_off))
  ∨ r ∈ write_targets (plan [] (answered_config all_off))
  ↔ r ∈ base_tree ∨ r = navigation_dir ∨ r ∈ utility_paths ∨ r = tsconfig_path.
Proof.
  rewrite <- elem_of_app.
  assert (r ∈ base_tree ∨ r = navigation_dir ∨ r ∈ utility_paths ∨ r = tsconfig_path
          ↔ r ∈ base_tree ++ [navigation_dir] ++ utility_paths ++ [tsconfig_path]) as ->.
  { rewrite !elem_of_app, !list_elem_of_singleton. tauto. }
  split; apply subset_check; by vm_compute.
Qed.

(** C2 (amended): with bottom navigation declined, storage ['None'],
    navigation setup declined and state management ['None'], a run on a
    root with nothing below it completes, and afterwards exactly these
    exist below the root: the base directories with the directories above
    them and the directory [src/navigation] (all directories), the two
    utility files and the configuration document (files with their fixed
    contents).  None of the outputs of the four conditional generators
    exists. *)
Theorem all_off_leaves_fixed_outputs (root : path) (f : FS) :
  fresh root f →
  completed (trace (launch root f all_off)) ∧
  (∀ r, r ≠ [] →
     is_Some (fs (launch root f all_off) !! (root ++ r)) ↔
     r ∈ base_tree ∨ r = navigation_dir ∨ r ∈ utility_paths ∨ r = tsconfig_path) ∧
  (∀ r, r ∈ base_tree ∨ r = navigation_dir →
     fs (launch root f all_off) !! (root ++ r) = Some Dir) ∧
  (∀ file, file ∈ utilFiles →
     fs (launch root f all_off) !! (root ++ segments (file_path file))
     = Some (File (file_content file))) ∧
  fs (launch root f all_off) !! (root ++ tsconfig_path)
  = Some (File (stringify defaultConfig 2)) ∧
  (∀ r, r ∈ conditional_outputs → fs (launch root f all_off) !! (root ++ r) = None).
Proof.
  intros Hfresh.
  assert ((ask question_names all_off).2 = None) as Hask by (by vm_compute).
  assert (throws (plan [] (answered_config all_off)) = false) as Hth by (by vm_compute).
  pose proof (fresh_run_completes root f all_off Hask Hth Hfresh) as Hdone.
  destruct (completed_run root f all_off Hask Hdone) as (_ & Hfs & Htr).
  destruct (launch_persists root f all_off) as [Hdirs Hfiles].
  assert (∀ r, r ≠ [] →
     is_Some (fs (launch root f all_off) !! (root ++ r)) ↔
     r ∈ base_tree ∨ r = navigation_dir ∨ r ∈ utility_paths ∨ r = tsconfig_path) as Hexists.
  { intros r Hr. rewrite Hfs, plan_relocate, effect_below_root by done.
    apply all_off_plan_targets. }
  assert (∀ w content,
     (w, content) ∈ written (events_of (plan [] (answered_config all_off))) →
     fs (launch root f all_off) !! (root ++ w) = Some (File content)) as Hfile.
  { intros w content Hin. apply Hfiles. rewrite Htr, !written_app, !elem_of_app.
    right. right. rewrite plan_relocate, written_events_relocate.
    apply list_elem_of_fmap. by exists (w, content). }
  split; [done|]. split; [done|]. split; [|split; [|split]].
  - intros r Hr.
    assert (r ∈ dir_targets (plan [] (answered_config all_off))) as Hin.
    { revert r Hr.
      assert (∀ r, r ∈ base_tree ++ [navigation_dir] →
                   r ∈ dir_targets (plan [] (answered_config all_off))) as Hsub.
      { apply subset_check. by vm_compute. }
      intros r Hr. apply Hsub. rewrite elem_of_app, list_elem_of_singleton. tauto. }
    apply elem_of_dir_targets in Hin as (p & Hp & Hpre).
    apply (Hdirs (root ++ p)).
    + rewrite Htr, !made_app, !elem_of_app. right. right.
      rewrite plan_relocate, made_events_relocate. apply list_elem_of_fmap.
      exists p. split; [done|]. by apply elem_of_made_events.
    + apply elem_of_prefixes_app. right. by exists r.
  - intros file Hin. apply Hfile.
    apply (subset_check (map (fun file => (segments (file_path file), file_content file))
                           utilFiles)); [by vm_compute|].
    apply list_elem_of_fmap. by exists file.
  - apply Hfile. apply (bool_decide_eq_true_1 (_ ∈ _)). by vm_compute.
  - intros r Hr.
    assert (r ≠ [] ∧ r ∉ base_tree ++ [navigation_dir] ++ utility_paths ++ [tsconfig_path])
      as [Hne Hnotin].
    { split.
      - intros ->. revert Hr. apply (bool_decide_eq_false_1 (_ ∈ _)). by vm_compute.
      - revert r Hr. apply disjoint_check. by vm_compute. }
    destruct (fs (launch root f all_off) !! (root ++ r)) as [n|] eqn:E; [|done].
    exfalso. apply Hnotin.
    assert (is_Some (fs (launch root f all_off) !! (root ++ r))) as Hsome by (by rewrite E).
    apply Hexists in Hsome; [|done].
    rewrite !elem_of_app, !list_elem_of_singleton. tauto.
Qed.

Lemma all_off_leaves_fixed_outputs_witness :
  fs (launch ["proj"] ∅ all_off) !! ["proj"; "src"; "navigation"] = Some Dir ∧
  fs (launch ["proj"] ∅ all_off) !! ["proj"; "src"; "navigation"; "RootNavigator.tsx"] = None.
Proof.
  assert (fresh ["proj"] ∅) as Hfresh.
  { split; intros; by rewrite lookup_empty. }
  split.
  - refine (proj1 (proj2 (proj2 (all_off_leaves_fixed_outputs ["proj"] ∅ Hfresh)))
              ["src"; "navigation"] _).
    right. reflexivity.
  - refine (proj2 (proj2 (proj2 (proj2 (proj2
              (all_off_leaves_fixed_outputs ["proj"] ∅ Hfresh)))))
              ["src"; "navigation"; "RootNavigator.tsx"] _).
    apply (bool_decide_eq_true_1 (_ ∈ _)). vm_compute. reflexivity.
Defined.

(** ** The files of a table choice (C3, C4) *)

Lemma written_at_under (root : path) (paths : list path) (l : list (path * string)) :
  filter (fun w => w.1 ∈ map (app root) paths) (map (under root) l)
  = map (under root) (filter (fun w => w.1 ∈ paths) l).
Proof.
  induction l as [|w l IH]; [done|]. cbn [map]. rewrite !filter_cons, IH.
  destruct (decide (w.1 ∈ paths)) as [Hin | Hnotin].
  - rewrite decide_True; [done|].
    simpl. apply list_elem_of_fmap. by exists w.1.
  - rewrite decide_False; [done|].
    simpl. intros (x & Heq & Hx)%list_elem_of_fmap.
    apply app_inv_head in Heq. by subst.
Qed.

(** In a run that completed, the files written at the given relative
    paths are those the plan writes there, and they are on the disk. *)
Lemma completed_run_written_at (root : path) (f : FS) (srf : list response)
    (paths : list path) (plans : list (list action)) (expected : list (path * string)) :
  (ask question_names srf).2 = None →
  completed (trace (launch root f srf)) →
  plan [] (answered_config srf) ∈ plans →
  forallb (fun script =>
             bool_decide (filter (fun w => w.1 ∈ paths) (written (events_of script))
                          = expected)) plans = true →
  written_at root paths (trace (launch root f srf)) = map (under root) expected ∧
  (∀ w, w ∈ expected → fs (launch root f srf) !! (root ++ w.1) = Some (File w.2)).
Proof.
  intros Hask Hdone Hplan Hcheck.
  destruct (completed_run root f srf Hask Hdone) as (_ & _ & Htr).
  destruct (launch_persists root f srf) as [_ Hfiles].
  destruct (ask_events question_names srf) as (_ & _ & _ & Hwr & _).
  apply (proj1 (forallb_elem_of _ _) Hcheck) in Hplan.
  apply bool_decide_eq_true in Hplan.
  assert (written (trace (launch root f srf))
          = map (under root) (written (events_of (plan [] (answered_config srf))))) as Hw.
  { rewrite Htr, !written_app, Hwr, plan_relocate, written_events_relocate. done. }
  split.
  - unfold written_at. by rewrite Hw, written_at_under, Hplan.
  - intros [w content] Hin. apply Hfiles. rewrite Hw. apply list_elem_of_fmap.
    exists (w, content). split; [done|]. rewrite <- Hplan in Hin.
    by apply list_elem_of_filter in Hin as [_ ?].
Qed.


Lemma ask_answers_with (a b c d : value) (rest : list response) :
  (ask question_names (answers_with a b c d rest)).2 = None.
Proof. done. Qed.

Lemma storage_files_written (root : path) (f : FS) (a c d : value) (rest : list response)
    (choice : string) (part : list action) (expected : list (path * string)) :
  completed (trace (launch root f (answers_with a (VString choice) c d rest))) →
  gated (truthy (VString choice))
    (table_script "Created storage file: " []
       (or_empty (get_property storageFiles choice))) = part →
  forallb (fun script =>
             bool_decide (filter (fun w => w.1 ∈ storage_paths) (written (events_of script))
                          = expected))
    (plans_with [part]
       (table_variants "Created state management file: " stateManagementFiles)) = true →
  written_at root storage_paths
    (trace (launch root f (answers_with a (VString choice) c d rest)))
  = map (under root) expected ∧
  (∀ w, w ∈ expected →
     fs (launch root f (answers_with a (VString choice) c d rest)) !! (root ++ w.1)
     = Some (File w.2)).
Proof.
  intros Hdone Hpart Hcheck.
  apply (completed_run_written_at root f _ storage_paths
           (plans_with [part]
              (table_variants "Created state management file: " stateManagementFiles))
           expected (ask_answers_with _ _ _ _ _) Hdone); [|exact Hcheck].
  apply plan_in_plans_with.
  - apply list_elem_of_singleton. exact Hpart.
  - apply gated_table_variant.
Qed.

Lemma state_files_written (root : path) (f : FS) (a b c : value) (rest : list response)
    (choice : string) (part : list action) (expected : list (path * string)) :
  completed (trace (launch root f (answers_with a b c (VString choice) rest))) →
  gated (truthy (VString choice))
    (table_script "Created state management file: " []
       (or_empty (get_property stateManagementFiles choice))) = part →
  forallb (fun script =>
             bool_decide (filter (fun w => w.1 ∈ state_paths) (written (events_of script))
                          = expected))
    (plans_with (table_variants "Created storage file: " storageFiles) [part]) = true →
  written_at root state_paths
    (trace (launch root f (answers_with a b c (VString choice) rest)))
  = map (under root) expected ∧
  (∀ w, w ∈ expected →
     fs (launch root f (answers_with a b c (VString choice) rest)) !! (root ++ w.1)
     = Some (File w.2)).
Proof.
  intros Hdone Hpart Hcheck.
  apply (completed_run_written_at root f _ state_paths
           (plans_with (table_variants "Created storage file: " storageFiles) [part])
           expected (ask_answers_with _ _ _ _ _) Hdone); [|exact Hcheck].
  apply plan_in_plans_with.
  - apply gated_table_variant.
  - apply list_elem_of_singleton. exact Hpart.
Qed.

(** C3: a run answered with storage ['Async Storage'] that completes has
    written exactly one of the storage files, [src/utils/asyncStorage.ts]
    under the root, with the generated async-storage class, and the file
    is there afterwards; answered with ['React Native MMKV'] it has
    written exactly [src/utils/mmkvStorage.ts] with the generated MMKV
    class.  Both classes expose the static operations [setItem],
    [getItem], [deleteItem] and [clearAll]. *)
Theorem storage_choice_writes_one_file (root : path) (f : FS) (a c d : value)
    (rest : list response) :
  (completed (trace (launch root f (answers_with a (VString "Async Storage") c d rest))) →
   written_at root storage_paths
     (trace (launch root f (answers_with a (VString "Async Storage") c d rest)))
   = [ (path_join root "src/utils/asyncStorage.ts", generateAsyncStorageContent) ] ∧
   fs (launch root f (answers_with a (VString "Async Storage") c d rest))
     !! path_join root "src/utils/asyncStorage.ts"
   = Some (File generateAsyncStorageContent)) ∧
  (completed (trace (launch root f (answers_with a (VString "React Native MMKV") c d rest))) →
   written_at root storage_paths
     (trace (launch root f (answers_with a (VString "React Native MMKV") c d rest)))
   = [ (path_join root "src/utils/mmkvStorage.ts", generateMMKVStorageContent) ] ∧
   fs (launch root f (answers_with a (VString "React Native MMKV") c d rest))
     !! path_join root "src/utils/mmkvStorage.ts"
   = Some (File generateMMKVStorageContent)) ∧
  Forall (fun name =>
            exposes_static generateAsyncStorageContent name = true ∧
            exposes_static generateMMKVStorageContent name = true)
    ["setItem"; "getItem"; "deleteItem"; "clearAll"].
Proof.
  split; [|split].
  - intros Hdone.
    destruct (storage_files_written root f a c d rest "Async Storage" _
                [(["src"; "utils"; "asyncStorage.ts"], generateAsyncStorageContent)]
                Hdone eq_refl)
      as [Hw Hfs]; [by vm_compute|].
    split; [exact Hw|].
    exact (Hfs (["src"; "utils"; "asyncStorage.ts"], generateAsyncStorageContent)
             (list_elem_of_here _ _)).
  - intros Hdone.
    destruct (storage_files_written root f a c d rest "React Native MMKV" _
                [(["src"; "utils"; "mmkvStorage.ts"], generateMMKVStorageContent)]
                Hdone eq_refl)
      as [Hw Hfs]; [by vm_compute|].
    split; [exact Hw|].
    exact (Hfs (["src"; "utils"; "mmkvStorage.ts"], generateMMKVStorageContent)
             (list_elem_of_here _ _)).
  - repeat (constructor; [split; by vm_compute|]). constructor.
Qed.

Lemma fresh_empty (root : path) : fresh root ∅.
Proof. split; intros; by rewrite lookup_empty. Qed.

Lemma storage_choice_writes_one_file_witness :
  written_at ["proj"] storage_paths
    (trace (launch ["proj"] ∅
              (answers_with (VBool false) (VString "Async Storage") (VBool false)
                 (VString "None") [])))
  = [ (["proj"; "src"; "utils"; "asyncStorage.ts"], generateAsyncStorageContent) ] ∧
  written_at ["proj"] storage_paths
    (trace (launch ["proj"] ∅
              (answers_with (VBool true) (VString "React Native MMKV") (VBool true)
                 (VString "Zustand") [])))
  = [ (["proj"; "src"; "utils"; "mmkvStorage.ts"], generateMMKVStorageContent) ].
Proof.
  split.
  - refine (proj1 (proj1 (storage_choice_writes_one_file ["proj"] ∅
              (VBool false) (VBool false) (VString "None") []) _)).
    vm_compute. reflexivity.
  - refine (proj1 (proj1 (proj2 (storage_choice_writes_one_file ["proj"] ∅
              (VBool true) (VBool true) (VString "Zustand") [])) _)).
    vm_compute. reflexivity.
Defined.

(** C4 (amended): a run answered with state management ['Redux Toolkit']
    that completes has written exactly two of the state-management files:
    the store entry point [src/store/index.ts] and the example slice
    [src/store/slices/exampleSlice.ts], in this order, and both are there
    afterwards.  The slice's counter starts at 0, and on every value
    that is a safe integer [increment] adds exactly 1 and [decrement]
    subtracts exactly 1 (nothing is clamped or refused); the Zustand
    store and the Context provider have the same contract.  Each
    generated text carries the initial value and the two updates the
    embedding renders. *)
Theorem redux_choice_writes_store_and_slice (root : path) (f : FS) (a b c : value)
    (rest : list response) :
  (completed (trace (launch root f (answers_with a b c (VString "Redux Toolkit") rest))) →
   written_at root state_paths
     (trace (launch root f (answers_with a b c (VString "Redux Toolkit") rest)))
   = [ (path_join root "src/store/index.ts", reduxStoreIndexContent);
       (path_join root "src/store/slices/exampleSlice.ts", reduxExampleSliceContent) ] ∧
   fs (launch root f (answers_with a b c (VString "Redux Toolkit") rest))
     !! path_join root "src/store/index.ts"
   = Some (File reduxStoreIndexContent) ∧
   fs (launch root f (answers_with a b c (VString "Redux Toolkit") rest))
     !! path_join root "src/store/slices/exampleSlice.ts"
   = Some (File reduxExampleSliceContent)) ∧
  counter_contract_on safe_integer ExampleSlice.State ∧
  counter_contract_on safe_integer ExampleStore.ExampleState ∧
  counter_contract_on safe_integer Z ∧
  Forall (fun text => includes reduxExampleSliceContent text = true)
    ["value: 0"; "increment: (state) => { state.value += 1; }";
     "decrement: (state) => { state.value -= 1; }"] ∧
  Forall (fun text => includes zustandExampleStoreContent text = true)
    ["value: 0"; "increment: () => set((state: any) => ({ value: state.value + 1 }))";
     "decrement: () => set((state: any) => ({ value: state.value - 1 }))"] ∧
  Forall (fun text => includes contextExampleProviderContent text = true)
    ["useState(0)"; "const increment = () => setValue((prev) => prev + 1);";
     "const decrement = () => setValue((prev) => prev - 1);"].
Proof.
  split; [|split; [|split; [|split; [|split; [|split]]]]].
  - intros Hdone.
    destruct (state_files_written root f a b c rest "Redux Toolkit" _
                [(["src"; "store"; "index.ts"], reduxStoreIndexContent);
                 (["src"; "store"; "slices"; "exampleSlice.ts"], reduxExampleSliceContent)]
                Hdone eq_refl)
      as [Hw Hfs]; [by vm_compute|].
    split; [exact Hw|]. split.
    + exact (Hfs (["src"; "store"; "index.ts"], reduxStoreIndexContent)
               (list_elem_of_here _ _)).
    + exact (Hfs (["src"; "store"; "slices"; "exampleSlice.ts"], reduxExampleSliceContent)
               (list_elem_of_further _ _ _ (list_elem_of_here _ _))).
  - apply ExampleSlice_contract.
  - apply ExampleStore_contract.
  - apply ExampleProvider_contract.
  - repeat (constructor; [by vm_compute|]). constructor.
  - repeat (constructor; [by vm_compute|]). constructor.
  - repeat (constructor; [by vm_compute|]). constructor.
Qed.

Lemma redux_choice_writes_store_and_slice_witness :
  written_at ["proj"] state_paths
    (trace (launch ["proj"] ∅
              (answers_with (VBool false) (VString "None") (VBool false)
                 (VString "Redux Toolkit") [])))
  = [ (["proj"; "src"; "store"; "index.ts"], reduxStoreIndexContent);
      (["proj"; "src"; "store"; "slices"; "exampleSlice.ts"], reduxExampleSliceContent) ] ∧
  value_of (increment {| ExampleSlice.value := 41 |}) = 42%Z ∧
  value_of (decrement {| ExampleSlice.value := (- MAX_SAFE_INTEGER)%Z |})
  = (- 2 ^ 53)%Z.
Proof.
  split; [|split].
  - refine (proj1 (proj1 (redux_choice_writes_store_and_slice ["proj"] ∅
              (VBool false) (VString "None") (VBool false) []) _)).
    vm_compute. reflexivity.
  - refine (proj1 (proj2 (proj1 (proj2 (redux_choice_writes_store_and_slice [] ∅
              (VBool false) (VString "None") (VBool false) []))))
              {| ExampleSlice.value := 41 |} _).
    unfold safe_integer, MAX_SAFE_INTEGER. simpl. lia.
  - refine (proj2 (proj2 (proj1 (proj2 (redux_choice_writes_store_and_slice [] ∅
              (VBool false) (VString "None") (VBool false) []))))
              {| ExampleSlice.value := (- MAX_SAFE_INTEGER)%Z |} _).
    unfold safe_integer, MAX_SAFE_INTEGER. simpl. lia.
Defined.

(** The other two choices write one file each. *)
Lemma zustand_and_context_files (root : path) (f : FS) (a b c : value)
    (rest : list response) :
  (completed (trace (launch root f (answers_with a b c (VString "Zustand") rest))) →
   written_at root state_paths
     (trace (launch root f (answers_with a b c (VString "Zustand") rest)))
   = [ (path_join root "src/store/zustand/exampleStore.ts", zustandExampleStoreContent) ]) ∧
  (completed (trace (launch root f (answers_with a b c (VString "Context API") rest))) →
   written_at root state_paths
     (trace (launch root f (answers_with a b c (VString "Context API") rest)))
   = [ (path_join root "src/context/providers/ExampleProvider.tsx",
        contextExampleProviderContent) ]).
Proof.
  split; intros Hdone.
  - destruct (state_files_written root f a b c rest "Zustand" _
                [(["src"; "store"; "zustand"; "exampleStore.ts"], zustandExampleStoreContent)]
                Hdone eq_refl)
      as [Hw _]; [by vm_compute|]. exact Hw.
  - destruct (state_files_written root f a b c rest "Context API" _
                [(["src"; "context"; "providers"; "ExampleProvider.tsx"],
                  contextExampleProviderContent)]
                Hdone eq_refl)
      as [Hw _]; [by vm_compute|]. exact Hw.
Qed.

(** ** Concrete runs *)

Lemma outcome_eta {A} (r : outcome A * state) (o : outcome A) : r.1 = o → r = (o, r.2).
Proof. intros <-. by destruct r. Qed.

(** A disk on which [src/utils] is a file: the run stops at the last base
    directory. *)
Lemma errors_are_caught_and_reported_witness :
  let p := {| cwd := ["proj"];
              disk := <[ ["proj"; "src"; "utils"] := File "" ]>
                        (<[ ["proj"; "src"] := Dir ]> (<[ ["proj"] := Dir ]> ∅));
              stdin := all_off |} in
  (main p).1 = 0%Z ∧
  fs (main p).2 !! ["proj"; "src"; "types"] = Some Dir ∧
  last (trace (main p).2)
  = Some (failure_line (EEXIST ["proj"; "src"; "utils"])).
Proof.
  intros p.
  pose proof (errors_are_caught_and_reported p) as (Hexit & _ & Hcaught).
  specialize (Hcaught (EEXIST ["proj"; "src"; "utils"])
                (scaffold_body (emit start_banner (constructor None p))).2).
  destruct Hcaught as (_ & Htrace & Hdirs & _).
  { apply outcome_eta. vm_compute. reflexivity. }
  split; [exact Hexit|]. split.
  - apply (Hdirs ["proj"; "src"; "types"]).
    + apply (bool_decide_eq_true_1 (_ ∈ _)). vm_compute. reflexivity.
    + apply (bool_decide_eq_true_1 (_ ∈ _)). vm_compute. reflexivity.
  - rewrite Htrace. apply last_snoc.
Defined.

Lemma parent_made_before_each_write_witness :
  let run := launch ["proj"] ∅
               (answers_with (VBool true) (VString "None") (VBool false)
                  (VString "None") []) in
  fs run !! ["proj"; "src"; "navigation"; "BottomTabNavigator.tsx"]
  = Some (File generateBottomTabContent) ∧
  fs run !! ["proj"; "src"; "navigation"] = Some Dir.
Proof.
  intros run.
  destruct (proj1 (proj2 (proj2 (proj2 (proj2
              (parent_made_before_each_write ["proj"] ∅
                 (answers_with (VBool true) (VString "None") (VBool false)
                    (VString "None") []))))))
              ["proj"; "src"; "navigation"; "BottomTabNavigator.tsx"]
              generateBottomTabContent) as [Hfile [Hroot | Hparent]].
  - apply (bool_decide_eq_true_1 (_ ∈ _)). vm_compute. reflexivity.
  - discriminate.
  - exact (conj Hfile Hparent).
Defined.

Lemma rerun_changes_nothing_witness :
  fs (launch ["proj"] (fs (launch ["proj"] ∅ all_off)) all_off)
  = fs (launch ["proj"] ∅ all_off) ∧
  step (DoMkdirp ["a"]) (mkdirp_fs ∅ ["a"]) = inr (mkdirp_fs ∅ ["a"]) ∧
  step (DoWrite ["t"] "") (write_fs ∅ ["t"] "") = inr (write_fs ∅ ["t"] "").
Proof.
  split; [|split].
  - exact (proj1 (rerun_changes_nothing ["proj"] ∅ all_off)).
  - refine (proj1 (proj2 (proj2 (rerun_changes_nothing ["proj"] ∅ all_off)))
              ["a"] ∅ (mkdirp_fs ∅ ["a"]) _).
    reflexivity.
  - refine (proj2 (proj2 (proj2 (rerun_changes_nothing ["proj"] ∅ all_off)))
              ["t"] "" ∅ (write_fs ∅ ["t"] "") _).
    reflexivity.
Defined.

(* ===================================================================== *)
(** * Part III. Further properties of the code                           *)
(* ===================================================================== *)

(** ** What a run changes, and what it leaves *)

Lemma launch_run (root : path) (f : FS) (srf : list response) :
  fs (launch root f srf) = final_fs (run (performed_script root srf) f) ∧
  made (trace (launch root f srf)) = made (events (run (performed_script root srf) f)) ∧
  written (trace (launch root f srf))
  = written (events (run (performed_script root srf) f)).
Proof.
  destruct (launch_result root f srf) as (_ & Hfs & Htr).
  destruct (ask_events question_names srf) as (_ & _ & Hmade & Hwr & _).
  rewrite Hfs, Htr. clear Hfs Htr. unfold scaffold_result, performed_script.
  set (a := ask question_names srf) in *. clearbody a.
  destruct a as [asked [e|]]; cbn [fst snd] in *.
  - rewrite !made_app, !written_app, Hmade, Hwr. done.
  - set (r := run (plan root (answered_config srf)) f). clearbody r.
    rewrite !made_app, !written_app, Hmade, Hwr.
    destruct (failure r); simpl; by rewrite ?app_nil_r.
Qed.

Lemma performed_script_sound (root : path) (srf : list response) :
  ∃ script, sound script = true ∧ performed_script root srf = map (relocate root) script.
Proof.
  unfold performed_script. destruct (ask question_names srf).2.
  - by exists [].
  - exists (plan [] (answered_config srf)). split; [apply plan_sound | apply plan_relocate].
Qed.

Lemma step_touched (a : action) (f f' : FS) (p : path) :
  step a f = inr f' → p ∉ touched (event_of a) → f' !! p = f !! p.
Proof.
  unfold touched. destruct a as [d | w c | msg | e]; simpl; [| | congruence | done].
  - destruct (mkdirp_error f d); [done|]. intros [= <-] Hp.
    rewrite lookup_mkdirp_fs, decide_False; [done|].
    intros Hin. apply Hp. unfold made. simpl. rewrite app_nil_r.
    apply elem_of_app. by left.
  - destruct (write_error f w); [done|]. intros [= <-] Hp.
    rewrite lookup_write_fs, decide_False; [done|].
    intros ->. apply Hp. unfold made, written. simpl. by left.
Qed.

Lemma touched_app (t1 t2 : list event) (p : path) :
  p ∈ touched (t1 ++ t2) ↔ p ∈ touched t1 ∨ p ∈ touched t2.
Proof.
  unfold touched. rewrite made_app, written_app, fmap_app, flat_map_app, !elem_of_app. tauto.
Qed.

(** A path the events do not report is as it was. *)
Lemma run_frame (script : list action) (f : FS) (p : path) :
  p ∉ touched (events (run script f)) → final_fs (run script f) !! p = f !! p.
Proof.
  revert f. induction script as [|a script IH]; intros f Hp; [done|].
  cbn [run] in *. destruct (step a f) as [e | f'] eqn:E; [done|]. simpl in *.
  rewrite IH.
  - eapply step_touched; [done|]. intros Hin. apply Hp, touched_app. by left.
  - intros Hin. apply Hp, touched_app. by right.
Qed.

Lemma run_keeps_dir (script : list action) (f : FS) (p : path) :
  f !! p = Some Dir → final_fs (run script f) !! p = Some Dir.
Proof.
  revert f. induction script as [|a script IH]; intros f Hp; [done|].
  cbn [run]. destruct (step a f) as [e | f'] eqn:E; [done|]. simpl.
  apply IH. by eapply step_keeps_dir.
Qed.

Lemma step_made_not_file (a : action) (f f' : FS) (p : path) (content : string) :
  step a f = inr f' → f !! p = Some (File content) →
  p ∉ flat_map prefixes (made (event_of a)).
Proof.
  destruct a as [d | w c | msg | e]; simpl; try (intros _ _ H; by inversion H).
  destruct (mkdirp_error f d) eqn:E; [done|]. intros _ Hp.
  unfold made. simpl. rewrite app_nil_r. intros Hin.
  eapply mkdirp_error_None in E; [|exact Hin]. by rewrite Hp in E.
Qed.

Lemma run_keeps_file (script : list action) (f : FS) (p : path) (content : string) :
  f !! p = Some (File content) →
  p ∉ (written (events (run script f))).*1 →
  final_fs (run script f) !! p = Some (File content).
Proof.
  revert f. induction script as [|a script IH]; intros f Hp Hw; [done|].
  cbn [run] in *. destruct (step a f) as [e | f'] eqn:E; [done|]. simpl in *.
  rewrite written_app, fmap_app in Hw. apply not_elem_of_app in Hw as [Hwa Hw].
  apply IH; [|done]. rewrite <- Hp. eapply step_touched; [done|].
  unfold touched. intros [Hin | Hin]%elem_of_app; [|done].
  by eapply step_made_not_file.
Qed.

(** X1: a run changes only what its trace reports, and deletes nothing.
    A path that is neither a directory the trace reports as made (or one
    above it) nor a file it reports as written is afterwards what it was
    before; a directory stays a directory; a file the trace does not
    report as written keeps its content. *)
Theorem run_changes_only_what_it_reports (root : path) (f : FS) (srf : list response)
    (p : path) :
  (p ∉ touched (trace (launch root f srf)) → fs (launch root f srf) !! p = f !! p) ∧
  (f !! p = Some Dir → fs (launch root f srf) !! p = Some Dir) ∧
  (∀ content,
     f !! p = Some (File content) →
     p ∉ (written (trace (launch root f srf))).*1 →
     fs (launch root f srf) !! p = Some (File content)) ∧
  (is_Some (f !! p) → is_Some (fs (launch root f srf) !! p)).
Proof.
  destruct (launch_run root f srf) as (Hfs & Hmade & Hwr).
  destruct (launch_persists root f srf) as [_ Hfiles].
  unfold touched. rewrite Hmade, Hwr in *. rewrite Hfs in *. clear Hfs Hmade.
  set (r := run (performed_script root srf) f) in *.
  split; [|split; [|split]].
  - apply run_frame.
  - apply run_keeps_dir.
  - intros content. apply run_keeps_file.
  - intros [[|content] Hp].
    + exists Dir. by apply run_keeps_dir.
    + destruct (decide (p ∈ (written (events r)).*1)) as [Hin | Hnotin].
      * apply list_elem_of_fmap in Hin as ([w c] & -> & Hin).
        exists (File c). by apply Hfiles.
      * exists (File content). by apply run_keeps_file.
Qed.

Lemma run_changes_only_what_it_reports_witness :
  let f : FS := <[ ["proj"; "App.tsx"] := File "app" ]> (<[ ["proj"] := Dir ]> ∅) in
  fs (launch ["proj"] f all_off) !! ["proj"; "App.tsx"] = Some (File "app") ∧
  fs (launch ["proj"] f all_off) !! ["elsewhere"] = None.
Proof.
  intros f. split.
  - refine (proj1 (proj2 (proj2
              (run_changes_only_what_it_reports ["proj"] f all_off ["proj"; "App.tsx"])))
              "app" _ _).
    + reflexivity.
    + apply (bool_decide_eq_true_1 (_ ∉ _)). vm_compute. reflexivity.
  - refine (proj1 (run_changes_only_what_it_reports ["proj"] f all_off ["elsewhere"]) _).
    apply (bool_decide_eq_true_1 (_ ∉ _)). vm_compute. reflexivity.
Defined.

Lemma write_targets_events (script : list action) :
  (written (events_of script)).*1 = write_targets script.
Proof.
  unfold events_of, write_targets. induction script as [|a script IH]; [done|].
  cbn [flat_map]. rewrite written_app, fmap_app, IH. by destruct a.
Qed.

Lemma dir_targets_events (script : list action) :
  flat_map prefixes (made (events_of script)) = dir_targets script.
Proof.
  unfold events_of, dir_targets. induction script as [|a script IH]; [done|].
  cbn [flat_map]. rewrite made_app, flat_map_app, IH.
  destruct a; try done. unfold made. simpl. by rewrite app_nil_r.
Qed.

Lemma write_targets_app (a b : list action) :
  write_targets (a ++ b) = write_targets a ++ write_targets b.
Proof. unfold write_targets. apply flat_map_app. Qed.

Lemma dir_targets_app (a b : list action) :
  dir_targets (a ++ b) = dir_targets a ++ dir_targets b.
Proof. unfold dir_targets. apply flat_map_app. Qed.

(** Under a root a sound script writes no path twice, writes only below
    the root, and writes no path it makes a directory. *)
Lemma sound_under_root (root : path) (script : list action) :
  sound script = true →
  NoDup (write_targets (map (relocate root) script)) ∧
  (∀ p, p ∈ write_targets (map (relocate root) script) →
        (∃ r, r ≠ [] ∧ p = root ++ r) ∧
        p ∉ dir_targets (map (relocate root) script)) ∧
  (∀ q, q ∈ dir_targets (map (relocate root) script) →
        q ∈ prefixes root ∨ ∃ r, r ≠ [] ∧ q = root ++ r).
Proof.
  intros (Hnd & Hw & _)%sound_parts. split; [|split].
  - rewrite write_targets_relocate. apply NoDup_fmap_2; [|done].
    intros x y. apply app_inv_head.
  - intros p. rewrite write_targets_relocate. intros (r & -> & Hr)%list_elem_of_fmap.
    destruct (Hw r Hr) as [Hne Hnotin]. split; [by exists r|].
    intros [Hq | (r' & Hr' & Heq)]%elem_of_dir_targets_relocate.
    + by apply (app_not_prefixes root r).
    + apply app_inv_head in Heq. by subst.
  - intros q [Hq | (r & Hr & ->)]%elem_of_dir_targets_relocate; [by left | right].
    exists r. split; [|done].
    apply elem_of_dir_targets in Hr as (p & _ & Hr). by apply elem_of_prefixes in Hr as [? _].
Qed.

(** What the events of a run report is what the performed part of the
    script targets. *)
Lemma run_reports (script : list action) (f : FS) :
  ∃ performed rest,
    script = performed ++ rest ∧
    (written (events (run script f))).*1 = write_targets performed ∧
    flat_map prefixes (made (events (run script f))) = dir_targets performed.
Proof.
  destruct (run_events_prefix script f) as (performed & rest & Hs & Hev).
  exists performed, rest. by rewrite Hev, write_targets_events, dir_targets_events.
Qed.

(** X2: a run stays under its root.  A path that is neither below the
    root nor the root or a directory above it is left as it was; the root
    and the directories above it are left as they were or, when missing,
    made directories. *)
Theorem run_stays_under_root (root : path) (f : FS) (srf : list response) (p : path) :
  (¬ root `prefix_of` p → p ∉ prefixes root → fs (launch root f srf) !! p = f !! p) ∧
  (p ∈ prefixes root →
   fs (launch root f srf) !! p = f !! p ∨
   (f !! p = None ∧ fs (launch root f srf) !! p = Some Dir)).
Proof.
  destruct (launch_run root f srf) as (Hfs & _ & _). rewrite Hfs. clear Hfs.
  destruct (performed_script_sound root srf) as (sc & Hsound & ->).
  destruct (sound_under_root root sc Hsound) as (_ & Hw & Hd).
  destruct (run_reports (map (relocate root) sc) f)
    as (performed & rest & Hs & Hwr & Hmd).
  assert (∀ q, q ∈ touched (events (run (map (relocate root) sc) f)) →
               (q ∈ prefixes root ∧ q ∈ dir_targets performed)
               ∨ ∃ r, r ≠ [] ∧ q = root ++ r) as Htouched.
  { intros q. unfold touched. rewrite Hwr, Hmd. intros [Hq | Hq]%elem_of_app.
    - destruct (Hd q) as [? | ?]; [|by left | by right].
      rewrite Hs, dir_targets_app, elem_of_app. by left.
    - right. apply (Hw q). rewrite Hs, write_targets_app, elem_of_app. by left. }
  set (r := run (map (relocate root) sc) f) in *.
  split.
  - intros Hnot Hnotpre. apply run_frame. intros [[? _] | (x & _ & ->)]%Htouched; [done|].
    apply Hnot. by exists x.
  - intros Hpre.
    destruct (decide (p ∈ touched (events r))) as [Hin | Hnotin];
      [|left; by apply run_frame].
    destruct (Htouched p Hin) as [[_ Hdir] | (x & Hx & ->)];
      [|by apply app_not_prefixes in Hpre].
    assert (final_fs r !! p = Some Dir) as Hfinal.
    { rewrite <- Hmd in Hdir. apply elem_of_flat_map in Hdir as (q & Hq & Hp).
      destruct (run_decompose (map (relocate root) sc) f (sound_consistent root sc Hsound))
        as (done' & rest' & _ & Hev & Hall & _).
      fold r in Hev, Hall. rewrite Hev in Hq. apply elem_of_made_events in Hq.
      exact (proj1 (Forall_forall _ _) Hall _ Hq p Hp). }
    destruct (f !! p) as [[|content]|] eqn:Ef.
    + left. by rewrite Hfinal.
    + exfalso. pose proof (run_keeps_file (map (relocate root) sc) f p content Ef) as Hk.
      fold r in Hk. rewrite Hk in Hfinal; [done|].
      rewrite Hwr. intros Hwp.
      assert (p ∈ write_targets (map (relocate root) sc)) as Hwp'.
      { rewrite Hs, write_targets_app, elem_of_app. by left. }
      destruct (Hw p Hwp') as [(x & Hx & ->) _]. by apply app_not_prefixes in Hpre.
    + by right.
Qed.

Lemma run_stays_under_root_witness :
  let f : FS := <[ ["home"; "notes.txt"] := File "n" ]> (<[ ["home"] := Dir ]> ∅) in
  fs (launch ["home"; "proj"] f all_off) !! ["home"; "notes.txt"] = Some (File "n").
Proof.
  intros f.
  refine (proj1 (run_stays_under_root ["home"; "proj"] f all_off ["home"; "notes.txt"]) _ _).
  - apply (bool_decide_eq_false_1 (_ `prefix_of` _)). vm_compute. reflexivity.
  - apply (bool_decide_eq_true_1 (_ ∉ _)). vm_compute. reflexivity.
Defined.

(** ** The disk stays well formed *)

Lemma dirname_in_prefixes (p q : path) :
  q ∈ prefixes p → dirname q = [] ∨ dirname q ∈ prefixes p.
Proof.
  intros [Hne Hpre]%elem_of_prefixes.
  destruct (dirname q) as [|x d] eqn:E; [by left | right].
  apply elem_of_prefixes. split; [done|]. rewrite <- E.
  etrans; [apply dirname_prefix | done].
Qed.

Lemma step_well_formed (a : action) (f f' : FS) :
  well_formed f → step a f = inr f' →
  (∀ w content, a = DoWrite w content → w ≠ []) →
  well_formed f'.
Proof.
  intros Hwf Hstep Hne p Hp.
  assert (∀ q, f !! q = Some Dir → f' !! q = Some Dir) as Hkeep.
  { intros q. by eapply step_keeps_dir. }
  assert (is_Some (f !! p) → p ≠ [] ∧ (dirname p = [] ∨ f' !! dirname p = Some Dir)) as Hold.
  { intros Hfp. destruct (Hwf p Hfp) as [? [? | Hd]]; split; auto. }
  revert Hstep Hp. clear Hkeep.
  destruct a as [d | w c | msg | e]; simpl; [| | |done].
  - destruct (mkdirp_error f d); [done|]. intros [= <-].
    rewrite lookup_mkdirp_fs. destruct (decide (p ∈ prefixes d)) as [Hin | Hnotin]; [|done].
    intros _. split; [by apply elem_of_prefixes in Hin as [? _]|].
    destruct (dirname_in_prefixes d p Hin) as [? | Hd]; [by left | right].
    by rewrite lookup_mkdirp_fs, decide_True.
  - destruct (write_error f w) eqn:E; [done|]. intros [= <-].
    apply write_error_None in E as [_ Hparent].
    rewrite lookup_write_fs. destruct (decide (w = p)) as [<- | Hneq]; [|done].
    intros _. split; [by eapply Hne|]. destruct Hparent as [? | Hd]; [by left | right].
    rewrite lookup_write_fs, decide_False; [done|].
    intros Heq. rewrite <- Heq in Hd.
    destruct (f !! w) as [[|c']|] eqn:Ew; try done.
    assert (w ≠ []) as Hw by (by eapply Hne).
    by apply (dirname_shorter w Hw).
  - by intros [= <-].
Qed.

Lemma run_well_formed (script : list action) (f : FS) :
  well_formed f → (∀ w, w ∈ write_targets script → w ≠ []) →
  well_formed (final_fs (run script f)).
Proof.
  revert f. induction script as [|a script IH]; intros f Hwf Hne; [done|].
  cbn [run]. destruct (step a f) as [e | f'] eqn:E; [done|]. simpl.
  apply IH.
  - eapply step_well_formed; [done | done |]. intros w c ->.
    apply Hne. unfold write_targets. simpl. by left.
  - intros w Hw. apply Hne. unfold write_targets in *. simpl.
    apply elem_of_app. by right.
Qed.

(** X3: a run keeps the disk well formed: if before the run everything
    that exists lies in an existing directory, so it does after the run,
    however the run ends. *)
Theorem run_keeps_disk_well_formed (root : path) (f : FS) (srf : list response) :
  well_formed f → well_formed (fs (launch root f srf)).
Proof.
  intros Hwf. destruct (launch_run root f srf) as (-> & _ & _).
  destruct (performed_script_sound root srf) as (sc & Hsound & ->).
  destruct (sound_under_root root sc Hsound) as (_ & Hw & _).
  apply run_well_formed; [done|].
  intros w Hin ->. destruct (Hw [] Hin) as [(r & Hr & Heq) _].
  symmetry in Heq. apply app_eq_nil in Heq as [_ ?]. done.
Qed.

Lemma run_keeps_disk_well_formed_witness :
  well_formed (fs (launch ["proj"] ∅ all_off)).
Proof.
  apply (run_keeps_disk_well_formed ["proj"] ∅ all_off).
  intros p [n Hp]. by rewrite lookup_empty in Hp.
Defined.

(** X4: within one run no file is written twice, and no path is both
    written as a file and made a directory (or lies above one that is
    made). *)
Theorem no_path_written_twice (root : path) (f : FS) (srf : list response) :
  NoDup (written (trace (launch root f srf))).*1 ∧
  (∀ p, p ∈ (written (trace (launch root f srf))).*1 →
        p ∉ flat_map prefixes (made (trace (launch root f srf)))).
Proof.
  destruct (launch_run root f srf) as (_ & -> & ->).
  destruct (performed_script_sound root srf) as (sc & Hsound & ->).
  destruct (sound_under_root root sc Hsound) as (Hnd & Hw & _).
  destruct (run_reports (map (relocate root) sc) f)
    as (performed & rest & Hs & -> & ->).
  rewrite Hs, write_targets_app in Hnd. apply NoDup_app in Hnd as (Hnd & _ & _).
  split; [done|]. intros p Hp Hd.
  destruct (Hw p) as [_ Hnot].
  - rewrite Hs, write_targets_app, elem_of_app. by left.
  - apply Hnot. rewrite Hs, dir_targets_app, elem_of_app. by left.
Qed.

Lemma no_path_written_twice_witness :
  NoDup (written (trace (launch ["proj"] ∅ all_off))).*1 ∧
  ["proj"; "tsconfig.json"] ∉ flat_map prefixes (made (trace (launch ["proj"] ∅ all_off))).
Proof.
  split.
  - exact (proj1 (no_path_written_twice ["proj"] ∅ all_off)).
  - apply (proj2 (no_path_written_twice ["proj"] ∅ all_off)).
    apply (bool_decide_eq_true_1 (_ ∈ _)). vm_compute. reflexivity.
Defined.

(** ** Every configuration the prompts can produce *)

Lemma answers_confirm (q : question) (v : value) :
  qtype q = confirm → answers q v → v ∈ [VBool true; VBool false].
Proof.
  unfold answers. intros -> [[|] ->]; [by left | right; by left].
Qed.

Lemma answers_list (q : question) (v : value) :
  qtype q = list_choice → answers q v → v ∈ map VString (qchoices q).
Proof.
  unfold answers. intros -> (c & Hc & ->). by apply list_elem_of_fmap_2.
Qed.

Lemma answers_selectable (a b c d : value) :
  answers bottomNav_question a → answers storageType_question b →
  answers navigationSetup_question c → answers stateManagement_question d →
  {| bottomNavigation := a; storageType := b;
     navigationSetup := c; stateManagement := d |} ∈ selectable_configs.
Proof.
  intros Ha Hb Hc Hd. unfold selectable_configs.
  apply list_elem_of_bind. exists a. split; [|by apply (answers_confirm bottomNav_question)].
  apply list_elem_of_bind. exists b. split; [|by apply answers_list].
  apply list_elem_of_bind. exists c.
  split; [|by apply (answers_confirm navigationSetup_question)].
  apply list_elem_of_bind. exists d. split; [|by apply answers_list].
  by left.
Qed.

Lemma selectable_plans_do_not_throw (c : Config) :
  c ∈ selectable_configs → throws (plan [] c) = false.
Proof.
  intros Hc.
  assert (forallb (fun c => negb (throws (plan [] c))) selectable_configs = true) as Hall.
  { vm_compute. reflexivity. }
  apply (proj1 (forallb_elem_of _ _) Hall) in Hc. by apply negb_true_iff in Hc.
Qed.

(** X5: whatever the operator answers to the four prompts (a boolean to
    each confirmation, one of the listed choices to each list), the run
    completes on a root with nothing below it: none of the 48
    configurations fails on a fresh root. *)
Theorem every_selectable_configuration_completes (root : path) (f : FS)
    (a b c d : value) (rest : list response) :
  answers bottomNav_question a → answers storageType_question b →
  answers navigationSetup_question c → answers stateManagement_question d →
  fresh root f →
  completed (trace (launch root f (answers_with a b c d rest))).
Proof.
  intros Ha Hb Hc Hd Hfresh. apply fresh_run_completes; [done | | done].
  apply selectable_plans_do_not_throw.
  by apply (answers_selectable a b c d).
Qed.

Lemma every_selectable_configuration_completes_witness :
  completed (trace (launch ["proj"] ∅
    (answers_with (VBool true) (VString "React Native MMKV") (VBool true)
       (VString "Context API") []))).
Proof.
  apply (every_selectable_configuration_completes ["proj"] ∅).
  - exists true. reflexivity.
  - exists "React Native MMKV". split; [|reflexivity].
    apply (bool_decide_eq_true_1 (_ ∈ _)). vm_compute. reflexivity.
  - exists true. reflexivity.
  - exists "Context API". split; [|reflexivity].
    apply (bool_decide_eq_true_1 (_ ∈ _)). vm_compute. reflexivity.
  - apply fresh_empty.
Defined.

Lemma selectable_plan_targets (c : Config) (r : path) :
  c ∈ selectable_configs →
  r ∈ dir_targets (plan [] c) ∨ r ∈ write_targets (plan [] c)
  ↔ r ∈ base_tree ∨ r = navigation_dir ∨ r ∈ utility_paths ∨ r = tsconfig_path
    ∨ r ∈ chosen_outputs c.
Proof.
  intros Hc. rewrite <- elem_of_app.
  assert (r ∈ base_tree ∨ r = navigation_dir ∨ r ∈ utility_paths ∨ r = tsconfig_path
          ∨ r ∈ chosen_outputs c
          ↔ r ∈ base_tree ++ [navigation_dir] ++ utility_paths ++ [tsconfig_path]
                ++ chosen_outputs c) as ->.
  { rewrite !elem_of_app, !list_elem_of_singleton. tauto. }
  assert (forallb (fun c =>
            forallb (fun x => bool_decide
                       (x ∈ base_tree ++ [navigation_dir] ++ utility_paths
                            ++ [tsconfig_path] ++ chosen_outputs c))
              (dir_targets (plan [] c) ++ write_targets (plan [] c))
            && forallb (fun x => bool_decide
                          (x ∈ dir_targets (plan [] c) ++ write_targets (plan [] c)))
                 (base_tree ++ [navigation_dir] ++ utility_paths
                    ++ [tsconfig_path] ++ chosen_outputs c))
            selectable_configs = true) as Hall.
  { vm_compute. reflexivity. }
  apply (proj1 (forallb_elem_of _ _) Hall) in Hc.
  apply andb_true_iff in Hc as [H1 H2].
  split; intros Hr; [exact (subset_check _ _ H1 r Hr) | exact (subset_check _ _ H2 r Hr)].
Qed.

(** X6: for each configuration the prompts can produce, after a run on a
    root with nothing below it, what exists below the root is exactly:
    the base directories with those above them, [src/navigation], the two
    utility files, the configuration document, and for each generator
    that was chosen its files and directories with the directories above
    them.  So an output of a conditional generator exists if and only if
    the generator was chosen. *)
Theorem tree_after_a_run (root : path) (f : FS) (a b c d : value)
    (rest : list response) (r : path) :
  answers bottomNav_question a → answers storageType_question b →
  answers navigationSetup_question c → answers stateManagement_question d →
  fresh root f → r ≠ [] →
  is_Some (fs (launch root f (answers_with a b c d rest)) !! (root ++ r)) ↔
  r ∈ base_tree ∨ r = navigation_dir ∨ r ∈ utility_paths ∨ r = tsconfig_path
  ∨ r ∈ chosen_outputs {| bottomNavigation := a; storageType := b;
                          navigationSetup := c; stateManagement := d |}.
Proof.
  intros Ha Hb Hc Hd Hfresh Hr.
  pose proof (answers_selectable a b c d Ha Hb Hc Hd) as Hsel.
  pose proof (fresh_run_completes root f (answers_with a b c d rest)
                (ask_answers_with _ _ _ _ _)
                (selectable_plans_do_not_throw _ Hsel) Hfresh) as Hdone.
  destruct (completed_run root f _ (ask_answers_with a b c d rest) Hdone) as (_ & -> & _).
  change (answered_config (answers_with a b c d rest))
    with {| bottomNavigation := a; storageType := b;
            navigationSetup := c; stateManagement := d |}.
  rewrite plan_relocate, effect_below_root by done.
  by apply selectable_plan_targets.
Qed.

Lemma tree_after_a_run_witness :
  is_Some (fs (launch ["proj"] ∅
                 (answers_with (VBool false) (VString "None") (VBool false)
                    (VString "Redux Toolkit") []))
           !! (["proj"] ++ ["src"; "store"; "slices"])) ∧
  ¬ is_Some (fs (launch ["proj"] ∅
                   (answers_with (VBool false) (VString "None") (VBool false)
                      (VString "Redux Toolkit") []))
             !! (["proj"] ++ ["src"; "store"; "zustand"])).
Proof.
  assert (answers bottomNav_question (VBool false)) as Ha by (by exists false).
  assert (answers storageType_question (VString "None")) as Hb.
  { exists "None". split; [|reflexivity].
    apply (bool_decide_eq_true_1 (_ ∈ _)). vm_compute. reflexivity. }
  assert (answers navigationSetup_question (VBool false)) as Hc by (by exists false).
  assert (answers stateManagement_question (VString "Redux Toolkit")) as Hd.
  { exists "Redux Toolkit". split; [|reflexivity].
    apply (bool_decide_eq_true_1 (_ ∈ _)). vm_compute. reflexivity. }
  pose proof (fresh_empty ["proj"]) as Hfresh.
  split.
  - apply (proj2 (tree_after_a_run ["proj"] ∅ _ _ _ _ [] ["src"; "store"; "slices"]
                    Ha Hb Hc Hd Hfresh ltac:(discriminate))).
    do 4 right. apply (bool_decide_eq_true_1 (_ ∈ _)). vm_compute. reflexivity.
  - intros H.
    apply (proj1 (tree_after_a_run ["proj"] ∅ _ _ _ _ [] ["src"; "store"; "zustand"]
                    Ha Hb Hc Hd Hfresh ltac:(discriminate))) in H.
    revert H. apply (bool_decide_eq_false_1 (_ ∨ _)). vm_compute. reflexivity.
Defined.

(** ** The fixed files *)

Lemma completed_asked (root : path) (f : FS) (srf : list response) :
  completed (trace (launch root f srf)) → (ask question_names srf).2 = None.
Proof.
  intros Hdone. pose proof (proj1 (completed_no_error _) Hdone) as Hno.
  destruct (launch_result root f srf) as (_ & _ & Htr). rewrite Htr in Hno.
  unfold scaffold_result in Hno.
  destruct (ask question_names srf).2 as [e|]; [|done]. exfalso.
  apply (Hno "❌ Scaffolding failed:" e). cbn [snd].
  rewrite !elem_of_app. right. right. by left.
Qed.

Lemma plan_writes_fixed_files (root : path) (c : Config) :
  DoWrite (path_join root "tsconfig.json") (stringify defaultConfig 2) ∈ plan root c ∧
  (∀ file, file ∈ utilFiles →
     DoWrite (path_join root (file_path file)) (file_content file) ∈ plan root c).
Proof.
  unfold plan. split.
  - rewrite !elem_of_app. do 7 right. left. unfold tsconfig_script. by left.
  - intros file Hfile. rewrite !elem_of_app. do 6 right. left.
    unfold utility_script. apply elem_of_flat_map. exists file. split; [done|].
    unfold file_script. right. by left.
Qed.

(** X7: a run that completes leaves [tsconfig.json] with the generated
    document and the two utility files with their placeholders, whatever
    was at these paths before: an existing [tsconfig.json] is replaced,
    not merged. *)
Theorem completed_run_replaces_fixed_files (root : path) (f : FS) (srf : list response) :
  completed (trace (launch root f srf)) →
  fs (launch root f srf) !! path_join root "tsconfig.json"
  = Some (File (stringify defaultConfig 2)) ∧
  (∀ file, file ∈ utilFiles →
     fs (launch root f srf) !! path_join root (file_path file)
     = Some (File (file_content file))).
Proof.
  intros Hdone. pose proof (completed_asked root f srf Hdone) as Hask.
  destruct (completed_run root f srf Hask Hdone) as (_ & _ & Htr).
  destruct (launch_persists root f srf) as [_ Hfiles].
  destruct (plan_writes_fixed_files root (answered_config srf)) as [Hts Hutil].
  assert (∀ w content, DoWrite w content ∈ plan root (answered_config srf) →
                       fs (launch root f srf) !! w = Some (File content)) as Hwritten.
  { intros w content Hin. apply Hfiles. rewrite Htr, !written_app, !elem_of_app.
    right. right. by apply elem_of_written_events. }
  split; [by apply Hwritten|]. intros file Hfile. by apply Hwritten, Hutil.
Qed.

Lemma completed_run_replaces_fixed_files_witness :
  let f : FS := <[ ["proj"; "tsconfig.json"] := File "my own settings" ]>
                  (<[ ["proj"] := Dir ]> ∅) in
  fs (launch ["proj"] f all_off) !! path_join ["proj"] "tsconfig.json"
  = Some (File (stringify defaultConfig 2)).
Proof.
  intros f.
  refine (proj1 (completed_run_replaces_fixed_files ["proj"] f all_off _)).
  vm_compute. reflexivity.
Defined.

(** ** A root that cannot be made *)

Lemma plan_starts_with_mkdirp (c : Config) :
  ∃ rest, plan [] c = DoMkdirp ["src"; "assets"; "fonts"] :: rest.
Proof.
  unfold plan, base_script, baseDirectories. cbn [flat_map app].
  change (path_join [] "src/assets/fonts") with ["src"; "assets"; "fonts"].
  eexists. reflexivity.
Qed.

(** X8: when [src] under the root, the root itself, or a directory above
    it is a file, a run that got its four answers fails at its first
    step: it reports an error, makes no directory, writes no file and
    leaves the disk as it was. *)
Theorem blocked_root_changes_nothing (root : path) (f : FS) (a b c d : value)
    (rest : list response) (q : path) :
  q ∈ prefixes (root ++ ["src"]) → is_file (f !! q) = true →
  fs (launch root f (answers_with a b c d rest)) = f ∧
  made (trace (launch root f (answers_with a b c d rest))) = [] ∧
  written (trace (launch root f (answers_with a b c d rest))) = [] ∧
  ∃ e, last (trace (launch root f (answers_with a b c d rest))) = Some (failure_line e).
Proof.
  intros Hq Hfile.
  destruct (launch_run root f (answers_with a b c d rest)) as (Hfs & Hmade & Hwr).
  destruct (launch_result root f (answers_with a b c d rest)) as (_ & _ & Htr).
  rewrite Hfs, Hmade, Hwr, Htr. clear Hfs Hmade Hwr Htr.
  unfold performed_script, scaffold_result. rewrite ask_answers_with. cbn [snd].
  change (answered_config (answers_with a b c d rest))
    with {| bottomNavigation := a; storageType := b;
            navigationSetup := c; stateManagement := d |}.
  rewrite plan_relocate.
  destruct (plan_starts_with_mkdirp
              {| bottomNavigation := a; storageType := b;
                 navigationSetup := c; stateManagement := d |}) as (tl & ->).
  cbn [map relocate run step].
  destruct (mkdirp_error f (root ++ ["src"; "assets"; "fonts"])) as [e|] eqn:E.
  - cbn [failure final_fs events]. repeat split; try done.
    exists e. rewrite app_nil_l, app_assoc. apply last_snoc.
  - exfalso. eapply mkdirp_error_None in E.
    + by rewrite Hfile in E.
    + apply elem_of_prefixes in Hq as [Hne Hpre]. apply elem_of_prefixes.
      split; [done|]. etrans; [exact Hpre|].
      apply prefix_app. by exists ["assets"; "fonts"].
Qed.

Lemma blocked_root_changes_nothing_witness :
  let f : FS := <[ ["proj"] := File "not a directory" ]> ∅ in
  fs (launch ["proj"] f all_off) = f.
Proof.
  intros f.
  refine (proj1 (blocked_root_changes_nothing ["proj"] f (VBool false) (VString "None")
                   (VBool false) (VString "None") [] ["proj"] _ _)).
  - apply (bool_decide_eq_true_1 (_ ∈ _)). vm_compute. reflexivity.
  - reflexivity.
Defined.

(** ** The configuration a run works with *)

Lemma collect_options_answers (s : state) (a b c d : value) (rest : list response) :
  surface s = answers_with a b c d rest →
  collect_options s
  = (Ok tt,
     {| rootPath := rootPath s;
        config := {| bottomNavigation := a; storageType := b;
                     navigationSetup := c; stateManagement := d |};
        fs := fs s; surface := rest;
        trace := trace s ++ [ Prompted "bottomNav" a; Prompted "storageType" b;
                              Prompted "navigationSetup" c;
                              Prompted "stateManagement" d ] |}).
Proof.
  destruct s as [root cfg f srf tr]. unfold answers_with.
  cbn [surface rootPath fs trace]. intros ->.
  unfold collect_options, promptBottomNavigation, promptStorageSetup,
    promptNavigationSetup, promptStateManagement, inquirer_prompt, mbind, M_bind,
    modify, set_config, set_surface, emit.
  cbn [surface rootPath fs trace config bottomNavigation storageType navigationSetup
       stateManagement qname bottomNav_question storageType_question
       navigationSetup_question stateManagement_question].
  rewrite <- !app_assoc. reflexivity.
Qed.

Lemma scaffold_answers (s : state) (a b c d : value) (rest : list response) :
  surface s = answers_with a b c d rest →
  config (scaffold s).2
  = {| bottomNavigation := a; storageType := b;
       navigationSetup := c; stateManagement := d |} ∧
  surface (scaffold s).2 = rest.
Proof.
  intros Hsrf. remember (scaffold s) as out eqn:E.
  unfold scaffold, scaffold_body, try_catch in E.
  unfold mbind at 1, M_bind at 1 in E. unfold console_log at 1, modify at 1 in E.
  set (s0 := emit _ s) in E.
  unfold mbind at 1, M_bind at 1 in E.
  rewrite (collect_options_answers s0 a b c d rest Hsrf) in E.
  rewrite generate_plan, perform_all_run in E. unfold settle in E.
  cbn [rootPath config fs trace surface] in E.
  set (r := run _ _) in E. clearbody r.
  destruct (failure r); subst out; by cbn.
Qed.

(** X9: a run whose four prompts are answered works with exactly these
    answers: each is stored in its own field of the configuration, no
    later prompt and no generator changes it, and what the surface holds
    beyond the four answers is left unread: the run prompts four times,
    once for each question and in their order. *)
Theorem answers_become_the_configuration (root : path) (f : FS) (a b c d : value)
    (rest : list response) :
  config (launch root f (answers_with a b c d rest))
  = {| bottomNavigation := a; storageType := b;
       navigationSetup := c; stateManagement := d |} ∧
  surface (launch root f (answers_with a b c d rest)) = rest ∧
  prompt_names (trace (launch root f (answers_with a b c d rest))) = question_names.
Proof.
  destruct (scaffold_answers
              (constructor (Some root)
                 {| cwd := root; disk := f; stdin := answers_with a b c d rest |})
              a b c d rest eq_refl) as [Hconfig Hsurface].
  split; [exact Hconfig|]. split; [exact Hsurface|]. clear Hconfig Hsurface.
  destruct (launch_result root f (answers_with a b c d rest)) as (_ & _ & ->).
  unfold scaffold_result. rewrite ask_answers_with. cbn [fst snd].
  set (r := run _ f).
  destruct (run_events_prefix (plan root (answered_config (answers_with a b c d rest))) f)
    as (performed & tl & _ & Hev).
  fold r in Hev. clearbody r.
  rewrite !prompt_names_app, Hev, events_of_no_prompt.
  by destruct (failure r).
Qed.

(** ** One run after another *)

Lemma NoDup_fst_functional {A B} (l : list (A * B)) (x : A) (y1 y2 : B) :
  NoDup (l.*1) → (x, y1) ∈ l → (x, y2) ∈ l → y1 = y2.
Proof.
  induction l as [|[a b] l IH]; intros Hnd H1 H2; [inversion H1|].
  cbn [fmap list_fmap fst] in Hnd. apply NoDup_cons in Hnd as [Hnotin Hnd].
  apply elem_of_cons in H1 as [H1 | H1]; apply elem_of_cons in H2 as [H2 | H2].
  - congruence.
  - inversion H1; subst. exfalso. apply Hnotin. apply list_elem_of_fmap.
    eexists (_, _). split; [|eassumption]. done.
  - inversion H2; subst. exfalso. apply Hnotin. apply list_elem_of_fmap.
    eexists (_, _). split; [|eassumption]. done.
  - by apply IH.
Qed.

(** Each path the scaffolder can write has one content, whatever the
    configuration. *)
Lemma all_writes_functional (r : path) (c1 c2 : string) :
  (r, c1) ∈ all_writes → (r, c2) ∈ all_writes → c1 = c2.
Proof.
  apply NoDup_fst_functional.
  apply (bool_decide_eq_true_1 (NoDup (all_writes.*1))). by vm_compute.
Qed.

Lemma written_in_all_writes (root : path) (f : FS) (srf : list response)
    (p : path) (content : string) :
  (p, content) ∈ written (trace (launch root f srf)) →
  ∃ r, p = root ++ r ∧ (r, content) ∈ all_writes.
Proof.
  destruct (launch_run root f srf) as (_ & _ & ->). unfold performed_script.
  destruct (ask question_names srf).2 as [e|]; [intros H; inversion H|].
  destruct (run_events_prefix (plan root (answered_config srf)) f)
    as (performed & tl & Hplan & ->).
  intros Hin.
  assert ((p, content) ∈ written (events_of (plan root (answered_config srf)))) as Hall.
  { rewrite Hplan, events_of_app, written_app, elem_of_app. by left. }
  rewrite plan_relocate, written_events_relocate in Hall.
  apply list_elem_of_fmap in Hall as ([r c] & [= -> ->] & Hw).
  exists r. split; [done|]. unfold all_writes. apply elem_of_remove_dups.
  apply elem_of_flat_map. exists (plan [] (answered_config srf)).
  split; [apply plan_in_all_plans | done].
Qed.

(** X10: a file a run has written is still there, with the content that
    run gave it, after any later run on the same root, whatever is
    answered then and whether or not the later run completes: other
    choices add files, they never change or remove those of an earlier
    run. *)
Theorem later_run_keeps_earlier_files (root : path) (f : FS) (srf1 srf2 : list response)
    (p : path) (content : string) :
  (p, content) ∈ written (trace (launch root f srf1)) →
  fs (launch root (fs (launch root f srf1)) srf2) !! p = Some (File content).
Proof.
  intros Hfirst.
  pose proof (proj2 (launch_persists root f srf1) p content Hfirst) as Hthere.
  set (f1 := fs (launch root f srf1)) in *. clearbody f1.
  destruct (decide (p ∈ (written (trace (launch root f1 srf2))).*1)) as [Hin | Hnotin].
  - apply list_elem_of_fmap in Hin as ([p' content'] & Hp & Hin). simpl in Hp. subst p'.
    rewrite (proj2 (launch_persists root f1 srf2) p content' Hin). do 2 f_equal.
    apply written_in_all_writes in Hfirst as (r1 & -> & Hw1).
    apply written_in_all_writes in Hin as (r2 & Heq & Hw2).
    apply app_inv_head in Heq. subst r2.
    exact (all_writes_functional r1 content' content Hw2 Hw1).
  - destruct (launch_run root f1 srf2) as (Hfs & _ & Hwr).
    rewrite Hfs. rewrite Hwr in Hnotin. by apply run_keeps_file.
Qed.

Lemma later_run_keeps_earlier_files_witness :
  fs (launch ["proj"]
        (fs (launch ["proj"] ∅
               (answers_with (VBool false) (VString "React Native MMKV") (VBool false)
                  (VString "None") [])))
        all_off)
  !! ["proj"; "src"; "utils"; "mmkvStorage.ts"]
  = Some (File generateMMKVStorageContent).
Proof.
  apply later_run_keeps_earlier_files.
  apply (bool_decide_eq_true_1 (_ ∈ _)). vm_compute. reflexivity.
Defined.

(** ** How a run ends *)

Lemma elem_of_log_events (script : list action) (msg : string) :
  ConsoleLog msg ∈ events_of script ↔ DoLog msg ∈ script.
Proof.
  induction script as [|a script IH].
  - split; intros H; inversion H.
  - unfold events_of in *. cbn [flat_map]. rewrite elem_of_app, elem_of_cons, IH.
    destruct a as [d | w c | m | e]; simpl.
    + rewrite list_elem_of_singleton. split; intros [H | H]; try discriminate; auto.
    + rewrite list_elem_of_singleton. split; intros [H | H]; try discriminate; auto.
    + rewrite list_elem_of_singleton.
      split; (intros [H | H]; [left; congruence | by right]).
    + split; intros [H | H]; try discriminate; auto. inversion H.
Qed.

Lemma elem_of_log_relocate (root : path) (script : list action) (msg : string) :
  DoLog msg ∈ map (relocate root) script ↔ DoLog msg ∈ script.
Proof.
  rewrite list_elem_of_fmap. split.
  - intros (a & Ha & Hin). destruct a; simpl in Ha; try discriminate.
    by injection Ha as ->.
  - intros Hin. by exists (DoLog msg).
Qed.

Lemma ask_no_log (names : list string) (srf : list response) (msg : string) :
  ConsoleLog msg ∉ (ask names srf).1.
Proof.
  revert srf. induction names as [|name names IH]; intros srf; [apply not_elem_of_nil|].
  destruct srf as [|[v|e] srf]; simpl; try apply not_elem_of_nil.
  intros [H | H]%elem_of_cons; [discriminate | by eapply IH].
Qed.

(** The success banner is the last action of every plan, and only the
    last. *)
Lemma plan_ends_with_banner (root : path) (c : Config) :
  ∃ front,
    plan root c = front ++ [DoLog "✅ Project structure created successfully!"] ∧
    success_banner ∉ events_of front.
Proof.
  assert (forallb (fun script =>
            match reverse script with
            | DoLog msg :: front =>
                String.eqb msg "✅ Project structure created successfully!"
                && negb (existsb (fun a => match a with
                                           | DoLog m =>
                                               String.eqb m "✅ Project structure created successfully!"
                                           | _ => false
                                           end) front)
            | _ => false
            end) all_plans = true) as Hall by (by vm_compute).
  pose proof (proj1 (forallb_elem_of _ _) Hall _ (plan_in_all_plans c)) as Hc.
  clear Hall. cbv beta in Hc. rewrite plan_relocate.
  destruct (reverse (plan [] c)) as [|[d | w content | msg | e] front] eqn:Hrev; try done.
  apply andb_true_iff in Hc as [Hmsg Hfront]. apply String.eqb_eq in Hmsg. subst msg.
  assert (plan [] c = reverse front ++ [DoLog "✅ Project structure created successfully!"])
    as ->.
  { rewrite <- (reverse_involutive (plan [] c)), Hrev. by rewrite reverse_cons. }
  exists (map (relocate root) (reverse front)). split; [by rewrite map_app|].
  unfold success_banner. rewrite elem_of_log_events, elem_of_log_relocate, elem_of_reverse.
  intros Hin. apply negb_true_iff in Hfront.
  assert (existsb (fun a => match a with
                            | DoLog m =>
                                String.eqb m "✅ Project structure created successfully!"
                            | _ => false
                            end) front = true) as Hex.
  { apply existsb_exists. exists (DoLog "✅ Project structure created successfully!").
    split; [by apply list_elem_of_In | by apply String.eqb_eq]. }
  congruence.
Qed.

Lemma app_snoc_prefix {A} (front performed rest : list A) (x a : A) :
  front ++ [x] = performed ++ a :: rest → ∃ l, front = performed ++ l.
Proof.
  destruct (exists_last (l := a :: rest) ltac:(discriminate)) as (l & y & ->).
  rewrite app_assoc. intros [-> _]%app_inj_tail. by exists l.
Qed.

(** X11: on a surface that settles every prompt it is asked, a run ends
    in one of two ways.  When it completed, the success banner is its
    last line and is printed nowhere before; when it did not, its last
    line is the failure line and the success banner is printed nowhere:
    the banner is never seen together with an error. *)
Theorem banner_tells_outcome (root : path) (f : FS) (srf : list response) :
  responsive question_names srf = true →
  (completed (trace (launch root f srf)) →
   ∃ front, trace (launch root f srf) = front ++ [success_banner] ∧
            success_banner ∉ front) ∧
  (¬ completed (trace (launch root f srf)) →
   (success_banner ∉ trace (launch root f srf)) ∧
   ∃ e, last (trace (launch root f srf)) = Some (failure_line e)).
Proof.
  intros _.
  assert (∀ e tr, ¬ completed (tr ++ [failure_line e])) as Hfailed.
  { intros e tr Hdone. pose proof (proj1 (completed_no_error _) Hdone) as Hno.
    apply (Hno "❌ Scaffolding failed:" e). rewrite elem_of_app. right. by left. }
  destruct (launch_result root f srf) as (_ & _ & ->). unfold scaffold_result.
  pose proof (ask_no_log question_names srf) as Hasked.
  destruct (ask_events question_names srf) as (_ & Herr & _).
  destruct (ask question_names srf) as [asked [e|]]; cbn [fst snd] in *.
  { split.
    - intros Hdone. exfalso. apply (Hfailed e ([start_banner] ++ asked)).
      by rewrite <- app_assoc.
    - intros _. split; [|exists e; by rewrite !app_assoc, last_snoc].
      rewrite !elem_of_app, !list_elem_of_singleton.
      intros [H | [H | H]]; [discriminate | by eapply Hasked | discriminate]. }
  destruct (plan_ends_with_banner root (answered_config srf)) as (front & Hplan & Hfront).
  destruct (run_decompose _ f (plan_consistent root (answered_config srf)))
    as (performed & rest & Hsplit & Hev & _ & Hstop).
  set (r := run _ f) in *. clearbody r. rewrite Hev. clear Hev.
  destruct (failure r) as [e|].
  - destruct Hstop as (a & rest' & -> & _). split.
    + intros Hdone. exfalso.
      apply (Hfailed e ([start_banner] ++ asked ++ events_of performed)).
      by rewrite <- !app_assoc.
    + intros _. split; [|exists e; by rewrite !app_assoc, last_snoc].
      rewrite Hplan in Hsplit. apply app_snoc_prefix in Hsplit as (l & ->).
      rewrite !elem_of_app, !list_elem_of_singleton.
      intros [H | [H | [H | H]]]; [discriminate | by eapply Hasked | | discriminate].
      apply Hfront. rewrite events_of_app, elem_of_app. by left.
  - subst rest. rewrite app_nil_r in Hsplit. subst performed. rewrite Hplan.
    rewrite events_of_app, app_nil_r.
    change (events_of [DoLog "✅ Project structure created successfully!"])
      with [success_banner].
    assert (success_banner ∉ [start_banner] ++ asked ++ events_of front) as Hnot.
    { rewrite !elem_of_app, list_elem_of_singleton.
      intros [H | [H | H]]; [discriminate | by eapply Hasked | done]. }
    split.
    + intros _. exists ([start_banner] ++ asked ++ events_of front).
      split; [by rewrite <- !app_assoc | done].
    + intros Hnotdone. exfalso. apply Hnotdone. apply (proj2 (completed_no_error _)).
      intros msg e. rewrite !elem_of_app, !list_elem_of_singleton.
      intros [H | [H | [H | H]]]; try discriminate.
      * by eapply Herr.
      * by eapply events_of_no_error.
Qed.

Lemma banner_tells_outcome_witness :
  (∃ front, trace (launch ["proj"] ∅ all_off) = front ++ [success_banner] ∧
            success_banner ∉ front) ∧
  success_banner ∉ trace (launch ["proj"] (<[ ["proj"] := File "taken" ]> ∅) all_off).
Proof.
  split.
  - apply (proj1 (banner_tells_outcome ["proj"] ∅ all_off eq_refl)).
    vm_compute. reflexivity.
  - apply (proj2 (banner_tells_outcome ["proj"] (<[ ["proj"] := File "taken" ]> ∅) all_off
                    eq_refl)).
    vm_compute. discriminate.
Defined.

(** ** The generators called on their own *)

(** A method whose script is sound and raises nothing succeeds on a root
    with nothing below it. *)
Lemma alone_succeeds (m : M unit) (script : path → Config → list action) (s : state) :
  performs m script →
  script (rootPath s) (config s) = map (relocate (rootPath s)) (script [] (config s)) →
  sound (script [] (config s)) = true →
  throws (script [] (config s)) = false →
  fresh (rootPath s) (fs s) →
  (m s).1 = Ok tt.
Proof.
  intros Hm Hrel Hsound Hth Hfresh. rewrite Hm, perform_all_run, Hrel. unfold settle.
  cbn [fst]. by rewrite (sound_run_succeeds _ _ _ Hsound Hth Hfresh).
Qed.

Lemma table_variants_sound (label : string) (table : list (string * list FileSpec))
    (key : string) :
  forallb sound (table_variants label table) = true →
  sound (table_script label [] (or_empty (get_property table key))) = true.
Proof.
  intros Hall.
  exact (proj1 (forallb_elem_of _ _) Hall _ (table_script_variant label table key)).
Qed.

Lemma storage_answer_does_not_throw (c : Config) :
  answers storageType_question (storageType c) → throws (storage_script [] c) = false.
Proof.
  intros (choice & Hin & Hc). unfold storage_script. rewrite Hc. clear Hc.
  cbn [qchoices storageType_question] in Hin.
  repeat (apply elem_of_cons in Hin as [-> | Hin]; [by vm_compute|]).
  inversion Hin.
Qed.

Lemma state_answer_does_not_throw (c : Config) :
  answers stateManagement_question (stateManagement c) → throws (state_script [] c) = false.
Proof.
  intros (choice & Hin & Hc). unfold state_script. rewrite Hc. clear Hc.
  cbn [qchoices stateManagement_question] in Hin.
  repeat (apply elem_of_cons in Hin as [-> | Hin]; [by vm_compute|]).
  inversion Hin.
Qed.

(** X12: six of the generators stand on their own.  Called on a scaffolder
    whose root has nothing below it (the root itself need not exist),
    [createBaseDirectories], [ensureNavigationDirectory],
    [setupNavigation] and [createUtilityFiles] succeed, and so do
    [setupStorage] and [setupStateManagement] for every choice of their
    prompts: each makes the directories its files go to. *)
Theorem generators_that_stand_alone (s : state) :
  fresh (rootPath s) (fs s) →
  (createBaseDirectories s).1 = Ok tt ∧
  (ensureNavigationDirectory s).1 = Ok tt ∧
  (setupNavigation s).1 = Ok tt ∧
  (createUtilityFiles s).1 = Ok tt ∧
  (answers storageType_question (storageType (config s)) →
   (setupStorage s).1 = Ok tt) ∧
  (answers stateManagement_question (stateManagement (config s)) →
   (setupStateManagement s).1 = Ok tt).
Proof.
  intros Hfresh. repeat split.
  - apply (alone_succeeds _ (fun root _ => base_script root));
      [apply performs_createBaseDirectories | apply base_script_relocate
      | by vm_compute | by vm_compute | done].
  - apply (alone_succeeds _ (fun root _ => navigation_dir_script root));
      [apply performs_ensureNavigationDirectory | apply navigation_dir_script_relocate
      | by vm_compute | by vm_compute | done].
  - apply (alone_succeeds _ (fun root _ => navigation_script root));
      [apply performs_setupNavigation | apply navigation_script_relocate
      | by vm_compute | by vm_compute | done].
  - apply (alone_succeeds _ (fun root _ => utility_script root));
      [apply performs_createUtilityFiles | apply utility_script_relocate
      | by vm_compute | by vm_compute | done].
  - intros Hanswer. apply (alone_succeeds _ storage_script);
      [apply performs_setupStorage | apply storage_script_relocate | |
       by apply storage_answer_does_not_throw | done].
    apply table_variants_sound. by vm_compute.
  - intros Hanswer. apply (alone_succeeds _ state_script);
      [apply performs_setupStateManagement | apply state_script_relocate | |
       by apply state_answer_does_not_throw | done].
    apply table_variants_sound. by vm_compute.
Qed.

Lemma generators_that_stand_alone_witness :
  let s := constructor (Some ["proj"]) {| cwd := ["home"]; disk := ∅; stdin := [] |} in
  (setupNavigation s).1 = Ok tt ∧ (createUtilityFiles s).1 = Ok tt.
Proof.
  intros s.
  destruct (generators_that_stand_alone s (fresh_empty ["proj"]))
    as (_ & _ & Hnav & Hutil & _).
  exact (conj Hnav Hutil).
Defined.

Lemma write_error_missing_parent (f : FS) (p : path) :
  f !! p = None → dirname p ≠ [] → f !! dirname p = None →
  write_error f p = Some (ENOENT p).
Proof.
  unfold write_error. intros -> Hd Hparent.
  destruct (dirname p) as [|x d]; [done|]. by rewrite Hparent.
Qed.

(** X13: two of the generators rely on a step before them.  On a root with
    nothing below it [setupBottomNavigation], called on its own, makes
    its icon directory and then fails with [ENOENT] at its file, which it
    writes without making [src/navigation]; after
    [ensureNavigationDirectory] it succeeds.  [createTsConfig] fails with
    [ENOENT] and changes nothing when the root directory does not exist;
    after [createBaseDirectories] it succeeds. *)
Theorem generators_that_need_a_predecessor (s : state) :
  fresh (rootPath s) (fs s) →
  ((setupBottomNavigation s).1
   = Throw (ENOENT (path_join (rootPath s) "src/navigation/BottomTabNavigator.tsx")) ∧
   made (trace (setupBottomNavigation s).2)
   = made (trace s) ++ [path_join (rootPath s) "src/assets/icons/BottomTabIcons"] ∧
   written (trace (setupBottomNavigation s).2) = written (trace s)) ∧
  ((ensureNavigationDirectory;; setupBottomNavigation) s).1 = Ok tt ∧
  (rootPath s ≠ [] → fs s !! rootPath s = None →
   createTsConfig s = (Throw (ENOENT (path_join (rootPath s) "tsconfig.json")), s)) ∧
  ((createBaseDirectories;; createTsConfig) s).1 = Ok tt.
Proof.
  intros Hfresh. split; [|split; [|split]].
  - rewrite performs_setupBottomNavigation, perform_all_run, bottom_script_relocate.
    change (bottom_script [])
      with ([ DoMkdirp ["src"; "assets"; "icons"; "BottomTabIcons"];
              DoLog "Created Bottom Nav directory: src/assets/icons/BottomTabIcons" ]
            ++ [ DoWrite ["src"; "navigation"; "BottomTabNavigator.tsx"]
                   generateBottomTabContent;
                 DoLog "Created Bottom Nav file: src/navigation/BottomTabNavigator.tsx" ]).
    change (path_join (rootPath s) "src/navigation/BottomTabNavigator.tsx")
      with (rootPath s ++ ["src"; "navigation"; "BottomTabNavigator.tsx"]).
    change (path_join (rootPath s) "src/assets/icons/BottomTabIcons")
      with (rootPath s ++ ["src"; "assets"; "icons"; "BottomTabIcons"]).
    set (pre := [ DoMkdirp ["src"; "assets"; "icons"; "BottomTabIcons"];
                  DoLog "Created Bottom Nav directory: src/assets/icons/BottomTabIcons" ]).
    assert (sound pre = true) as Hsound by (by vm_compute).
    assert (throws pre = false) as Hth by done.
    pose proof (sound_run_succeeds (rootPath s) pre (fs s) Hsound Hth Hfresh) as Hok.
    pose proof (run_success_effect _ _ Hok) as Heff.
    pose proof (run_success_events _ _ Hok) as Hev.
    rewrite map_app, run_app, Hok, Heff, Hev. clear Hok Heff Hev.
    assert (∀ r, r ≠ [] → r ∉ dir_targets pre →
                 effect (map (relocate (rootPath s)) pre) (fs s) !! (rootPath s ++ r) = None)
      as Hmissing.
    { intros r Hr Hnot. apply eq_None_not_Some.
      rewrite (effect_below_root _ pre _ r Hfresh Hr).
      intros [H | H]; [done | inversion H]. }
    cbn [map relocate run step].
    rewrite (write_error_missing_parent _ (rootPath s ++ _)).
    + unfold settle. cbn [failure events fst snd trace].
      rewrite app_nil_r, !made_app, !written_app. subst pre.
      unfold events_of. cbn [map relocate flat_map event_of app].
      unfold made at 2 3, written at 2 3. cbn [flat_map app].
      by rewrite !app_nil_r.
    + apply Hmissing; [done|].
      apply (bool_decide_eq_true_1 (_ ∉ _)). by vm_compute.
    + rewrite dirname_app by done. by destruct (rootPath s).
    + rewrite dirname_app by done. apply (Hmissing ["src"; "navigation"]); [done|].
      apply (bool_decide_eq_true_1 (_ ∉ _)). by vm_compute.
  - apply (alone_succeeds _
             (fun root _ => navigation_dir_script root ++ bottom_script root));
      [ apply (performs_seq _ _ (fun root _ => navigation_dir_script root)
                 (fun root _ => bottom_script root));
          [apply performs_ensureNavigationDirectory | apply performs_setupBottomNavigation]
      | by rewrite map_app, <- navigation_dir_script_relocate, <- bottom_script_relocate
      | by vm_compute | by vm_compute | done ].
  - intros Hroot Hnone.
    rewrite performs_createTsConfig, perform_all_run. unfold tsconfig_script.
    change (path_join (rootPath s) "tsconfig.json") with (rootPath s ++ ["tsconfig.json"]).
    cbn [run step].
    rewrite write_error_missing_parent.
    + unfold settle. cbn [failure events final_fs]. by rewrite app_nil_r, state_eta.
    + by apply (proj2 Hfresh).
    + by rewrite dirname_snoc.
    + by rewrite dirname_snoc.
  - apply (alone_succeeds _ (fun root _ => base_script root ++ tsconfig_script root));
      [ apply (performs_seq _ _ (fun root _ => base_script root)
                 (fun root _ => tsconfig_script root));
          [apply performs_createBaseDirectories | apply performs_createTsConfig]
      | by rewrite map_app, <- base_script_relocate, <- tsconfig_script_relocate
      | by vm_compute | by vm_compute | done ].
Qed.

Lemma generators_that_need_a_predecessor_witness :
  let s := constructor (Some ["proj"]) {| cwd := ["home"]; disk := ∅; stdin := [] |} in
  (setupBottomNavigation s).1
  = Throw (ENOENT ["proj"; "src"; "navigation"; "BottomTabNavigator.tsx"]) ∧
  createTsConfig s = (Throw (ENOENT ["proj"; "tsconfig.json"]), s).
Proof.
  intros s.
  destruct (generators_that_need_a_predecessor s (fresh_empty ["proj"]))
    as ((Hbottom & _) & _ & Hts & _).
  split; [exact Hbottom|]. apply Hts; [discriminate | reflexivity].
Defined.

(** ** The command *)

Lemma plans_make_below_root (c : Config) (r : path) :
  DoMkdirp r ∈ plan [] c → r ≠ [].
Proof.
  intros Hin.
  assert (forallb (fun script =>
            forallb (fun q => negb (bool_decide (q = []))) (made (events_of script)))
            all_plans = true) as Hall by (by vm_compute).
  pose proof (proj1 (forallb_elem_of _ _) Hall _ (plan_in_all_plans c)) as Hc.
  apply elem_of_made_events in Hin.
  pose proof (proj1 (forallb_elem_of _ _) Hc _ Hin) as Hr.
  apply negb_true_iff, bool_decide_eq_false in Hr. done.
Qed.

Lemma launch_reports_below_root (root : path) (f : FS) (srf : list response) :
  (∀ q, q ∈ made (trace (launch root f srf)) → ∃ r, r ≠ [] ∧ q = root ++ r) ∧
  (∀ w, w ∈ (written (trace (launch root f srf))).*1 → ∃ r, r ≠ [] ∧ w = root ++ r).
Proof.
  destruct (launch_run root f srf) as (_ & -> & ->). unfold performed_script.
  destruct (ask question_names srf).2 as [e|].
  { split; intros x Hx; inversion Hx. }
  destruct (run_events_prefix (plan root (answered_config srf)) f)
    as (performed & tl & Hplan & ->).
  split.
  - intros q Hq.
    assert (q ∈ made (events_of (plan root (answered_config srf)))) as Hall.
    { rewrite Hplan, events_of_app, made_app, elem_of_app. by left. }
    rewrite plan_relocate, made_events_relocate in Hall.
    apply list_elem_of_fmap in Hall as (r & -> & Hr). exists r. split; [|done].
    apply elem_of_made_events in Hr. by apply plans_make_below_root in Hr.
  - intros w Hw.
    assert (w ∈ write_targets (plan root (answered_config srf))) as Hall.
    { rewrite <- write_targets_events, Hplan, events_of_app, written_app, fmap_app,
        elem_of_app. by left. }
    rewrite plan_relocate in Hall.
    destruct (sound_under_root root _ (plan_sound (answered_config srf)))
      as (_ & Hbelow & _).
    by destruct (Hbelow w Hall) as [Hr _].
Qed.

(** X14: the command works in the directory it is started in.  Run
    without an explicit root the scaffolder takes the working directory
    of the process as its root, and every directory it makes and every
    file it writes lies below that directory. *)
Theorem command_works_in_the_working_directory (p : process) :
  rootPath (constructor None p) = cwd p ∧
  rootPath (main p).2 = cwd p ∧
  (∀ q, q ∈ made (trace (main p).2) → ∃ r, r ≠ [] ∧ q = cwd p ++ r) ∧
  (∀ w, w ∈ (written (trace (main p).2)).*1 → ∃ r, r ≠ [] ∧ w = cwd p ++ r).
Proof.
  rewrite main_launch. cbn [fst snd]. split; [done|].
  split; [by destruct (launch_result (cwd p) (disk p) (stdin p)) as (-> & _)|].
  apply launch_reports_below_root.
Qed.

Lemma command_works_in_the_working_directory_witness :
  let p := {| cwd := ["home"; "proj"]; disk := ∅; stdin := all_off |} in
  ∃ r, r ≠ [] ∧ ["home"; "proj"; "tsconfig.json"] = cwd p ++ r.
Proof.
  intros p.
  refine (proj2 (proj2 (proj2 (command_works_in_the_working_directory p)))
            ["home"; "proj"; "tsconfig.json"] _).
  apply (bool_decide_eq_true_1 (_ ∈ _)). vm_compute. reflexivity.
Defined.

(** ** The generated modules once more *)

Lemma delta_sum_net (ops : list operation) : foldr Z.add 0%Z (map delta ops) = net ops.
Proof.
  unfold net. induction ops as [|op ops IH]; [done|].
  cbn [map foldr List.filter]. rewrite IH.
  destruct op; cbn [is_increment negb delta length]; lia.
Qed.

(** X15: the three generated counters count alike.  After a sequence of
    [increment] and [decrement] calls on the initial state that is no
    longer than the largest safe integer, the Redux slice, the Zustand
    store and the Context provider each hold the number of increments
    less the number of decrements: no call is dropped, and the value goes
    below 0 when the decrements outnumber the increments. *)
Theorem generated_counters_count_alike (ops : list operation) :
  (Z.of_nat (length ops) ≤ MAX_SAFE_INTEGER)%Z →
  value_of (replay (initial : ExampleSlice.State) ops) = net ops ∧
  value_of (replay (initial : ExampleStore.ExampleState) ops) = net ops ∧
  value_of (replay (initial : Z) ops) = net ops.
Proof.
  intros Hlen.
  assert (∀ v : Z, v = 0%Z → (Z.abs v + Z.of_nat (length ops) ≤ MAX_SAFE_INTEGER)%Z)
    as Hstart by (intros v ->; lia).
  rewrite (replay_value ops _ ExampleSlice_contract
             (Hstart _ (proj1 ExampleSlice_contract))),
    (replay_value ops _ ExampleStore_contract
       (Hstart _ (proj1 ExampleStore_contract))),
    (replay_value ops _ ExampleProvider_contract
       (Hstart _ (proj1 ExampleProvider_contract))),
    delta_sum_net.
  repeat split.
Qed.

Lemma generated_counters_count_alike_witness :
  value_of (replay (initial : ExampleSlice.State) [Increment; Decrement; Decrement])
  = (-1)%Z.
Proof.
  refine (proj1 (generated_counters_count_alike [Increment; Decrement; Decrement] _)).
  unfold MAX_SAFE_INTEGER. simpl. lia.
Defined.

(** A list of routes the navigator has, on a ready container: the
    navigation state is replaced, nothing is logged, and the container
    stays ready with the same route names. *)
Lemma reset_of_known_routes
    {C} `{NavigationRef.NavigationContainerRef C}
    (routes : list NavigationRef.route) (r : NavigationRef.runtime C) :
  routes ≠ [] →
  NavigationRef.isReady (NavigationRef.navigationRef r) = true →
  (∀ x, x ∈ routes →
     NavigationRef.name x ∈ NavigationRef.routeNames (NavigationRef.navigationRef r)) →
  let r' := NavigationRef.resetNavigationStack routes r in
  NavigationRef.getRootState (NavigationRef.navigationRef r')
  = NavigationRef.reset_argument routes ∧
  NavigationRef.console r' = NavigationRef.console r ∧
  NavigationRef.isReady (NavigationRef.navigationRef r') = true ∧
  NavigationRef.routeNames (NavigationRef.navigationRef r')
  = NavigationRef.routeNames (NavigationRef.navigationRef r).
Proof.
  intros Hne Hready Hknown. unfold NavigationRef.resetNavigationStack. rewrite Hready.
  cbn [NavigationRef.navigationRef NavigationRef.console].
  assert (NavigationRef.accepted
            (NavigationRef.routeNames (NavigationRef.navigationRef r))
            (NavigationRef.reset_argument routes) = true) as Hacc.
  { unfold NavigationRef.accepted. cbn [NavigationRef.reset_argument NavigationRef.routes].
    destruct routes as [|x routes]; [done|].
    apply (proj2 (forallb_elem_of _ _)). intros y Hy.
    apply bool_decide_eq_true. by apply Hknown. }
  destruct (NavigationRef.reset_accepted _ _ Hready Hacc
              (reset_argument_accepted_last routes)) as [-> ->].
  rewrite app_nil_r, NavigationRef.reset_keeps_ready, NavigationRef.reset_keeps_names.
  done.
Qed.

(** X16: [resetNavigationStack] at its edges.  On a container that is not
    ready the navigation state is not touched and one line is logged.
    Given the empty list on a ready container, what it hands to [reset]
    has the index -1 and no routes; the navigator refuses that, and the
    navigation state stays what it was.  Of two lists of routes the
    navigator has, given one after the other on a ready container, only
    the second is left, with the index at its last route, and nothing is
    logged. *)
Theorem resetNavigationStack_edge_cases
    {C} `{NavigationRef.NavigationContainerRef C}
    (first second : list NavigationRef.route) (r : NavigationRef.runtime C) :
  (NavigationRef.isReady (NavigationRef.navigationRef r) = false →
   let r' := NavigationRef.resetNavigationStack first r in
   NavigationRef.navigationRef r' = NavigationRef.navigationRef r ∧
   NavigationRef.console r' = NavigationRef.console r ++ ["Navigation is not ready"]) ∧
  NavigationRef.reset_argument []
  = {| NavigationRef.index := (-1)%Z; NavigationRef.routes := [] |} ∧
  (NavigationRef.isReady (NavigationRef.navigationRef r) = true →
   NavigationRef.getRootState
     (NavigationRef.navigationRef (NavigationRef.resetNavigationStack [] r))
   = NavigationRef.getRootState (NavigationRef.navigationRef r)) ∧
  (NavigationRef.isReady (NavigationRef.navigationRef r) = true →
   first ≠ [] → second ≠ [] →
   (∀ x, x ∈ first ++ second →
      NavigationRef.name x ∈ NavigationRef.routeNames (NavigationRef.navigationRef r)) →
   let r' := NavigationRef.resetNavigationStack second
               (NavigationRef.resetNavigationStack first r) in
   NavigationRef.getRootState (NavigationRef.navigationRef r')
   = {| NavigationRef.index := (Z.of_nat (length second) - 1)%Z;
        NavigationRef.routes := second |} ∧
   NavigationRef.console r' = NavigationRef.console r).
Proof.
  split; [|split; [done|split]].
  - intros Hready. by rewrite resetNavigationStack_not_ready.
  - intros Hready. unfold NavigationRef.resetNavigationStack. rewrite Hready.
    cbn [NavigationRef.navigationRef]. by apply NavigationRef.reset_refused.
  - intros Hready Hfirst Hsecond Hknown.
    destruct (reset_of_known_routes first r Hfirst Hready) as (_ & Hlog & Hready' & Hnames).
    { intros x Hx. apply Hknown. rewrite elem_of_app. by left. }
    destruct (reset_of_known_routes second (NavigationRef.resetNavigationStack first r)
                Hsecond Hready') as (Hstate & Hlog' & _).
    { intros x Hx. rewrite Hnames. apply Hknown. rewrite elem_of_app. by right. }
    cbv zeta. rewrite Hstate, Hlog', Hlog. done.
Qed.

Lemma resetNavigationStack_edge_cases_witness :
  let home := {| NavigationRef.name := "Home"; NavigationRef.params := None |} in
  let profile := {| NavigationRef.name := "Profile"; NavigationRef.params := None |} in
  let before := {| NavigationRef.index := 0%Z; NavigationRef.routes := [home] |} in
  let r := {| NavigationRef.navigationRef :=
                {| NavigationRef.ready := true;
                   NavigationRef.names := ["Home"; "Profile"];
                   NavigationRef.current := before |};
              NavigationRef.console := [] |} in
  NavigationRef.getRootState
    (NavigationRef.navigationRef (NavigationRef.resetNavigationStack [] r)) = before ∧
  NavigationRef.getRootState
    (NavigationRef.navigationRef
       (NavigationRef.resetNavigationStack [profile; home]
          (NavigationRef.resetNavigationStack [home] r)))
  = {| NavigationRef.index := 1%Z; NavigationRef.routes := [profile; home] |}.
Proof.
  intros home profile before r. split.
  - exact (proj1 (proj2 (proj2 (resetNavigationStack_edge_cases [home] [profile; home] r)))
             eq_refl).
  - refine (proj1 (proj2 (proj2 (proj2
              (resetNavigationStack_edge_cases [home] [profile; home] r)))
              eq_refl _ _ _)).
    + discriminate.
    + discriminate.
    + apply (proj1 (Forall_forall _ _)).
      apply (bool_decide_eq_true_1 (Forall _ _)). vm_compute. reflexivity.
Defined.

(** ** When a run completes *)

Lemma run_ok_completed (root : path) (f : FS) (srf : list response) :
  (ask question_names srf).2 = None →
  failure (run (plan root (answered_config srf)) f) = None →
  completed (trace (launch root f srf)).
Proof.
  intros Hask Hok. apply (proj2 (completed_no_error _)).
  destruct (launch_result root f srf) as (_ & _ & ->).
  destruct (ask_events question_names srf) as (_ & Herr & _).
  unfold scaffold_result. rewrite Hask. cbn [fst snd].
  pose proof (run_success_events _ f Hok) as Hev.
  set (r := run _ f) in *. clearbody r. rewrite Hok, Hev.
  intros msg e. rewrite !elem_of_app.
  intros [Hin | [Hin | [Hin | Hin]]].
  - apply list_elem_of_singleton in Hin. discriminate.
  - by eapply Herr.
  - by eapply events_of_no_error.
  - inversion Hin.
Qed.

(** X17: when a run completes.  A run whose prompts are answered from
    their lists completes exactly when nothing is in its way on the disk:
    none of the directories it makes, nor the root or a directory above
    these, is a file, and none of the files it writes is a directory.
    Whatever else is on the disk, files at the paths it writes included,
    does not matter. *)
Theorem run_completes_exactly_when_unobstructed (root : path) (f : FS)
    (a b c d : value) (rest : list response) :
  answers bottomNav_question a → answers storageType_question b →
  answers navigationSetup_question c → answers stateManagement_question d →
  let cfg := {| bottomNavigation := a; storageType := b;
                navigationSetup := c; stateManagement := d |} in
  completed (trace (launch root f (answers_with a b c d rest))) ↔
  (∀ q, q ∈ dir_targets (plan root cfg) → is_file (f !! q) = false) ∧
  (∀ p, p ∈ write_targets (plan root cfg) → f !! p ≠ Some Dir).
Proof.
  intros Ha Hb Hc Hd cfg.
  pose proof (answers_selectable a b c d Ha Hb Hc Hd) as Hsel. fold cfg in Hsel.
  pose proof (ask_answers_with a b c d rest) as Hask.
  change (answered_config (answers_with a b c d rest)) with cfg in *.
  destruct (sound_parts _ (plan_sound cfg)) as (_ & Hrel & Hparents).
  destruct (sound_under_root root _ (plan_sound cfg)) as (_ & Hapart & _).
  rewrite <- plan_relocate in Hapart.
  split.
  - intros Hdone.
    destruct (completed_run root f _ Hask Hdone) as (Hok & _ & _).
    change (answered_config (answers_with a b c d rest)) with cfg in Hok.
    destruct (run_decompose (plan root cfg) f (plan_consistent root cfg))
      as (performed & tl & Hsplit & Hev & Hall & Hstop).
    pose proof (run_keeps_file (plan root cfg) f) as Hfile.
    pose proof (run_keeps_dir (plan root cfg) f) as Hdir.
    set (r := run (plan root cfg) f) in *. clearbody r.
    rewrite Hok in Hstop. subst tl. rewrite app_nil_r in Hsplit. subst performed.
    rewrite Hev, write_targets_events in Hfile.
    split.
    + intros q Hq. destruct (f !! q) as [[|content]|] eqn:Ef; try done.
      exfalso.
      assert (q ∉ write_targets (plan root cfg)) as Hnot.
      { intros Hw. by destruct (Hapart q Hw) as [_ ?]. }
      pose proof (Hfile q content Ef Hnot) as Hkept.
      apply elem_of_dir_targets in Hq as (p & Hp & Hq).
      pose proof (proj1 (Forall_forall _ _) Hall _ Hp q Hq) as Hmade.
      congruence.
    + intros p Hp Hisdir.
      apply elem_of_write_targets in Hp as (content & Hp).
      destruct (proj1 (Forall_forall _ _) Hall _ Hp) as [Hwritten _].
      rewrite (Hdir p Hisdir) in Hwritten. discriminate.
  - intros [Hdirs Hwrites]. apply (run_ok_completed _ _ _ Hask).
    change (answered_config (answers_with a b c d rest)) with cfg.
    apply (run_succeeds []); try done.
    + rewrite plan_relocate, throws_relocate. by apply selectable_plans_do_not_throw.
    + intros p Hp. by destruct (Hapart p Hp) as [_ ?].
    + intros q x Hq. inversion Hq.
    + rewrite plan_relocate.
      apply (parents_made_relocate root []); [|done].
      intros p Hp. by destruct (Hrel p Hp).
Qed.

Lemma run_completes_exactly_when_unobstructed_witness :
  completed (trace (launch ["proj"] (<[ ["proj"; "tsconfig.json"] := File "old" ]> ∅)
                      (answers_with (VBool false) (VString "None") (VBool false)
                         (VString "None") []))) ∧
  ¬ completed (trace (launch ["proj"] (<[ ["proj"; "tsconfig.json"] := Dir ]> ∅)
                        (answers_with (VBool false) (VString "None") (VBool false)
                           (VString "None") []))).
Proof.
  assert (answers bottomNav_question (VBool false)) as Ha by (by exists false).
  assert (answers storageType_question (VString "None")) as Hb.
  { exists "None". split; [|reflexivity].
    apply (bool_decide_eq_true_1 (_ ∈ _)). vm_compute. reflexivity. }
  assert (answers navigationSetup_question (VBool false)) as Hc by (by exists false).
  assert (answers stateManagement_question (VString "None")) as Hd.
  { exists "None". split; [|reflexivity].
    apply (bool_decide_eq_true_1 (_ ∈ _)). vm_compute. reflexivity. }
  split.
  - apply (proj2 (run_completes_exactly_when_unobstructed ["proj"] _ _ _ _ _ []
                    Ha Hb Hc Hd)).
    split.
    + apply (proj1 (Forall_forall _ _)).
      apply (bool_decide_eq_true_1 (Forall _ _)). vm_compute. reflexivity.
    + apply (proj1 (Forall_forall _ _)).
      apply (bool_decide_eq_true_1 (Forall _ _)). vm_compute. reflexivity.
  - intros Hdone.
    apply (proj1 (run_completes_exactly_when_unobstructed ["proj"] _ _ _ _ _ []
                    Ha Hb Hc Hd)) in Hdone as [_ Hwrites].
    apply (Hwrites ["proj"; "tsconfig.json"]); [|reflexivity].
    apply (bool_decide_eq_true_1 (_ ∈ _)). vm_compute. reflexivity.
Defined.
